(** * HeapAnalyzer sandbox: instrumentation, execution host, validator, controller

    A shallow embedding of the sandbox engine of the heap visualizer:
    - [instrumentJs] / [instrumentPython]: the two source-to-source
      transformers (frontend/src/sandbox/instrumentJs.ts, instrumentPython.ts),
      both as text and as the behaviour of the program text they emit;
    - [validateEvents] / [validateResult]: the defensive re-parsers
      (useSandbox.ts, jsRuntime.ts, pythonRuntime.ts);
    - [runJs], [runPython], the worker's [onmessage] (sandboxWorker.ts);
    - the [useSandbox] controller as a transition system.

    JavaScript numbers are IEEE-754 doubles and are modelled by Rocq's
    primitive floats.  Integer counters of the emitted programs ([__time],
    [_time[0]]) are modelled in [N].  The allocation table (a JS [Map], a
    Python [dict]) is a [gmap].  Text is held as its UTF-8 bytes. *)

From Stdlib Require Import ZArith NArith Ascii PrimFloat SpecFloat FloatOps FloatAxioms.
From stdpp Require Import gmap strings list fin_maps pretty.

Set Default Proof Using "Type".
Set Warnings "-register-all,-clear-no-such-hyp".

(** ** Text *)

Module Text.

Definition nl_char : ascii := "010"%char.
Definition nl : string := String nl_char "".
Definition dq : string := String "034"%char "".

(** [quoted s] is [s] between two double-quote characters. *)
Definition quoted (s : string) : string := dq +:+ s +:+ dq.

(** [Array.prototype.join] *)
Fixpoint join (sep : string) (l : list string) : string :=
  match l with
  | [] => ""
  | [x] => x
  | x :: r => x +:+ sep +:+ join sep r
  end.

(** [String.prototype.split] with a one-character separator: the result
    always has at least one element. *)
Fixpoint split (c : ascii) (s : string) : list string :=
  match s with
  | "" => [""]
  | String a r =>
      if Ascii.eqb a c then "" :: split c r
      else match split c r with
           | x :: xs => String a x :: xs
           | [] => [String a ""]
           end
  end.

Fixpoint starts_with (u s : string) : bool :=
  match u, s with
  | "", _ => true
  | String a u', String b s' => Ascii.eqb a b && starts_with u' s'
  | String _ _, "" => false
  end.

(** [String.prototype.includes] (and vitest's [toContain] on strings). *)
Fixpoint includes (s u : string) : bool :=
  starts_with u s ||
  match s with
  | "" => false
  | String _ s' => includes s' u
  end.

(** [u] occurs in [s] as a contiguous run of characters. *)
Definition substring_of (u s : string) : Prop :=
  ∃ a b, s = a +:+ u +:+ b.

Fixpoint mem_char (c : ascii) (s : string) : bool :=
  match s with
  | "" => false
  | String a r => Ascii.eqb a c || mem_char c r
  end.

(** The code points that [String.prototype.trim] removes (WhiteSpace and
    LineTerminator of ECMAScript), a text being held as its UTF-8 bytes:
    one byte for U+0009 to U+000D and U+0020, two for U+00A0, three for
    U+FEFF, U+1680, U+2000 to U+200A, U+2028, U+2029, U+202F, U+205F and
    U+3000. *)
Definition white1 (a : ascii) : bool :=
  let n := N_of_ascii a in ((9 <=? n) && (n <=? 13) || (n =? 32))%N.

Definition white2 (a b : ascii) : bool :=
  ((N_of_ascii a =? 194) && (N_of_ascii b =? 160))%N.

Definition white3 (a b c : ascii) : bool :=
  let x := N_of_ascii a in
  let y := N_of_ascii b in
  let z := N_of_ascii c in
  ((x =? 239) && (y =? 187) && (z =? 191)
   || (x =? 225) && (y =? 154) && (z =? 128)
   || (x =? 226) && (y =? 128) &&
        ((128 <=? z) && (z <=? 138) || (z =? 168) || (z =? 169) || (z =? 175))
   || (x =? 226) && (y =? 129) && (z =? 159)
   || (x =? 227) && (y =? 128) && (z =? 128))%N.

(** [!s.trim()]: the string consists of white space only. *)
Fixpoint is_blank (s : string) : bool :=
  match s with
  | "" => true
  | String a r =>
      if white1 a then is_blank r
      else
        match r with
        | "" => false
        | String b r2 =>
            if white2 a b then is_blank r2
            else
              match r2 with
              | "" => false
              | String c r3 => white3 a b c && is_blank r3
              end
        end
  end.

End Text.

(** ** instrumentJs.ts: the emitted program text *)

Module JsTemplate.
Import Text.

(** The template literal up to the interpolation of the user code. *)
Definition before_user : list string :=
  [ "";
    "'use strict';";
    "const __events = [];";
    "const __allocs = new Map();";
    "const __stdout = [];";
    "const __stderr = [];";
    "let __time = 0;";
    "const MAX_EVENTS = 10000;";
    "";
    "function alloc(label, size) {";
    "  if (typeof label !== 'string') throw new Error('alloc: label must be a string');";
    "  if (typeof size !== 'number' || size <= 0) throw new Error('alloc: size must be a positive number');";
    "  if (__events.length >= MAX_EVENTS) throw new Error('Event limit reached (10,000). Reduce allocations.');";
    "  __time++;";
    "  const id = label + '_' + __time;";
    "  __allocs.set(id, { label, size });";
    "  __events.push({ time: __time, action: 'alloc', id, size, label });";
    "  return id;";
    "}";
    "";
    "function free(id) {";
    "  if (typeof id !== 'string') throw new Error('free: id must be a string returned by alloc()');";
    "  if (__events.length >= MAX_EVENTS) throw new Error('Event limit reached (10,000). Reduce allocations.');";
    "  __time++;";
    "  if (!__allocs.has(id)) {";
    "    __events.push({ time: __time, action: 'double_free', id });";
    "    return;";
    "  }";
    "  __allocs.delete(id);";
    "  __events.push({ time: __time, action: 'free', id });";
    "}";
    "";
    "function print(...args) {";
    "  __stdout.push(args.map(String).join(' '));";
    "}";
    "";
    "function log(...args) {";
    "  __stdout.push(args.map(String).join(' '));";
    "}";
    "";
    "const console = {";
    "  log: (...args) => __stdout.push(args.map(String).join(' ')),";
    "  error: (...args) => __stderr.push(args.map(String).join(' ')),";
    "  warn: (...args) => __stderr.push(args.map(String).join(' ')),";
    "};";
    "";
    "try {";
    "  // --- User code ---";
    "  " ].

(** The template literal after the interpolation. *)
Definition after_user : list string :=
  [ "";
    "  // --- End user code ---";
    "";
    "  // Mark remaining allocations as leaked";
    "  if (__allocs.size > 0) {";
    "    __time++;";
    "    __events.push({ time: __time, action: 'end' });";
    "  }";
    "";
    "  self.postMessage({";
    "    type: 'result',";
    "    events: __events,";
    "    stdout: __stdout.join('\n'),";
    "    stderr: __stderr.join('\n'),";
    "  });";
    "} catch (err) {";
    "  self.postMessage({";
    "    type: 'error',";
    "    error: err instanceof Error ? err.message : String(err),";
    "    stdout: __stdout.join('\n'),";
    "    stderr: __stderr.join('\n'),";
    "  });";
    "}";
    "" ].

Definition instrumentJs (userCode : string) : string :=
  join nl before_user +:+ userCode +:+ join nl after_user.

End JsTemplate.

(** ** instrumentPython.ts: the emitted program text *)

Module PyTemplate.
Import Text.

(** [userCode.split('\n').map((line) => '    ' + line).join('\n')] *)
Definition indent (userCode : string) : string :=
  join nl (map (λ line, "    " +:+ line) (split nl_char userCode)).

Definition before_user : list string :=
  [ "";
    "import json as _json";
    "import io as _io";
    "import sys as _sys";
    "";
    "_events = []";
    "_allocs = {}";
    "_time = [0]";
    "_MAX_EVENTS = 10000";
    "_stdout_capture = _io.StringIO()";
    "_stderr_capture = _io.StringIO()";
    "_sys.stdout = _stdout_capture";
    "_sys.stderr = _stderr_capture";
    "";
    "def alloc(label: str, size: int) -> str:";
    "    if not isinstance(label, str):";
    "        raise TypeError(" +:+ quoted "alloc: label must be a string" +:+ ")";
    "    if not isinstance(size, (int, float)) or size <= 0:";
    "        raise ValueError(" +:+ quoted "alloc: size must be a positive number" +:+ ")";
    "    if len(_events) >= _MAX_EVENTS:";
    "        raise RuntimeError(" +:+ quoted "Event limit reached (10,000). Reduce allocations." +:+ ")";
    "    _time[0] += 1";
    "    id = f" +:+ quoted "{label}_{_time[0]}";
    "    _allocs[id] = {" +:+ quoted "label" +:+ ": label, " +:+ quoted "size" +:+ ": int(size)}";
    "    _events.append({" +:+ quoted "time" +:+ ": _time[0], " +:+ quoted "action" +:+ ": "
      +:+ quoted "alloc" +:+ ", " +:+ quoted "id" +:+ ": id, " +:+ quoted "size"
      +:+ ": int(size), " +:+ quoted "label" +:+ ": label})";
    "    return id";
    "";
    "def free(id: str) -> None:";
    "    if not isinstance(id, str):";
    "        raise TypeError(" +:+ quoted "free: id must be a string returned by alloc()" +:+ ")";
    "    if len(_events) >= _MAX_EVENTS:";
    "        raise RuntimeError(" +:+ quoted "Event limit reached (10,000). Reduce allocations." +:+ ")";
    "    _time[0] += 1";
    "    if id not in _allocs:";
    "        _events.append({" +:+ quoted "time" +:+ ": _time[0], " +:+ quoted "action" +:+ ": "
      +:+ quoted "double_free" +:+ ", " +:+ quoted "id" +:+ ": id})";
    "        return";
    "    del _allocs[id]";
    "    _events.append({" +:+ quoted "time" +:+ ": _time[0], " +:+ quoted "action" +:+ ": "
      +:+ quoted "free" +:+ ", " +:+ quoted "id" +:+ ": id})";
    "";
    "def _run_user_code():";
    "" ].

Definition after_user : list string :=
  [ "";
    "";
    "_run_user_code()";
    "";
    "if _allocs:";
    "    _time[0] += 1";
    "    _events.append({" +:+ quoted "time" +:+ ": _time[0], " +:+ quoted "action" +:+ ": "
      +:+ quoted "end" +:+ "})";
    "";
    "_json.dumps({" +:+ quoted "events" +:+ ": _events, " +:+ quoted "stdout"
      +:+ ": _stdout_capture.getvalue(), " +:+ quoted "stderr"
      +:+ ": _stderr_capture.getvalue()})";
    "" ].

Definition instrumentPython (userCode : string) : string :=
  join nl before_user +:+ indent userCode +:+ join nl after_user.

End PyTemplate.

(** ** JavaScript values *)

Module JsValue.

(** Structured-clonable JavaScript values.  A plain object is the finite
    map of its own data properties. *)
Inductive value : Type :=
| VUndefined
| VNull
| VBool (b : bool)
| VNum (n : float)
| VStr (s : string)
| VArr (items : list value)
| VObj (props : gmap string value).

(** ToBoolean, as used by [!ev]. *)
Definition truthy (v : value) : bool :=
  match v with
  | VUndefined | VNull => false
  | VBool b => b
  | VNum n => negb (PrimFloat.eqb n 0 || PrimFloat.is_nan n)
  | VStr s => negb (String.eqb s "")
  | VArr _ | VObj _ => true
  end.

(** [typeof v === 'object'] *)
Definition is_object (v : value) : bool :=
  match v with
  | VNull | VArr _ | VObj _ => true
  | _ => false
  end.

(** [Array.isArray(v)] *)
Definition isArray (v : value) : bool :=
  match v with
  | VArr _ => true
  | _ => false
  end.

(** Property read [v.k] for the property names read by the validators
    ([time], [action], [id], [size], [label], [events], [stdout],
    [stderr], [type], [error]): a plain object answers with its own
    property; an array has none of them. *)
Definition get (v : value) (k : string) : value :=
  match v with
  | VObj props => default VUndefined (props !! k)
  | _ => VUndefined
  end.

(** The double nearest to an integer: the JS number holding a counter,
    and what [JSON.parse] makes of an integer literal. *)
Definition num_of_Z (z : Z) : float :=
  SF2Prim (binary_normalize prec emax z 0 false).

End JsValue.

(** ** Memory events

    The event objects built by both emitted programs have the same five
    fields; only the representation of [size] differs (a JS number, a
    Python [int]). *)

Module Trace.

Record event (num : Type) := Event {
  time : N;
  action : string;
  id : option string;
  size : option num;
  label : option string }.
Arguments Event {num} time action id size label.
Arguments time {num} e.
Arguments action {num} e.
Arguments id {num} e.
Arguments size {num} e.
Arguments label {num} e.

(** The id synthesised by [alloc]: label, underscore, counter value. *)
Definition make_id (label : string) (t : N) : string :=
  label +:+ "_" +:+ pretty t.

Definition end_event {num} (t : N) : event num := Event t "end" None None None.

(** *** What the claims say about a recorded event sequence *)

Definition tracking_action (a : string) : Prop :=
  a = "alloc" ∨ a = "free" ∨ a = "double_free".

(** The state of one run is consistent when the counter equals the number
    of events, the i-th event (counting from 0) carries time i + 1, every
    event was recorded by a tracking call, every [alloc] event carries an
    id made from its own time, and every live id has its [alloc] event. *)
Record consistent {num} (evs : list (event num)) (t : N) (live : gset string)
  : Prop := Consistent {
  consistent_counter : t = N.of_nat (length evs);
  consistent_times : ∀ i e, evs !! i = Some e → time e = N.of_nat (S i);
  consistent_actions : ∀ e, e ∈ evs → tracking_action (action e);
  consistent_ids :
    ∀ e, e ∈ evs → action e = "alloc" → ∃ l, id e = Some (make_id l (time e));
  consistent_live :
    ∀ k, k ∈ live → ∃ e, e ∈ evs ∧ action e = "alloc" ∧ id e = Some k }.

(** Times go up from each event to every later one. *)
Definition times_increase {num} (evs : list (event num)) : Prop :=
  ∀ i j ei ej,
    evs !! i = Some ei → evs !! j = Some ej → i < j → (time ei < time ej)%N.

(** What is left of consistency when the counter may be ahead of the
    number of events: times go up, the i-th event (counting from 0) has
    a time between i + 1 and the counter value less the number of events
    after it, and actions, ids and live ids are as in [consistent]. *)
Record ordered {num} (evs : list (event num)) (t : N) (live : gset string)
  : Prop := Ordered {
  ordered_increase : times_increase evs;
  ordered_window :
    ∀ i e, evs !! i = Some e →
      (N.of_nat (S i) ≤ time e)%N ∧
      (time e + N.of_nat (length evs) ≤ t + N.of_nat (S i))%N;
  ordered_actions : ∀ e, e ∈ evs → tracking_action (action e);
  ordered_ids :
    ∀ e, e ∈ evs → action e = "alloc" → ∃ l, id e = Some (make_id l (time e));
  ordered_live :
    ∀ k, k ∈ live → ∃ e, e ∈ evs ∧ action e = "alloc" ∧ id e = Some k }.



(** The rule for the [end] event: [recorded] is what the tracking calls
    left behind, [final] the sequence handed over. *)
Definition end_rule {num} (live : Prop) (recorded final : list (event num)) : Prop :=
  (live →
     ∃ e_last, last recorded = Some e_last ∧
       final = recorded ++ [end_event (time e_last + 1)] ∧
       ∀ e, e ∈ recorded → action e ≠ "end") ∧
  (¬ live → final = recorded ∧ ∀ e, e ∈ final → action e ≠ "end").

End Trace.

(** ** The program emitted by instrumentJs, as behaviour

    User code is a sequence of statements: calls to the injected API
    ([alloc], [free], [print], [log], [console.*]), a [throw], or a
    [try { ... } catch { ... }] around further statements.  An error
    that no [catch] of the user code takes ends the run (the [try] block
    of the emitted program is left through its [catch]). *)

Module Js.
Import JsValue.
Import Trace.

Definition event : Type := Trace.event float.

Record alloc_info := AllocInfo { a_label : string; a_size : float }.

(** The top-level bindings of the emitted script. *)
Record state := State {
  __events : list event;
  __allocs : gmap string alloc_info;
  __stdout : list string;
  __stderr : list string;
  __time : N }.

Definition MAX_EVENTS : N := 10000.

Definition init : state := State [] ∅ [] [] 0.

(** Outcome of evaluating a call in a state: a value, or a thrown
    [Error] with its message; both with the state left behind. *)
Inductive completion (A : Type) : Type :=
| Normal (a : A) (s : state)
| Throw (message : string) (s : state).
Arguments Normal {A} a s.
Arguments Throw {A} message s.

Definition M (A : Type) : Type := state → completion A.

Definition ret {A} (a : A) : M A := λ s, Normal a s.
Definition throw {A} (message : string) : M A := λ s, Throw message s.
Definition bind {A B} (m : M A) (k : A → M B) : M B :=
  λ s, match m s with
       | Normal a s' => k a s'
       | Throw e s' => Throw e s'
       end.

Definition limit_message : string :=
  "Event limit reached (10,000). Reduce allocations.".

Definition limit_reached (s : state) : bool :=
  (MAX_EVENTS <=? N.of_nat (length (__events s)))%N.

Definition alloc (label size : value) : M value := λ s,
  match label with
  | VStr label =>
      match size with
      | VNum size =>
          if PrimFloat.leb size 0 then throw "alloc: size must be a positive number" s
          else if limit_reached s then throw limit_message s
          else
            let t := (__time s + 1)%N in
            let id := make_id label t in
            Normal (VStr id)
              {| __events := __events s ++ [Event t "alloc" (Some id) (Some size) (Some label)];
                 __allocs := <[id := AllocInfo label size]> (__allocs s);
                 __stdout := __stdout s;
                 __stderr := __stderr s;
                 __time := t |}
      | _ => throw "alloc: size must be a positive number" s
      end
  | _ => throw "alloc: label must be a string" s
  end.

Definition free (id : value) : M unit := λ s,
  match id with
  | VStr id =>
      if limit_reached s then throw limit_message s
      else
        let t := (__time s + 1)%N in
        match __allocs s !! id with
        | None =>
            Normal tt
              {| __events := __events s ++ [Event t "double_free" (Some id) None None];
                 __allocs := __allocs s;
                 __stdout := __stdout s;
                 __stderr := __stderr s;
                 __time := t |}
        | Some _ =>
            Normal tt
              {| __events := __events s ++ [Event t "free" (Some id) None None];
                 __allocs := delete id (__allocs s);
                 __stdout := __stdout s;
                 __stderr := __stderr s;
                 __time := t |}
        end
  | _ => throw "free: id must be a string returned by alloc()" s
  end.

(** [args.map(String).join(' ')], on arguments already converted. *)
Definition to_stdout (args : list string) : M unit := λ s,
  Normal tt
    {| __events := __events s; __allocs := __allocs s;
       __stdout := __stdout s ++ [Text.join " " args];
       __stderr := __stderr s; __time := __time s |}.

Definition to_stderr (args : list string) : M unit := λ s,
  Normal tt
    {| __events := __events s; __allocs := __allocs s;
       __stdout := __stdout s;
       __stderr := __stderr s ++ [Text.join " " args]; __time := __time s |}.

Inductive stmt : Type :=
| SAlloc (label size : value)
| SFree (id : value)
| SPrint (args : list string)
| SLog (args : list string)
| SConsoleLog (args : list string)
| SConsoleError (args : list string)
| SConsoleWarn (args : list string)
| SThrow (message : string)
| STry (body handler : list stmt).

(** [try { body } catch (e) { handler }]: the handler runs in the state
    the failing statement of the body left behind. *)
Fixpoint exec (c : stmt) : M unit :=
  match c with
  | SAlloc label size => bind (alloc label size) (λ _, ret tt)
  | SFree id => free id
  | SPrint args | SLog args | SConsoleLog args => to_stdout args
  | SConsoleError args | SConsoleWarn args => to_stderr args
  | SThrow message => throw message
  | STry body handler => λ s,
      let run :=
        fix run (l : list stmt) : M unit :=
          match l with
          | [] => ret tt
          | c :: rest => bind (exec c) (λ _, run rest)
          end in
      match run body s with
      | Normal a s' => Normal a s'
      | Throw _ s' => run handler s'
      end
  end.

Fixpoint run (body : list stmt) : M unit :=
  match body with
  | [] => ret tt
  | c :: rest => bind (exec c) (λ _, run rest)
  end.

(** A statement other than [try]. *)
Definition atomic (c : stmt) : bool :=
  match c with
  | STry _ _ => false
  | _ => true
  end.

(** The state a completion leaves behind. *)
Definition left_behind {A} (r : completion A) : state :=
  match r with
  | Normal _ s => s
  | Throw _ s => s
  end.

(** The statements after the user code inside the [try] block. *)
Definition mark_leaked (s : state) : state :=
  if (0 <? base.size (__allocs s))%nat then
    let t := (__time s + 1)%N in
    {| __events := __events s ++ [end_event t];
       __allocs := __allocs s;
       __stdout := __stdout s;
       __stderr := __stderr s;
       __time := t |}
  else s.

(** What the script hands to [self.postMessage]. *)
Inductive message : Type :=
| MsgResult (events : list event) (stdout stderr : string)
| MsgError (error stdout stderr : string).

Definition script (body : list stmt) : message :=
  match run body init with
  | Normal _ s =>
      let s' := mark_leaked s in
      MsgResult (__events s') (Text.join Text.nl (__stdout s')) (Text.join Text.nl (__stderr s'))
  | Throw e s =>
      MsgError e (Text.join Text.nl (__stdout s)) (Text.join Text.nl (__stderr s))
  end.

(** The object literals of the script as values. *)
Definition opt_prop (k : string) (v : option value) (o : gmap string value)
  : gmap string value :=
  match v with
  | Some x => <[k := x]> o
  | None => o
  end.

Definition event_value (e : event) : value :=
  VObj (opt_prop "label" (VStr <$> label e)
       (opt_prop "size" (VNum <$> size e)
       (opt_prop "id" (VStr <$> id e)
       (<["action" := VStr (action e)]>
       (<["time" := VNum (num_of_Z (Z.of_N (time e)))]> ∅))))).

Definition message_value (m : message) : value :=
  match m with
  | MsgResult events stdout stderr =>
      VObj (<["stderr" := VStr stderr]> (<["stdout" := VStr stdout]>
           (<["events" := VArr (event_value <$> events)]>
           (<["type" := VStr "result"]> ∅))))
  | MsgError error stdout stderr =>
      VObj (<["stderr" := VStr stderr]> (<["stdout" := VStr stdout]>
           (<["error" := VStr error]>
           (<["type" := VStr "error"]> ∅))))
  end.

(** *** Vocabulary of the claims *)

Definition is_tracking (c : stmt) : bool :=
  match c with
  | SAlloc _ _ | SFree _ => true
  | _ => false
  end.

(** The arguments of a tracking call pass the argument checks: a string
    label and a number not [<= 0] for [alloc], a string id for [free]. *)
Definition valid_args (c : stmt) : bool :=
  match c with
  | SAlloc (VStr _) (VNum size) => negb (PrimFloat.leb size 0)
  | SFree (VStr _) => true
  | _ => false
  end.

Definition consistent (s : state) : Prop :=
  Trace.consistent (__events s) (__time s) (dom (__allocs s)).

End Js.

(** ** The program emitted by instrumentPython, as behaviour

    Same reading of user code as for JavaScript: a sequence of calls to
    the injected [alloc] and [free], writes to the redirected streams,
    [raise], or [try: ... except: ...] around further statements.  An
    exception that no [except] of the user code takes leaves
    [_run_user_code] and the script. *)

Module Py.

Inductive pyvalue : Type :=
| PyNone
| PyBool (b : bool)
| PyInt (z : Z)
| PyFloat (f : float)
| PyStr (s : string).

Record exn := Exn { exn_type : string; exn_message : string }.

Import Trace.

Definition event : Type := Trace.event Z.

Record alloc_info := AllocInfo { a_label : string; a_size : Z }.

(** The module-level bindings of the emitted script; [_time] is the
    one-element list [_time[0]], the two captures are the contents of
    the [StringIO] buffers. *)
Record state := State {
  _events : list event;
  _allocs : gmap string alloc_info;
  _time : N;
  _stdout_capture : string;
  _stderr_capture : string }.

Definition _MAX_EVENTS : N := 10000.

Definition init : state := State [] ∅ 0 "" "".

Inductive completion (A : Type) : Type :=
| Normal (a : A) (s : state)
| Raise (e : exn) (s : state).
Arguments Normal {A} a s.
Arguments Raise {A} e s.

Definition M (A : Type) : Type := state → completion A.

Definition ret {A} (a : A) : M A := λ s, Normal a s.
Definition raise {A} (e : exn) : M A := λ s, Raise e s.
Definition bind {A B} (m : M A) (k : A → M B) : M B :=
  λ s, match m s with
       | Normal a s' => k a s'
       | Raise e s' => Raise e s'
       end.

(** The values that [isinstance(size, (int, float))] accepts; [bool] is
    a subclass of [int]. *)
Inductive number : Type :=
| NumBool (b : bool)
| NumInt (z : Z)
| NumFloat (f : float).

Definition as_number (size : pyvalue) : option number :=
  match size with
  | PyBool b => Some (NumBool b)
  | PyInt z => Some (NumInt z)
  | PyFloat f => Some (NumFloat f)
  | _ => None
  end.

(** [size <= 0] *)
Definition le_zero (size : number) : bool :=
  match size with
  | NumBool b => negb b
  | NumInt z => (z <=? 0)%Z
  | NumFloat f => PrimFloat.leb f 0
  end.

(** [float.__int__]: rounds toward zero; not defined on NaN and the
    infinities. *)
Definition trunc (f : float) : option Z :=
  match Prim2SF f with
  | S754_zero _ => Some 0%Z
  | S754_finite sign m e =>
      let a := Z.shiftl (Z.pos m) e in
      Some (if sign then (- a)%Z else a)
  | S754_infinity _ | S754_nan => None
  end.

(** The builtin [int(size)] on a number. *)
Definition int (size : number) : exn + Z :=
  match size with
  | NumBool b => inr (Z.b2z b)
  | NumInt z => inr z
  | NumFloat f =>
      match trunc f with
      | Some z => inr z
      | None =>
          if PrimFloat.is_nan f
          then inl (Exn "ValueError" "cannot convert float NaN to integer")
          else inl (Exn "OverflowError" "cannot convert float infinity to integer")
      end
  end.

Definition limit_message : string :=
  "Event limit reached (10,000). Reduce allocations.".

Definition limit_reached (s : state) : bool :=
  (_MAX_EVENTS <=? N.of_nat (length (_events s)))%N.

Definition alloc (label size : pyvalue) : M pyvalue := λ s,
  match label with
  | PyStr label =>
      match as_number size with
      | Some size =>
          if le_zero size
          then raise (Exn "ValueError" "alloc: size must be a positive number") s
          else if limit_reached s
          then raise (Exn "RuntimeError" limit_message) s
          else
            let t := (_time s + 1)%N in
            let s1 := {| _events := _events s; _allocs := _allocs s; _time := t;
                         _stdout_capture := _stdout_capture s;
                         _stderr_capture := _stderr_capture s |} in
            let id := make_id label t in
            match int size with
            | inr n =>
                Normal (PyStr id)
                  {| _events := _events s ++ [Event t "alloc" (Some id) (Some n) (Some label)];
                     _allocs := <[id := AllocInfo label n]> (_allocs s);
                     _time := t;
                     _stdout_capture := _stdout_capture s;
                     _stderr_capture := _stderr_capture s |}
            | inl e => raise e s1
            end
      | None => raise (Exn "ValueError" "alloc: size must be a positive number") s
      end
  | _ => raise (Exn "TypeError" "alloc: label must be a string") s
  end.

Definition free (id : pyvalue) : M unit := λ s,
  match id with
  | PyStr id =>
      if limit_reached s
      then raise (Exn "RuntimeError" limit_message) s
      else
        let t := (_time s + 1)%N in
        match _allocs s !! id with
        | None =>
            Normal tt
              {| _events := _events s ++ [Event t "double_free" (Some id) None None];
                 _allocs := _allocs s;
                 _time := t;
                 _stdout_capture := _stdout_capture s;
                 _stderr_capture := _stderr_capture s |}
        | Some _ =>
            Normal tt
              {| _events := _events s ++ [Event t "free" (Some id) None None];
                 _allocs := delete id (_allocs s);
                 _time := t;
                 _stdout_capture := _stdout_capture s;
                 _stderr_capture := _stderr_capture s |}
        end
  | _ => raise (Exn "TypeError" "free: id must be a string returned by alloc()") s
  end.

(** The builtin [print] with [sys.stdout] redirected, on arguments
    already converted by [str]. *)
Definition print (args : list string) : M unit := λ s,
  Normal tt
    {| _events := _events s; _allocs := _allocs s; _time := _time s;
       _stdout_capture := _stdout_capture s +:+ Text.join " " args +:+ Text.nl;
       _stderr_capture := _stderr_capture s |}.

(** The builtin [print] with [file=sys.stderr]. *)
Definition print_err (args : list string) : M unit := λ s,
  Normal tt
    {| _events := _events s; _allocs := _allocs s; _time := _time s;
       _stdout_capture := _stdout_capture s;
       _stderr_capture := _stderr_capture s +:+ Text.join " " args +:+ Text.nl |}.

Inductive stmt : Type :=
| SAlloc (label size : pyvalue)
| SFree (id : pyvalue)
| SPrint (args : list string)
| SPrintErr (args : list string)
| SRaise (e : exn)
| STry (body handler : list stmt).

(** [try: body] with [except Exception: handler]: the handler runs in
    the state the failing statement of the body left behind.  (An
    [except] clause that does not match the exception is the body
    without its [try].) *)
Fixpoint exec (c : stmt) : M unit :=
  match c with
  | SAlloc label size => bind (alloc label size) (λ _, ret tt)
  | SFree id => free id
  | SPrint args => print args
  | SPrintErr args => print_err args
  | SRaise e => raise e
  | STry body handler => λ s,
      let run :=
        fix run (l : list stmt) : M unit :=
          match l with
          | [] => ret tt
          | c :: rest => bind (exec c) (λ _, run rest)
          end in
      match run body s with
      | Normal a s' => Normal a s'
      | Raise _ s' => run handler s'
      end
  end.

(** [_run_user_code()] *)
Fixpoint _run_user_code (body : list stmt) : M unit :=
  match body with
  | [] => ret tt
  | c :: rest => bind (exec c) (λ _, _run_user_code rest)
  end.

(** A statement other than [try]. *)
Definition atomic (c : stmt) : bool :=
  match c with
  | STry _ _ => false
  | _ => true
  end.

(** The state a completion leaves behind. *)
Definition left_behind {A} (r : completion A) : state :=
  match r with
  | Normal _ s => s
  | Raise _ s => s
  end.

(** [if _allocs: ...] after the call of [_run_user_code]. *)
Definition mark_leaked (s : state) : state :=
  if (0 <? base.size (_allocs s))%nat then
    let t := (_time s + 1)%N in
    {| _events := _events s ++ [end_event t];
       _allocs := _allocs s;
       _time := t;
       _stdout_capture := _stdout_capture s;
       _stderr_capture := _stderr_capture s |}
  else s.

(** What evaluating the script gives the caller of [pyodide.runPython]:
    the dictionary handed to [_json.dumps], or the exception that left
    the script. *)
Inductive outcome : Type :=
| Returned (events : list event) (stdout stderr : string)
| Raised (e : exn).

Definition script (body : list stmt) : outcome :=
  match _run_user_code body init with
  | Normal _ s =>
      let s' := mark_leaked s in
      Returned (_events s') (_stdout_capture s') (_stderr_capture s')
  | Raise e _ => Raised e
  end.

(** *** Vocabulary of the claims *)

Definition is_tracking (c : stmt) : bool :=
  match c with
  | SAlloc _ _ | SFree _ => true
  | _ => false
  end.

Definition valid_args (c : stmt) : bool :=
  match c with
  | SAlloc (PyStr _) size =>
      match as_number size with
      | Some n => negb (le_zero n)
      | None => false
      end
  | SFree (PyStr _) => true
  | _ => false
  end.

Definition consistent (s : state) : Prop :=
  Trace.consistent (_events s) (_time s) (dom (_allocs s)).

Definition ordered (s : state) : Prop :=
  Trace.ordered (_events s) (_time s) (dom (_allocs s)).

End Py.

(** ** The Result Validator

    The same loop is written out three times in the repository: in
    [validateEvents] (useSandbox.ts) and in the two [validateResult]
    (jsRuntime.ts, pythonRuntime.ts). *)

Module Validator.
Import JsValue.

(** [...(typeof v === 'string' ? { k: v } : {})] spread into [o]. *)
Definition spread_string (k : string) (v : value) (o : gmap string value)
  : gmap string value :=
  match v with
  | VStr s => <[k := VStr s]> o
  | _ => o
  end.

(** [...(typeof v === 'number' ? { k: v } : {})] spread into [o]. *)
Definition spread_number (k : string) (v : value) (o : gmap string value)
  : gmap string value :=
  match v with
  | VNum n => <[k := VNum n]> o
  | _ => o
  end.

(** The object literal pushed for a kept entry [e]:
    [{ time, action, ...(id), ...(size), ...(label) }]. *)
Definition memory_event (e : value) (time : float) (action : string)
  : gmap string value :=
  spread_string "label" (get e "label")
    (spread_number "size" (get e "size")
       (spread_string "id" (get e "id")
          (<["action" := VStr action]> (<["time" := VNum time]> ∅)))).

(** [for (const ev of raw) { ... }] with the array built so far. *)
Fixpoint loop (raw : list value) (events : list (gmap string value))
  : list (gmap string value) :=
  match raw with
  | [] => events
  | ev :: rest =>
      if negb (truthy ev) || negb (is_object ev) then loop rest events
      else
        match get ev "time", get ev "action" with
        | VNum time, VStr action =>
            loop rest (events ++ [memory_event ev time action])
        | _, _ => loop rest events
        end
  end.

(** useSandbox.ts *)
Definition validateEvents (raw : value) : list (gmap string value) :=
  match raw with
  | VArr items => loop items []
  | _ => []
  end.

Record Result := {
  events : list (gmap string value);
  stdout : string;
  stderr : string }.

Definition string_or_empty (v : value) : string :=
  match v with
  | VStr s => s
  | _ => ""
  end.

(** [validateResult] of jsRuntime.ts and pythonRuntime.ts, which differ in
    the message of the first [throw] only; [inl] is the thrown message. *)
Definition validateResult (no_result : string) (raw : value) : string + Result :=
  if negb (truthy raw) || negb (is_object raw) then inl no_result
  else
    match get raw "events" with
    | VArr items =>
        inr {| events := loop items [];
               stdout := string_or_empty (get raw "stdout");
               stderr := string_or_empty (get raw "stderr") |}
    | _ => inl "Invalid result: events is not an array"
    end.

(** *** The contract in the words of the specification *)

(** A non-null object with a numeric [time] and a string [action]. *)
Definition well_formed (v : value) : Prop :=
  ∃ o t a, v = VObj o ∧ o !! "time" = Some (VNum t) ∧ o !! "action" = Some (VStr a).

Definition keeps (v : value) : bool :=
  match v with
  | VObj o =>
      match o !! "time", o !! "action" with
      | Some (VNum _), Some (VStr _) => true
      | _, _ => false
      end
  | _ => false
  end.

(** An optional field survives when it has the right type. *)
Definition if_string (v : value) : option value :=
  match v with
  | VStr s => Some (VStr s)
  | _ => None
  end.

Definition if_number (v : value) : option value :=
  match v with
  | VNum n => Some (VNum n)
  | _ => None
  end.

(** [out] is the input entry [e] cleaned: its [time] and [action], its
    [id], [size] and [label] when rightly typed, and nothing else. *)
Definition cleaned (e : value) (out : gmap string value) : Prop :=
  out !! "time" = Some (get e "time") ∧
  out !! "action" = Some (get e "action") ∧
  out !! "id" = if_string (get e "id") ∧
  out !! "size" = if_number (get e "size") ∧
  out !! "label" = if_string (get e "label") ∧
  dom out ⊆ {[ "time"; "action"; "id"; "size"; "label" ]}.

End Validator.

(** ** The execution host: jsRuntime.ts, pythonRuntime.ts, sandboxWorker.ts *)

Module Host.
Import JsValue.

(** User source as the host meets it: text that does not parse, or a
    body of statements. *)
Inductive program (stmt : Type) : Type :=
| SyntaxError (message : string)
| Script (body : list stmt).
Arguments SyntaxError {stmt} message.
Arguments Script {stmt} body.

Inductive promise (A : Type) : Type :=
| Resolved (a : A)
| Rejected (message : string)
| Pending.
Arguments Resolved {A} a.
Arguments Rejected {A} message.
Arguments Pending {A}.

(** [err.message || fallback] *)
Definition or_else (message fallback : string) : string :=
  if String.eqb message "" then fallback else message.

Module jsRuntime.

Definition validateResult : value → string + Validator.Result :=
  Validator.validateResult
    "Code did not produce a result. Make sure your code uses alloc() and free().".

(** A source that does not parse makes the Blob worker fire [onerror];
    otherwise the emitted script posts one message, handled by
    [worker.onmessage].  A throw inside that handler settles
    nothing. *)
Definition runJs (userCode : program Js.stmt) : promise Validator.Result :=
  match userCode with
  | SyntaxError message => Rejected (or_else message "JavaScript execution failed")
  | Script body =>
      match Js.script body with
      | Js.MsgError error _ _ => Rejected error
      | msg =>
          match validateResult (Js.message_value msg) with
          | inr r => Resolved r
          | inl _ => Pending
          end
      end
  end.

End jsRuntime.

(** What the worker needs from its surroundings to run Python:
    whether [importScripts] was there to capture, and the [message] of
    the error that Pyodide throws for a Python exception. *)
Record environment := {
  importScriptsFn : bool;
  python_error_message : Py.exn → string }.

Module pythonRuntime.

Definition validateResult : value → string + Validator.Result :=
  Validator.validateResult "Python code did not produce a valid result.".

(** [JSON.parse] of the [_json.dumps] of an event dictionary. *)
Definition event_value (e : Py.event) : value :=
  VObj (Js.opt_prop "label" (VStr <$> Trace.label e)
       (Js.opt_prop "size" ((λ n, VNum (num_of_Z n)) <$> Trace.size e)
       (Js.opt_prop "id" (VStr <$> Trace.id e)
       (<["action" := VStr (Trace.action e)]>
       (<["time" := VNum (num_of_Z (Z.of_N (Trace.time e)))]> ∅))))).

Definition parsed (events : list Py.event) (stdout stderr : string) : value :=
  VObj (<["stderr" := VStr stderr]> (<["stdout" := VStr stdout]>
       (<["events" := VArr (event_value <$> events)]> ∅))).

(** After [onStatus('loading-pyodide')]; loading Pyodide itself is
    taken to succeed. *)
Definition runPython (env : environment) (userCode : program Py.stmt)
  : promise Validator.Result :=
  if negb (importScriptsFn env)
  then Rejected "importScripts not available — cannot load Pyodide."
  else
    match userCode with
    | SyntaxError message => Rejected message
    | Script body =>
        match Py.script body with
        | Py.Raised e => Rejected (python_error_message env e)
        | Py.Returned events stdout stderr =>
            match validateResult (parsed events stdout stderr) with
            | inr r => Resolved r
            | inl message => Rejected message
            end
        end
    end.

End pythonRuntime.

Inductive SandboxStatus : Type :=
| Idle | Running | LoadingPyodide | Success | Error | Timeout.

(** A message as the worker hands it to [postMessage].  The three data
    fields of a [result] message are whatever the worker found in its
    [result]; they need not be an array and strings. *)
Inductive WorkerOutMessage : Type :=
| WorkerResultMessage (events stdout stderr : value)
| WorkerErrorMessage (error stdout stderr : string)
| WorkerStatusMessage (status : SandboxStatus).

(** [language] and [code] of a run message. *)
Inductive request : Type :=
| RunJavaScript (code : program Js.stmt)
| RunPython (code : program Py.stmt)
| RunOther (language : string).

Record WorkerRunMessage := { type : string; run : request }.

Definition result_message (r : Validator.Result) : WorkerOutMessage :=
  WorkerResultMessage (VArr (VObj <$> Validator.events r))
    (VStr (Validator.stdout r)) (VStr (Validator.stderr r)).

(** [result.k] where [result] is a promise: a promise object has no
    property [events], [stdout] or [stderr]. *)
Definition promise_field {A} (result : promise A) (k : string) : value :=
  VUndefined.

(** [self.onmessage] of sandboxWorker.ts: the messages it posts, in
    order.  [runJs] is called without [await]: [result] is the promise
    that [runJs] returns, the handler reads its fields at once, and
    neither what the promise resolves with nor its rejection reaches the
    handler.  [runPython] is awaited; its rejection lands in the
    handler's [catch]. *)
Definition onmessage (env : environment) (e : WorkerRunMessage)
  : list WorkerOutMessage :=
  if negb (String.eqb (type e) "run") then []
  else
    match run e with
    | RunJavaScript code =>
        let result := jsRuntime.runJs code in
        [WorkerResultMessage (promise_field result "events")
           (promise_field result "stdout") (promise_field result "stderr")]
    | RunPython code =>
        WorkerStatusMessage LoadingPyodide ::
        match pythonRuntime.runPython env code with
        | Resolved r => [result_message r]
        | Rejected message => [WorkerErrorMessage message "" ""]
        | Pending => []
        end
    | RunOther language =>
        [WorkerErrorMessage ("Unsupported language: " +:+ language) "" ""]
    end.

End Host.

(** ** The Run Controller: useSandbox.ts

    The hook together with the browser objects it owns.  Workers and
    timers are numbered in order of creation; [live] holds the workers not
    yet terminated, [armed] the timers neither cleared nor fired.  The
    platform calls a worker's handlers only while the worker is live, and
    a timer's callback only while the timer is armed. *)

Module useSandbox.
Import JsValue Host.

Inductive SandboxLanguage : Type := JavaScript | Python.

(** [stdout] and [stderr] hold what the last message carried in these
    fields, which the hook stores as it finds it. *)
Record SandboxState := {
  status : SandboxStatus;
  events : list (gmap string value);
  stdout : value;
  stderr : value;
  error : option string }.

Definition INITIAL_STATE : SandboxState :=
  {| status := Idle; events := []; stdout := VStr ""; stderr := VStr "";
     error := None |}.

Record controller := {
  state : SandboxState;
  workerRef : option nat;
  timeoutRef : option nat;
  live : gset nat;
  armed : gset nat;
  next : nat;
  posted : list (nat * SandboxLanguage * string) }.

Definition mount : controller :=
  {| state := INITIAL_STATE; workerRef := None; timeoutRef := None;
     live := ∅; armed := ∅; next := 1; posted := [] |}.

Definition setState (f : SandboxState → SandboxState) (c : controller) : controller :=
  {| state := f (state c); workerRef := workerRef c; timeoutRef := timeoutRef c;
     live := live c; armed := armed c; next := next c; posted := posted c |}.

(** [clearTimeout(timeoutRef.current); timeoutRef.current = null] when set. *)
Definition clear_timeout (c : controller) : controller :=
  match timeoutRef c with
  | Some t =>
      {| state := state c; workerRef := workerRef c; timeoutRef := None;
         live := live c; armed := armed c ∖ {[t]}; next := next c; posted := posted c |}
  | None => c
  end.

(** [w.terminate(); workerRef.current = null] *)
Definition terminate (w : nat) (c : controller) : controller :=
  {| state := state c; workerRef := None; timeoutRef := timeoutRef c;
     live := live c ∖ {[w]}; armed := armed c; next := next c; posted := posted c |}.

Definition cleanup (c : controller) : controller :=
  let c1 := clear_timeout c in
  match workerRef c1 with
  | Some w => terminate w c1
  | None => c1
  end.

Definition with_status (s : SandboxStatus) (prev : SandboxState) : SandboxState :=
  {| status := s; events := events prev; stdout := stdout prev;
     stderr := stderr prev; error := error prev |}.

Definition no_events_hint : string :=
  "Code ran but produced no memory events. Use alloc(label, size) to allocate.".

Definition timeout_message : string :=
  "Execution timed out after 10 seconds. Check for infinite loops.".

(** [new Worker(...)], [setTimeout(...)], [worker.postMessage(...)]. *)
Definition start (language : SandboxLanguage) (code : string) (c : controller)
  : controller :=
  let w := next c in
  let t := S (next c) in
  {| state := state c; workerRef := Some w; timeoutRef := Some t;
     live := {[w]} ∪ live c; armed := {[t]} ∪ armed c; next := S (S (next c));
     posted := posted c ++ [(w, language, code)] |}.

Definition run (language : SandboxLanguage) (code : string) (c : controller)
  : controller :=
  let c1 := cleanup c in
  if Text.is_blank code then
    setState (λ _, {| status := Error; events := []; stdout := VStr "";
                      stderr := VStr ""; error := Some "No code to run." |}) c1
  else
    start language code (setState (λ _, with_status Running INITIAL_STATE) c1).

Definition stop (c : controller) : controller :=
  setState
    (λ prev,
       with_status
         (match status prev with
          | Running | LoadingPyodide => Idle
          | other => other
          end) prev)
    (cleanup c).

(** [worker.onmessage] of the worker [w] created by [run]. *)
Definition onmessage (w : nat) (msg : WorkerOutMessage) (c : controller) : controller :=
  match msg with
  | WorkerStatusMessage s => setState (with_status s) c
  | WorkerResultMessage raw out err =>
      let events := Validator.validateEvents raw in
      terminate w
        (setState
           (λ _, {| status := Success; events := events; stdout := out; stderr := err;
                    error := match events with
                             | [] => Some no_events_hint
                             | _ :: _ => None
                             end |})
           (clear_timeout c))
  | WorkerErrorMessage message out err =>
      terminate w
        (setState
           (λ _, {| status := Error; events := []; stdout := VStr out;
                    stderr := VStr err; error := Some message |})
           (clear_timeout c))
  end.

(** [worker.onerror] *)
Definition onerror (message : string) (c : controller) : controller :=
  setState
    (λ _, {| status := Error; events := []; stdout := VStr ""; stderr := VStr "";
             error := Some (or_else message "Worker error") |})
    (cleanup c).

(** The callback given to [setTimeout], run when timer [t] fires. *)
Definition on_timeout (t : nat) (c : controller) : controller :=
  let fired :=
    {| state := state c; workerRef := workerRef c; timeoutRef := timeoutRef c;
       live := live c; armed := armed c ∖ {[t]}; next := next c; posted := posted c |} in
  setState
    (λ prev, {| status := Timeout; events := events prev; stdout := stdout prev;
                stderr := stderr prev; error := Some timeout_message |})
    (cleanup fired).

Inductive input : Type :=
| Run (language : SandboxLanguage) (code : string)
| Stop
| Message (w : nat) (msg : WorkerOutMessage)
| WorkerError (w : nat) (message : string)
| TimerFires (t : nat).

Definition step (c : controller) (i : input) : controller :=
  match i with
  | Run language code => run language code c
  | Stop => stop c
  | Message w msg => if decide (w ∈ live c) then onmessage w msg c else c
  | WorkerError w message => if decide (w ∈ live c) then onerror message c else c
  | TimerFires t => if decide (t ∈ armed c) then on_timeout t c else c
  end.

(** The controllers a mounted hook can be in. *)
Inductive reachable : controller → Prop :=
| reachable_mount : reachable mount
| reachable_step c i : reachable c → reachable (step c i).

(** *** Vocabulary of the claims *)

(** The observable events list, stdout and stderr are empty. *)
Definition cleared (st : SandboxState) : Prop :=
  events st = [] ∧ stdout st = VStr "" ∧ stderr st = VStr "".

(** No timer is pending and no host is alive. *)
Definition disposed (c : controller) : Prop :=
  timeoutRef c = None ∧ armed c = ∅ ∧ workerRef c = None ∧ live c = ∅.

(** What holds of every reachable controller: the only live worker and
    the only armed timer are the ones the refs point to, and the state is
    cleared while a worker is referenced and whenever the status is
    [Idle], [Running] or [LoadingPyodide]. *)
Record invariant (c : controller) : Prop := Invariant {
  inv_live : live c = from_option singleton ∅ (workerRef c);
  inv_armed : armed c = from_option singleton ∅ (timeoutRef c);
  inv_worker : is_Some (workerRef c) → cleared (state c);
  inv_waiting :
    status (state c) = Idle ∨ status (state c) = Running ∨
    status (state c) = LoadingPyodide →
    cleared (state c) }.

End useSandbox.

(** ** Vocabulary for the recorded events *)

Module Recorded.
Import Trace.

(** The ids carried by the events of action [a]. *)
Definition ids_with {num} (a : string) (evs : list (event num)) : gset string :=
  list_to_set (omap (λ e, if decide (action e = a) then id e else None) evs).

(** The field-presence rules of a memory event: an [alloc] event has an
    id, a label and a size accepted by [ok]; [free] and [double_free]
    events have an id only; an [end] event has none of the three. *)
Definition well_shaped {num} (ok : num → Prop) (e : event num) : Prop :=
  (action e = "alloc" ∧ is_Some (id e) ∧ is_Some (label e) ∧
     ∃ n, size e = Some n ∧ ok n) ∨
  ((action e = "free" ∨ action e = "double_free") ∧
     is_Some (id e) ∧ size e = None ∧ label e = None) ∨
  (action e = "end" ∧ id e = None ∧ size e = None ∧ label e = None).

(** The table of live ids is accounted for by the events: it holds the
    ids of the [alloc] events that no [free] event names, and [free]
    events name allocated ids only. *)
Definition accounted {num} (evs : list (event num)) (live : gset string) : Prop :=
  live = ids_with "alloc" evs ∖ ids_with "free" evs ∧
  ids_with "free" evs ⊆ ids_with "alloc" evs.

End Recorded.

(** ** Vocabulary for the worker protocol and the controller's bookkeeping *)

Module Protocol.
Import Host useSandbox.

(** A [result] or [error] message ends a run; a [status] message does not. *)
Definition terminal (msg : WorkerOutMessage) : bool :=
  match msg with
  | WorkerStatusMessage _ => false
  | _ => true
  end.

(** The controller receives the messages of worker [w] one after the
    other. *)
Definition deliver (w : nat) (msgs : list WorkerOutMessage) (c : controller)
  : controller :=
  foldl (λ c msg, step c (Message w msg)) c msgs.

(** Bookkeeping of the controller beyond [invariant]: the two refs are
    set and cleared together, workers and timers are numbered below
    [next], and a run shown as in progress has its worker. *)
Record tidy (c : controller) : Prop := Tidy {
  tidy_refs : is_Some (workerRef c) ↔ is_Some (timeoutRef c);
  tidy_workers : ∀ w, w ∈ live c → w < next c;
  tidy_timers : ∀ t, t ∈ armed c → t < next c;
  tidy_running :
    status (state c) = Running ∨ status (state c) = LoadingPyodide →
    is_Some (workerRef c) }.

End Protocol.

(** ** The heap analysis: hooks/useMemoryAnalysis.ts

    The hook replays the first events of a trace on a [Map] from ids to
    blocks and takes a snapshot of the heap after each.  The [Map] is
    the list of its entries in insertion order; sizes are JS numbers;
    [currentStep] is an integer (the application starts it at -1 and
    steps it by one). *)

Module Analysis.

Inductive BlockStatus : Type := active | freed | leaked | double_free.

Definition BlockStatus_eqb (a b : BlockStatus) : bool :=
  match a, b with
  | active, active | freed, freed | leaked, leaked | double_free, double_free => true
  | _, _ => false
  end.

Record MemoryEvent := {
  time : float;
  action : string;
  id : option string;
  size : option float;
  label : option string }.

Module Block.
Record MemoryBlock := {
  id : string;
  label : string;
  size : float;
  status : BlockStatus }.
End Block.
Abbreviation MemoryBlock := Block.MemoryBlock.

Record HeapSnapshot := { total : float; leaked_bytes : float }.

Record MemoryStats := {
  currentHeap : float;
  peakMem : float;
  leakedBytes : float;
  leakedCount : nat;
  freedCount : nat;
  activeCount : nat;
  doubleFreeCount : nat;
  totalOps : Z }.

Record AnalysisResult := {
  blocks : list MemoryBlock;
  snapshots : list HeapSnapshot;
  stats : MemoryStats }.

(** The string when it is truthy, that is present and not empty. *)
Definition truthy_string (s : option string) : option string :=
  match s with
  | Some s => if String.eqb s "" then None else Some s
  | None => None
  end.

(** [bm.set(k, b)]: a present key keeps its place. *)
Fixpoint set (k : string) (b : MemoryBlock) (bm : list (string * MemoryBlock))
  : list (string * MemoryBlock) :=
  match bm with
  | [] => [(k, b)]
  | (k', b') :: rest =>
      if String.eqb k' k then (k', b) :: rest else (k', b') :: set k b rest
  end.

Definition has (k : string) (bm : list (string * MemoryBlock)) : bool :=
  existsb (λ entry, String.eqb (fst entry) k) bm.

Definition with_status (s : BlockStatus) (b : MemoryBlock) : MemoryBlock :=
  {| Block.id := Block.id b; Block.label := Block.label b;
     Block.size := Block.size b; Block.status := s |}.

(** [bm.get(k).status = s] *)
Definition set_status (k : string) (s : BlockStatus)
    (bm : list (string * MemoryBlock)) : list (string * MemoryBlock) :=
  map (λ entry, if String.eqb (fst entry) k
                then (fst entry, with_status s (snd entry)) else entry) bm.

(** [bm.forEach((b) => { if (b.status === 'active') b.status = 'leaked' })] *)
Definition mark_leaked (bm : list (string * MemoryBlock))
  : list (string * MemoryBlock) :=
  map (λ entry, if BlockStatus_eqb (Block.status (snd entry)) active
                then (fst entry, with_status leaked (snd entry)) else entry) bm.

(** The [if] ... [else if] chain of the loop body: an event that fails
    the test of its own action fails the later tests on the action. *)
Definition apply_event (e : MemoryEvent) (bm : list (string * MemoryBlock))
  : list (string * MemoryBlock) :=
  match String.eqb (action e) "alloc",
        truthy_string (id e), truthy_string (label e), size e with
  | true, Some i, Some l, Some n =>
      set i {| Block.id := i; Block.label := l; Block.size := n;
               Block.status := active |} bm
  | _, _, _, _ =>
      match String.eqb (action e) "free", truthy_string (id e) with
      | true, Some i => if has i bm then set_status i freed bm else bm
      | _, _ =>
          match String.eqb (action e) "double_free", truthy_string (id e) with
          | true, Some i => if has i bm then set_status i double_free bm else bm
          | _, _ => if String.eqb (action e) "end" then mark_leaked bm else bm
          end
      end
  end.

Definition values (bm : list (string * MemoryBlock)) : list MemoryBlock :=
  map snd bm.

Definition with_status_in (l : list BlockStatus) (bs : list MemoryBlock)
  : list MemoryBlock :=
  List.filter (λ b, existsb (BlockStatus_eqb (Block.status b)) l) bs.

(** [bs.reduce((s, b) => s + b.size, 0)] *)
Definition bytes (bs : list MemoryBlock) : float :=
  fold_left (λ s b, PrimFloat.add s (Block.size b)) bs 0%float.

(** [Math.max(a, b)]: NaN if either is; [+0] is larger than [-0]. *)
Definition Math_max (a b : float) : float :=
  if PrimFloat.is_nan a || PrimFloat.is_nan b then nan
  else if PrimFloat.ltb a b then b
  else if PrimFloat.ltb b a then a
  else if PrimFloat.get_sign a then b else a.

Record loop_state := {
  bm : list (string * MemoryBlock);
  snaps : list HeapSnapshot;
  peak : float }.

(** One turn of the [for] loop, on the event [e = events[i]]. *)
Definition iteration (st : loop_state) (e : MemoryEvent) : loop_state :=
  let bm' := apply_event e (bm st) in
  let tot := bytes (with_status_in [active; leaked] (values bm')) in
  let lk := bytes (with_status_in [leaked] (values bm')) in
  {| bm := bm';
     snaps := snaps st ++ [{| total := tot; leaked_bytes := lk |}];
     peak := Math_max (peak st) tot |}.

(** The events the loop visits: those at the indices from 0 to
    [Math.min(currentStep, events.length - 1)]. *)
Definition visited (events : list MemoryEvent) (currentStep : Z)
  : list MemoryEvent :=
  take (Z.to_nat (Z.min currentStep (Z.of_nat (length events) - 1) + 1)) events.

(** [bm], [snaps] and [peak] before the loop. *)
Definition start : loop_state :=
  {| bm := []; snaps := []; peak := 0%float |}.

Definition useMemoryAnalysis (events : list MemoryEvent) (currentStep : Z)
  : AnalysisResult :=
  let st := fold_left iteration (visited events currentStep) start in
  let all := values (bm st) in
  let a := with_status_in [active] all in
  let l := with_status_in [leaked] all in
  let f := with_status_in [freed] all in
  let d := with_status_in [double_free] all in
  {| blocks := all;
     snapshots := snaps st;
     stats :=
       {| currentHeap := PrimFloat.add (bytes a) (bytes l);
          peakMem := peak st;
          leakedBytes := bytes l;
          leakedCount := length l;
          freedCount := length f;
          activeCount := length a;
          doubleFreeCount := length d;
          totalOps := Z.min (currentStep + 1) (Z.of_nat (length events)) |} |}.

Definition useAllSnapshots (events : list MemoryEvent) : list HeapSnapshot :=
  snapshots (useMemoryAnalysis events (Z.of_nat (length events) - 1)).

(** An entry of the block map filed under the id of its block. *)
Definition keyed (entry : string * MemoryBlock) : Prop :=
  Block.id (snd entry) = fst entry.

(** An entry whose block has the id, label and size of an [alloc] event
    of [evs]. *)
Definition allocated_by (evs : list MemoryEvent)
    (entry : string * MemoryBlock) : Prop :=
  ∃ e, e ∈ evs ∧ action e = "alloc" ∧
    id e = Some (Block.id (snd entry)) ∧
    label e = Some (Block.label (snd entry)) ∧
    size e = Some (Block.size (snd entry)).

(** *** The analysis of a recorded trace

    A recorded event as the analysis reads it: the fields pass through
    as they are, [f] giving the size as a JS number. *)
Definition of_trace {num} (f : num → float) (e : Trace.event num) : MemoryEvent :=
  {| time := JsValue.num_of_Z (Z.of_N (Trace.time e));
     action := Trace.action e;
     id := Trace.id e;
     size := f <$> Trace.size e;
     label := Trace.label e |}.

(** The block map after the loop has visited all of [evs]. *)
Definition replay {num} (f : num → float) (evs : list (Trace.event num))
  : list (string * MemoryBlock) :=
  bm (fold_left iteration (of_trace f <$> evs) start).

(** The keys of the entries in status [s]. *)
Definition keys_with (s : BlockStatus) (bm : list (string * MemoryBlock))
  : list string :=
  (List.filter (λ entry, BlockStatus_eqb (Block.status (snd entry)) s) bm).*1.

(** The block map follows the allocation table [live]: the active
    entries are those of the table, none is leaked, and no key is
    empty. *)
Record follows (live : gset string) (bm : list (string * MemoryBlock))
  : Prop := Follows {
  follows_active : list_to_set (keys_with active bm) = live;
  follows_leaked : keys_with leaked bm = [];
  follows_named : "" ∉ bm.*1 }.

(** Every [alloc] event has a label that is not empty. *)
Definition labelled {num} (evs : list (Trace.event num)) : Prop :=
  ∀ e, e ∈ evs → Trace.action e = "alloc" → Trace.label e ≠ Some "".

(** The block map of the analysis follows the table [live], for a trace
    whose [alloc] events are labelled. *)
Definition tracks {num} (f : num → float) (evs : list (Trace.event num))
    (live : gset string) : Prop :=
  labelled evs → follows live (replay f evs).

End Analysis.

(** ** The HTML export: escapeHtml in exportHTML

    Strings are the UTF-8 bytes of the text.  The five characters that
    [escapeHtml] replaces are ASCII, and a byte below 128 stands for
    itself in UTF-8, so replacing bytes is replacing characters. *)

Module ExportHtml.

(** [s.replace(/c/g, r)] for a one-character pattern [c] and a
    replacement [r] without [$]. *)
Fixpoint replace_all (c : ascii) (r : string) (s : string) : string :=
  match s with
  | "" => ""
  | String a rest =>
      if Ascii.eqb a c then r +:+ replace_all c r rest
      else String a (replace_all c r rest)
  end.

Definition amp : ascii := "&".
Definition lt : ascii := "<".
Definition gt : ascii := ">".
Definition apos : ascii := "'".
Definition quot : ascii := "034".

Definition escapeHtml (s : string) : string :=
  replace_all quot "&quot;"
    (replace_all apos "&#39;"
       (replace_all gt "&gt;"
          (replace_all lt "&lt;"
             (replace_all amp "&amp;" s)))).

(** What one character of the input becomes. *)
Definition escape_char (a : ascii) : string :=
  if Ascii.eqb a amp then "&amp;"
  else if Ascii.eqb a lt then "&lt;"
  else if Ascii.eqb a gt then "&gt;"
  else if Ascii.eqb a apos then "&#39;"
  else if Ascii.eqb a quot then "&quot;"
  else String a "".

Fixpoint one_pass (s : string) : string :=
  match s with
  | "" => ""
  | String a rest => escape_char a +:+ one_pass rest
  end.

Fixpoint all_chars (P : ascii → bool) (s : string) : bool :=
  match s with
  | "" => true
  | String a rest => P a && all_chars P rest
  end.

(** A character that cannot open or close a tag or an attribute value. *)
Definition inert (a : ascii) : bool :=
  negb (Ascii.eqb a lt || Ascii.eqb a gt || Ascii.eqb a apos || Ascii.eqb a quot).

(** A character that [escapeHtml] has no replacement for. *)
Definition plain (a : ascii) : bool :=
  negb (Ascii.eqb a amp || Ascii.eqb a lt || Ascii.eqb a gt
        || Ascii.eqb a apos || Ascii.eqb a quot).

Fixpoint starts_with (p s : string) : bool :=
  match p, s with
  | "", _ => true
  | String a p', String b s' => Ascii.eqb a b && starts_with p' s'
  | String _ _, "" => false
  end.

(** Every [&] of [s] starts one of the five entities. *)
Fixpoint entities_only (s : string) : bool :=
  match s with
  | "" => true
  | String a rest =>
      (negb (Ascii.eqb a amp)
       || starts_with "amp;" rest || starts_with "lt;" rest
       || starts_with "gt;" rest || starts_with "#39;" rest
       || starts_with "quot;" rest)
      && entities_only rest
  end.

End ExportHtml.

(** * Properties *)

(** ** Text: append, prefix and substring *)

Lemma app_cons a s t : String a s +:+ t = String a (s +:+ t).
Proof. reflexivity. Qed.

Lemma app_assoc_s (a b c : string) : (a +:+ b) +:+ c = a +:+ (b +:+ c).
Proof.
  induction a as [|x a IH]; [reflexivity|].
  rewrite !app_cons. by rewrite IH.
Qed.

Lemma app_nil_r_s (a : string) : a +:+ "" = a.
Proof.
  induction a as [|x a IH]; [reflexivity|].
  rewrite app_cons. by rewrite IH.
Qed.

Lemma starts_with_spec u s :
  Text.starts_with u s = true ↔ ∃ b, s = u +:+ b.
Proof.
  revert s. induction u as [|x u IH]; intros s; simpl.
  - split; [intros _; by exists s | done].
  - destruct s as [|y s].
    + split; [done | intros [b Hb]; discriminate Hb].
    + rewrite andb_true_iff, Ascii.eqb_eq, IH. split.
      * intros [-> [b ->]]. by exists b.
      * intros [b Hb]. rewrite app_cons in Hb. injection Hb as -> ->. eauto.
Qed.

Lemma includes_spec s u :
  Text.includes s u = true ↔ Text.substring_of u s.
Proof.
  unfold Text.substring_of. split.
  - induction s as [|x s IH]; simpl; rewrite orb_true_iff.
    + intros [H|H]; [|done]. apply starts_with_spec in H as [b ->]. by exists "", b.
    + intros [H|H].
      * apply starts_with_spec in H as [b ->]. by exists "", b.
      * destruct (IH H) as (a & b & ->). by exists (String x a), b.
  - intros (a & b & ->). induction a as [|x a IH].
    + assert (Text.starts_with u (u +:+ b) = true) as H
        by (apply starts_with_spec; eauto).
      change ("" +:+ u +:+ b) with (u +:+ b).
      destruct (u +:+ b); simpl in *; by rewrite H.
    + rewrite app_cons. simpl. rewrite IH. apply orb_true_r.
Qed.

Lemma substring_of_middle a u b : Text.substring_of u (a +:+ u +:+ b).
Proof. by exists a, b. Qed.

Lemma substring_of_trans u v w :
  Text.substring_of u v → Text.substring_of v w → Text.substring_of u w.
Proof.
  intros (a & b & ->) (c & d & ->). exists (c +:+ a), (b +:+ d).
  by rewrite !app_assoc_s.
Qed.

Lemma substring_of_suffix a u : Text.substring_of u (a +:+ u).
Proof. exists a, "". by rewrite app_nil_r_s. Qed.

Lemma substring_of_join sep (l : list string) x :
  x ∈ l → Text.substring_of x (Text.join sep l).
Proof.
  induction l as [|y l IH]; [by intros ?%elem_of_nil|].
  intros [->|Hx]%elem_of_cons.
  - destruct l as [|z l]; simpl.
    + exists "", "". by rewrite app_nil_r_s.
    + by exists "", (sep +:+ Text.join sep (z :: l)).
  - specialize (IH Hx). destruct l as [|z l]; [by apply elem_of_nil in Hx|].
    change (Text.join sep (y :: z :: l)) with (y +:+ sep +:+ Text.join sep (z :: l)).
    eapply substring_of_trans; [exact IH|].
    exists (y +:+ sep), "". by rewrite app_nil_r_s, app_assoc_s.
Qed.

Lemma split_no_separator c s :
  Text.mem_char c s = false → Text.split c s = [s].
Proof.
  induction s as [|a s IH]; simpl; [done|].
  intros [Ha Hs]%orb_false_iff. rewrite Ha, (IH Hs). done.
Qed.

(** ** The transformers as text *)

Lemma instrumentJs_embeds userCode :
  Text.substring_of userCode (JsTemplate.instrumentJs userCode).
Proof. apply substring_of_middle. Qed.

Lemma instrumentPython_embeds_indented userCode :
  Text.substring_of (PyTemplate.indent userCode) (PyTemplate.instrumentPython userCode).
Proof. apply substring_of_middle. Qed.

Lemma indent_lines userCode line :
  line ∈ Text.split Text.nl_char userCode →
  Text.substring_of ("    " +:+ line) (PyTemplate.indent userCode).
Proof.
  intros Hin. apply substring_of_join.
  apply list_elem_of_fmap. eauto.
Qed.

(** C7, as stated, fails for the Python transformer: the two-line source
    [a], newline, [b] does not occur in its own instrumented text (its
    second line comes out behind four added spaces), while it does occur
    in the JavaScript one. *)
Lemma C7_python_multiline_not_verbatim :
  let userCode := "a" +:+ Text.nl +:+ "b" in
  ¬ Text.substring_of userCode (PyTemplate.instrumentPython userCode) ∧
  Text.substring_of userCode (JsTemplate.instrumentJs userCode).
Proof.
  split; [|apply instrumentJs_embeds].
  rewrite <- includes_spec. by vm_compute.
Qed.

(** C7 (amended): both transformers are functions of the user source
    alone, so instrumenting the same source twice gives the same text.
    The JavaScript transformer embeds the source verbatim.  The Python
    transformer embeds the source with four spaces put in front of every
    line: that indented text is a contiguous part of the output, every
    line of the source occurs in it behind four spaces, and a source of
    one line (no newline character) occurs verbatim. *)
Theorem C7_transformers_embed_source :
  (∀ u1 u2, u1 = u2 →
     JsTemplate.instrumentJs u1 = JsTemplate.instrumentJs u2 ∧
     PyTemplate.instrumentPython u1 = PyTemplate.instrumentPython u2) ∧
  (∀ userCode, Text.substring_of userCode (JsTemplate.instrumentJs userCode)) ∧
  (∀ userCode,
     Text.substring_of (PyTemplate.indent userCode)
       (PyTemplate.instrumentPython userCode)) ∧
  (∀ userCode line,
     line ∈ Text.split Text.nl_char userCode →
     Text.substring_of ("    " +:+ line) (PyTemplate.instrumentPython userCode)) ∧
  (∀ userCode,
     Text.mem_char Text.nl_char userCode = false →
     Text.substring_of userCode (PyTemplate.instrumentPython userCode)).
Proof.
  split_and!.
  - by intros u1 u2 ->.
  - apply instrumentJs_embeds.
  - apply instrumentPython_embeds_indented.
  - intros userCode line Hin.
    eapply substring_of_trans; [by apply indent_lines|].
    apply instrumentPython_embeds_indented.
  - intros userCode Hnl.
    eapply substring_of_trans; [|apply instrumentPython_embeds_indented].
    unfold PyTemplate.indent. rewrite (split_no_separator _ _ Hnl). simpl.
    apply substring_of_suffix.
Qed.

(** The hypotheses of C7's theorem are met by the sources of the
    repository's own tests. *)
Lemma C7_transformers_embed_source_witness :
  Text.substring_of "    b = 2"
    (PyTemplate.instrumentPython ("a = 1" +:+ Text.nl +:+ "b = 2")) ∧
  Text.substring_of "x = alloc('buf', 64)"
    (PyTemplate.instrumentPython "x = alloc('buf', 64)").
Proof.
  destruct C7_transformers_embed_source as (_ & _ & _ & Hline & Hone).
  split.
  - apply (Hline ("a = 1" +:+ Text.nl +:+ "b = 2") "b = 2").
    vm_compute. apply list_elem_of_In. simpl. tauto.
  - apply Hone. reflexivity.
Defined.

(** ** Ids: label, underscore, decimal counter *)

Lemma mem_char_app c a b :
  Text.mem_char c (a +:+ b) = Text.mem_char c a || Text.mem_char c b.
Proof.
  induction a as [|x a IH]; [reflexivity|].
  rewrite app_cons. simpl. rewrite IH. by rewrite orb_assoc.
Qed.

Lemma pretty_N_char_not_underscore x : pretty_N_char x ≠ "_"%char.
Proof. unfold pretty_N_char. by repeat case_match. Qed.

Lemma pretty_N_go_no_underscore x s :
  Text.mem_char "_" s = false → Text.mem_char "_" (pretty_N_go x s) = false.
Proof.
  revert s. induction (N.lt_wf_0 x) as [x _ IH]; intros s Hs.
  destruct (decide (x = 0)%N) as [->|Hx]; [by rewrite pretty_N_go_0|].
  rewrite pretty_N_go_step by lia.
  apply IH; [apply N.div_lt; lia|].
  simpl. rewrite Hs, orb_false_r.
  apply Ascii.eqb_neq, pretty_N_char_not_underscore.
Qed.

Lemma pretty_N_no_underscore (t : N) : Text.mem_char "_" (pretty t) = false.
Proof.
  unfold pretty, pretty_N. case_decide; [reflexivity|].
  by apply pretty_N_go_no_underscore.
Qed.

(** A string is cut in one way only at its last occurrence of [c]. *)
Lemma last_separator_inj c l1 l2 d1 d2 :
  Text.mem_char c d1 = false → Text.mem_char c d2 = false →
  l1 +:+ String c d1 = l2 +:+ String c d2 → l1 = l2 ∧ d1 = d2.
Proof.
  intros H1 H2. revert l2.
  induction l1 as [|x l1 IH]; intros [|y l2]; rewrite ?app_cons;
    change ("" +:+ ?s) with s; intros Heq.
  - by injection Heq as ->.
  - injection Heq as -> ->.
    rewrite mem_char_app in H1. simpl in H1.
    rewrite Ascii.eqb_refl, orb_true_r in H1. done.
  - injection Heq as -> <-.
    rewrite mem_char_app in H2. simpl in H2.
    rewrite Ascii.eqb_refl, orb_true_r in H2. done.
  - injection Heq as -> Heq. destruct (IH _ Heq) as [-> ->]. done.
Qed.

Lemma make_id_inj l1 l2 t1 t2 :
  Trace.make_id l1 t1 = Trace.make_id l2 t2 → l1 = l2 ∧ t1 = t2.
Proof.
  unfold Trace.make_id. intros Heq.
  apply last_separator_inj in Heq as [-> Heq];
    [|apply pretty_N_no_underscore..].
  split; [done|]. by apply (inj pretty).
Qed.

(** ** Consistency of the recorded events *)

Section consistency.
Context {num : Type}.
Implicit Types (evs : list (Trace.event num)) (e : Trace.event num).
Implicit Types (t : N) (live : gset string).

Lemma consistent_init : Trace.consistent (@nil (Trace.event num)) 0 ∅.
Proof.
  split.
  - done.
  - by intros i e Hl.
  - by intros e ?%elem_of_nil.
  - by intros e ?%elem_of_nil.
  - by intros k ?%elem_of_empty.
Qed.

Lemma consistent_weaken evs t live live' :
  live' ⊆ live → Trace.consistent evs t live → Trace.consistent evs t live'.
Proof.
  intros Hsub [Hc Ht Ha Hi Hl]. split; try done.
  intros k Hk. apply Hl. set_solver.
Qed.

(** One tracking call: the counter goes up by one and one event with the
    new counter value is appended. *)
Lemma consistent_snoc evs t live e live' :
  Trace.consistent evs t live →
  Trace.time e = (t + 1)%N →
  Trace.tracking_action (Trace.action e) →
  (Trace.action e = "alloc" →
     ∃ l, Trace.id e = Some (Trace.make_id l (t + 1))) →
  (∀ k, k ∈ live' →
     k ∈ live ∨ (Trace.action e = "alloc" ∧ Trace.id e = Some k)) →
  Trace.consistent (evs ++ [e]) (t + 1) live'.
Proof.
  intros [Hc Ht Ha Hi Hl] Htime Hact Hid Hlive. split.
  - rewrite length_app. simpl. lia.
  - intros i e' Hlook. apply lookup_app_Some in Hlook as [Hlook|[Hlen Hlook]].
    + by apply Ht.
    + apply list_lookup_singleton_Some in Hlook as [Hi0 <-].
      rewrite Htime, Hc. lia.
  - intros e' [Hin| ->%list_elem_of_singleton]%elem_of_app; auto.
  - intros e' [Hin| ->%list_elem_of_singleton]%elem_of_app Halloc; auto.
    rewrite Htime. auto.
  - intros k Hk. destruct (Hlive k Hk) as [Hold|[Halloc Hidk]].
    + destruct (Hl k Hold) as (e' & Hin & ? & ?). exists e'.
      split_and!; try done. apply elem_of_app. by left.
    + exists e. split_and!; try done. apply elem_of_app. right.
      by apply list_elem_of_singleton.
Qed.



Lemma consistent_no_end evs t live e :
  Trace.consistent evs t live → e ∈ evs → Trace.action e ≠ "end".
Proof.
  intros [_ _ Ha _ _] Hin Hend.
  destruct (Ha e Hin) as [H|[H|H]]; rewrite Hend in H; discriminate H.
Qed.

(** With a live id there is a last event, and it carries the counter. *)
Lemma consistent_last evs t live :
  Trace.consistent evs t live → live ≠ ∅ →
  ∃ e_last, last evs = Some e_last ∧ Trace.time e_last = t.
Proof.
  intros Hcons Hne. destruct Hcons as [Hc Ht Ha Hi Hl].
  apply set_choose_L in Hne as [k Hk].
  destruct (Hl k Hk) as (e & Hin & _).
  destruct (last evs) as [e_last|] eqn:Hlast.
  - exists e_last. split; [done|].
    rewrite last_lookup in Hlast. rewrite (Ht _ _ Hlast), Hc.
    destruct evs; [by apply elem_of_nil in Hin|]. simpl. lia.
  - apply last_None in Hlast. subst evs. by apply elem_of_nil in Hin.
Qed.

(** The [end] rule, from consistency: [final] is [recorded] with the
    [end] event when something is live, [recorded] itself otherwise. *)
Lemma consistent_end_rule evs t live :
  Trace.consistent evs t live →
  Trace.end_rule (live ≠ ∅) evs
    (if decide (live = ∅) then evs else evs ++ [Trace.end_event (t + 1)]).
Proof.
  intros Hcons. split.
  - intros Hne. case_decide; [done|].
    destruct (consistent_last _ _ _ Hcons Hne) as (e_last & Hlast & Htime).
    exists e_last. rewrite Htime. split_and!; try done.
    intros e. by eapply consistent_no_end.
  - intros Hempty. case_decide; [|by destruct Hempty].
    split; [done|]. intros e. by eapply consistent_no_end.
Qed.

(** *** When the counter may be ahead *)

Lemma consistent_ordered evs t live :
  Trace.consistent evs t live → Trace.ordered evs t live.
Proof.
  intros [Hc Ht Ha Hi Hl]. split; try done.
  - intros i j ei ej Hi' Hj' Hlt. rewrite (Ht _ _ Hi'), (Ht _ _ Hj'). lia.
  - intros i e Hi'. rewrite (Ht _ _ Hi'), Hc.
    apply lookup_lt_Some in Hi'. lia.
Qed.

Lemma ordered_consistent evs t live :
  Trace.ordered evs t live → t = N.of_nat (length evs) →
  Trace.consistent evs t live.
Proof.
  intros [Hinc Hwin Ha Hi Hl] Hc. split; try done.
  intros i e Hi'. destruct (Hwin _ _ Hi'). lia.
Qed.

Lemma ordered_bound evs t live e :
  Trace.ordered evs t live → e ∈ evs → (1 ≤ Trace.time e ≤ t)%N.
Proof.
  intros [_ Hwin _ _ _] [i Hi]%list_elem_of_lookup.
  destruct (Hwin _ _ Hi). apply lookup_lt_Some in Hi. lia.
Qed.

(** The counter goes up and nothing is recorded. *)
Lemma ordered_tick evs t live :
  Trace.ordered evs t live → Trace.ordered evs (t + 1) live.
Proof.
  intros [Hinc Hwin Ha Hi Hl]. split; try done.
  intros i e Hi'. destruct (Hwin _ _ Hi'). lia.
Qed.

Lemma ordered_weaken evs t live live' :
  live' ⊆ live → Trace.ordered evs t live → Trace.ordered evs t live'.
Proof.
  intros Hsub [Hinc Hwin Ha Hi Hl]. split; try done.
  intros k Hk. apply Hl. set_solver.
Qed.

(** One tracking call: the counter goes up by one and one event with the
    new counter value is appended. *)
Lemma ordered_snoc evs t live e live' :
  Trace.ordered evs t live →
  Trace.time e = (t + 1)%N →
  Trace.tracking_action (Trace.action e) →
  (Trace.action e = "alloc" →
     ∃ l, Trace.id e = Some (Trace.make_id l (t + 1))) →
  (∀ k, k ∈ live' →
     k ∈ live ∨ (Trace.action e = "alloc" ∧ Trace.id e = Some k)) →
  Trace.ordered (evs ++ [e]) (t + 1) live'.
Proof.
  intros Hord Htime Hact Hid Hlive.
  pose proof Hord as [Hinc Hwin Ha Hi Hl].
  assert (N.of_nat (length evs) ≤ t)%N as Hlen.
  { destruct (last evs) as [e'|] eqn:Hlast.
    - rewrite last_lookup in Hlast. destruct (Hwin _ _ Hlast).
      apply lookup_lt_Some in Hlast. lia.
    - apply last_None in Hlast. subst evs. simpl. lia. }
  split.
  - intros i j ei ej Hi' Hj' Hlt.
    apply lookup_app_Some in Hi' as [Hi'|[Hge Hi']];
      apply lookup_app_Some in Hj' as [Hj'|[Hge' Hj']].
    + by eapply Hinc.
    + apply list_lookup_singleton_Some in Hj' as [_ <-]. rewrite Htime.
      assert (Trace.time ei ≤ t)%N; [|lia].
      eapply ordered_bound; [done|]. by eapply list_elem_of_lookup_2.
    + apply lookup_lt_Some in Hj'. lia.
    + apply list_lookup_singleton_Some in Hi' as [? _].
      apply list_lookup_singleton_Some in Hj' as [? _]. lia.
  - intros i e' Hi'. rewrite length_app. simpl.
    apply lookup_app_Some in Hi' as [Hi'|[Hge Hi']].
    + destruct (Hwin _ _ Hi'). lia.
    + apply list_lookup_singleton_Some in Hi' as [? <-]. rewrite Htime. lia.
  - intros e' [Hin| ->%list_elem_of_singleton]%elem_of_app; auto.
  - intros e' [Hin| ->%list_elem_of_singleton]%elem_of_app Halloc; auto.
    rewrite Htime. auto.
  - intros k Hk. destruct (Hlive k Hk) as [Hold|[Halloc Hidk]].
    + destruct (Hl k Hold) as (e' & Hin & ? & ?). exists e'.
      split_and!; try done. apply elem_of_app. by left.
    + exists e. split_and!; try done. apply elem_of_app. right.
      by apply list_elem_of_singleton.
Qed.


Lemma ordered_no_end evs t live e :
  Trace.ordered evs t live → e ∈ evs → Trace.action e ≠ "end".
Proof.
  intros [_ _ Ha _ _] Hin Hend.
  destruct (Ha e Hin) as [H|[H|H]]; rewrite Hend in H; discriminate H.
Qed.

End consistency.

(** ** The JavaScript tracking calls *)

Import JsValue.

Lemma js_alloc_normal label size s v s' :
  Js.alloc label size s = Js.Normal v s' →
  ∃ l n, label = VStr l ∧ size = VNum n ∧
    PrimFloat.leb n 0 = false ∧ Js.limit_reached s = false ∧
    v = VStr (Trace.make_id l (Js.__time s + 1)) ∧
    s' = {| Js.__events := Js.__events s ++
              [Trace.Event (Js.__time s + 1) "alloc"
                 (Some (Trace.make_id l (Js.__time s + 1))) (Some n) (Some l)];
            Js.__allocs := <[Trace.make_id l (Js.__time s + 1) := Js.AllocInfo l n]>
                             (Js.__allocs s);
            Js.__stdout := Js.__stdout s;
            Js.__stderr := Js.__stderr s;
            Js.__time := (Js.__time s + 1)%N |}.
Proof.
  unfold Js.alloc, Js.throw. intros H.
  repeat case_match; simplify_eq. eauto 10.
Qed.

Lemma js_alloc_throw label size s message s' :
  Js.alloc label size s = Js.Throw message s' → s' = s.
Proof.
  unfold Js.alloc, Js.throw. intros H. by repeat case_match; simplify_eq.
Qed.

Lemma js_free_normal id s s' :
  Js.free id s = Js.Normal tt s' →
  ∃ k, id = VStr k ∧ Js.limit_reached s = false ∧
    s' = {| Js.__events := Js.__events s ++
              [Trace.Event (Js.__time s + 1)
                 (if Js.__allocs s !! k is Some _ then "free" else "double_free")
                 (Some k) None None];
            Js.__allocs := (if Js.__allocs s !! k is Some _ then delete k (Js.__allocs s)
                            else Js.__allocs s);
            Js.__stdout := Js.__stdout s;
            Js.__stderr := Js.__stderr s;
            Js.__time := (Js.__time s + 1)%N |}.
Proof.
  unfold Js.free, Js.throw. intros H.
  destruct id as [| | | |k| |]; try done.
  destruct (Js.limit_reached s) eqn:Hl; [done|].
  exists k. by destruct (Js.__allocs s !! k); simplify_eq.
Qed.

Lemma js_free_throw id s message s' :
  Js.free id s = Js.Throw message s' → s' = s.
Proof.
  unfold Js.free, Js.throw. intros H. by repeat case_match; simplify_eq.
Qed.

Lemma js_exec_try body handler s :
  Js.exec (Js.STry body handler) s =
  match Js.run body s with
  | Js.Normal a s' => Js.Normal a s'
  | Js.Throw _ s' => Js.run handler s'
  end.
Proof. reflexivity. Qed.

(** A call that throws leaves the state as it was. *)
Lemma js_exec_throw c s message s' :
  Js.atomic c = true → Js.exec c s = Js.Throw message s' → s' = s.
Proof.
  destruct c; simpl; unfold Js.bind, Js.to_stdout, Js.to_stderr, Js.throw;
    intros Hc H; try done.
  - destruct (Js.alloc label size s) eqn:Ha; simplify_eq.
    by eapply js_alloc_throw.
  - by eapply js_free_throw.
  - by simplify_eq.
Qed.

(** Induction on statements, through the bodies and handlers of [try]. *)
Lemma js_stmt_ind (P : Js.stmt → Prop) :
  (∀ c, Js.atomic c = true → P c) →
  (∀ body handler, Forall P body → Forall P handler → P (Js.STry body handler)) →
  ∀ c, P c.
Proof.
  intros Hatomic Htry. fix IH 1. intros c.
  destruct c as [| | | | | | | |body handler]; try by apply Hatomic.
  apply Htry.
  - revert body. fix IHbody 1. intros [|c body]; constructor; [apply IH|apply IHbody].
  - revert handler. fix IHhandler 1.
    intros [|c handler]; constructor; [apply IH|apply IHhandler].
Qed.

(** A relation between the states before and after that every call
    respects is respected by every statement and every body, whether
    they return or throw. *)
Section js_steps.
Variable R : Js.state → Js.state → Prop.
Hypothesis R_refl : ∀ s, R s s.
Hypothesis R_trans : ∀ s1 s2 s3, R s1 s2 → R s2 s3 → R s1 s3.
Hypothesis R_atomic :
  ∀ c s, Js.atomic c = true → R s (Js.left_behind (Js.exec c s)).

Lemma js_run_steps_of body :
  Forall (λ c, ∀ s, R s (Js.left_behind (Js.exec c s))) body →
  ∀ s, R s (Js.left_behind (Js.run body s)).
Proof using All.
  induction 1 as [|c body Hc _ IH]; intros s; simpl; [apply R_refl|].
  unfold Js.bind. specialize (Hc s).
  destruct (Js.exec c s) as [[] s1|m s1]; simpl in *; [|done].
  eapply R_trans; [exact Hc|apply IH].
Qed.

Lemma js_exec_steps c : ∀ s, R s (Js.left_behind (Js.exec c s)).
Proof using All.
  induction c as [c Hc|body handler Hbody Hhandler] using js_stmt_ind;
    intros s; [by apply R_atomic|].
  rewrite js_exec_try.
  pose proof (js_run_steps_of body Hbody s) as Hb.
  destruct (Js.run body s) as [[] s1|m s1]; simpl in *; [done|].
  eapply R_trans; [exact Hb|by apply js_run_steps_of].
Qed.

Lemma js_run_steps body s : R s (Js.left_behind (Js.run body s)).
Proof using All.
  apply js_run_steps_of, Forall_forall. intros c _. apply js_exec_steps.
Qed.

End js_steps.

Lemma js_exec_consistent c s s' :
  Js.atomic c = true →
  Js.consistent s → Js.exec c s = Js.Normal tt s' → Js.consistent s'.
Proof.
  unfold Js.consistent. intros Hatomic Hcons.
  destruct c; simpl; unfold Js.bind, Js.ret, Js.to_stdout, Js.to_stderr, Js.throw;
    intros H; simplify_eq; try done.
  - destruct (Js.alloc label size s) eqn:Ha; simplify_eq.
    apply js_alloc_normal in Ha as (l & n & -> & -> & _ & _ & _ & ->). simpl.
    eapply consistent_snoc; [done|done|by left| |]; simpl.
    + intros _. eauto.
    + intros k [->|Hk]%elem_of_dom%lookup_insert_is_Some'; [by right|].
      left. by apply elem_of_dom.
  - apply js_free_normal in H as (k & -> & _ & ->). simpl.
    eapply consistent_snoc; [done|done| | |]; simpl.
    + unfold Trace.tracking_action. destruct (Js.__allocs s !! k); auto.
    + by destruct (Js.__allocs s !! k).
    + intros k' Hk'. left. destruct (Js.__allocs s !! k); [|done].
      apply elem_of_dom in Hk'. apply elem_of_dom.
      apply lookup_delete_is_Some in Hk'. tauto.
Qed.

(** Consistency survives every body, [try] blocks and caught errors
    included. *)
Lemma js_run_consistent_left body s :
  Js.consistent s → Js.consistent (Js.left_behind (Js.run body s)).
Proof.
  apply (js_run_steps (λ s s', Js.consistent s → Js.consistent s')); [auto..|].
  clear. intros c s Hatomic Hcons.
  destruct (Js.exec c s) as [[] s'|m s'] eqn:Hc; simpl.
  - by eapply js_exec_consistent.
  - by apply js_exec_throw in Hc as ->.
Qed.

Lemma js_run_consistent body s s' :
  Js.consistent s → Js.run body s = Js.Normal tt s' → Js.consistent s'.
Proof.
  intros Hcons Hrun. pose proof (js_run_consistent_left body s Hcons) as H.
  by rewrite Hrun in H.
Qed.

Lemma js_init_consistent : Js.consistent Js.init.
Proof. apply consistent_init. Qed.

Lemma js_run_app a b s :
  Js.run (a ++ b) s =
  match Js.run a s with
  | Js.Normal _ s' => Js.run b s'
  | Js.Throw e s' => Js.Throw e s'
  end.
Proof.
  revert s. induction a as [|c a IH]; intros s; simpl; [done|].
  unfold Js.bind. destruct (Js.exec c s); [apply IH|done].
Qed.

Lemma js_mark_leaked_events s :
  Js.__events (Js.mark_leaked s) =
  if decide (dom (Js.__allocs s) = ∅) then Js.__events s
  else Js.__events s ++ [Trace.end_event (Js.__time s + 1)].
Proof.
  unfold Js.mark_leaked.
  destruct (0 <? base.size (Js.__allocs s))%nat eqn:Hsize; case_decide as Hdom;
    try done.
  - apply dom_empty_iff_L, map_size_empty_iff in Hdom.
    apply Nat.ltb_lt in Hsize. lia.
  - apply Nat.ltb_ge in Hsize. destruct Hdom.
    apply dom_empty_iff_L, map_size_empty_iff. lia.
Qed.

(** ** The Python tracking calls *)

Lemma py_alloc_normal label size s v s' :
  Py.alloc label size s = Py.Normal v s' →
  ∃ l x n, label = Py.PyStr l ∧ Py.as_number size = Some x ∧
    Py.le_zero x = false ∧ Py.limit_reached s = false ∧ Py.int x = inr n ∧
    v = Py.PyStr (Trace.make_id l (Py._time s + 1)) ∧
    s' = {| Py._events := Py._events s ++
              [Trace.Event (Py._time s + 1) "alloc"
                 (Some (Trace.make_id l (Py._time s + 1))) (Some n) (Some l)];
            Py._allocs := <[Trace.make_id l (Py._time s + 1) := Py.AllocInfo l n]>
                            (Py._allocs s);
            Py._time := (Py._time s + 1)%N;
            Py._stdout_capture := Py._stdout_capture s;
            Py._stderr_capture := Py._stderr_capture s |}.
Proof.
  unfold Py.alloc, Py.raise. intros H.
  repeat case_match; simplify_eq. eauto 10.
Qed.

Lemma py_free_normal id s s' :
  Py.free id s = Py.Normal tt s' →
  ∃ k, id = Py.PyStr k ∧ Py.limit_reached s = false ∧
    s' = {| Py._events := Py._events s ++
              [Trace.Event (Py._time s + 1)
                 (if Py._allocs s !! k is Some _ then "free" else "double_free")
                 (Some k) None None];
            Py._allocs := (if Py._allocs s !! k is Some _ then delete k (Py._allocs s)
                           else Py._allocs s);
            Py._time := (Py._time s + 1)%N;
            Py._stdout_capture := Py._stdout_capture s;
            Py._stderr_capture := Py._stderr_capture s |}.
Proof.
  unfold Py.free, Py.raise. intros H.
  destruct id as [| | | |k]; try done.
  destruct (Py.limit_reached s) eqn:Hl; [done|].
  exists k. by destruct (Py._allocs s !! k); simplify_eq.
Qed.

Lemma py_exec_try body handler s :
  Py.exec (Py.STry body handler) s =
  match Py._run_user_code body s with
  | Py.Normal a s' => Py.Normal a s'
  | Py.Raise _ s' => Py._run_user_code handler s'
  end.
Proof. reflexivity. Qed.

(** A call that raises records nothing and leaves the table and the
    captured output alone; the counter is as it was, or one ahead when
    it was [int(size)] that raised. *)
Lemma py_exec_raise c s e s' :
  Py.atomic c = true → Py.exec c s = Py.Raise e s' →
  s' = s ∨
  s' = {| Py._events := Py._events s; Py._allocs := Py._allocs s;
          Py._time := (Py._time s + 1)%N;
          Py._stdout_capture := Py._stdout_capture s;
          Py._stderr_capture := Py._stderr_capture s |}.
Proof.
  destruct c; simpl;
    unfold Py.bind, Py.alloc, Py.free, Py.print, Py.print_err, Py.raise;
    intros Hc H; try done; repeat case_match; simplify_eq; auto.
Qed.

(** Induction on statements, through the bodies and handlers of [try]. *)
Lemma py_stmt_ind (P : Py.stmt → Prop) :
  (∀ c, Py.atomic c = true → P c) →
  (∀ body handler, Forall P body → Forall P handler → P (Py.STry body handler)) →
  ∀ c, P c.
Proof.
  intros Hatomic Htry. fix IH 1. intros c.
  destruct c as [| | | | |body handler]; try by apply Hatomic.
  apply Htry.
  - revert body. fix IHbody 1. intros [|c body]; constructor; [apply IH|apply IHbody].
  - revert handler. fix IHhandler 1.
    intros [|c handler]; constructor; [apply IH|apply IHhandler].
Qed.

Section py_steps.
Variable R : Py.state → Py.state → Prop.
Hypothesis R_refl : ∀ s, R s s.
Hypothesis R_trans : ∀ s1 s2 s3, R s1 s2 → R s2 s3 → R s1 s3.
Hypothesis R_atomic :
  ∀ c s, Py.atomic c = true → R s (Py.left_behind (Py.exec c s)).

Lemma py_run_steps_of body :
  Forall (λ c, ∀ s, R s (Py.left_behind (Py.exec c s))) body →
  ∀ s, R s (Py.left_behind (Py._run_user_code body s)).
Proof using All.
  induction 1 as [|c body Hc _ IH]; intros s; simpl; [apply R_refl|].
  unfold Py.bind. specialize (Hc s).
  destruct (Py.exec c s) as [[] s1|m s1]; simpl in *; [|done].
  eapply R_trans; [exact Hc|apply IH].
Qed.

Lemma py_exec_steps c : ∀ s, R s (Py.left_behind (Py.exec c s)).
Proof using All.
  induction c as [c Hc|body handler Hbody Hhandler] using py_stmt_ind;
    intros s; [by apply R_atomic|].
  rewrite py_exec_try.
  pose proof (py_run_steps_of body Hbody s) as Hb.
  destruct (Py._run_user_code body s) as [[] s1|m s1]; simpl in *; [done|].
  eapply R_trans; [exact Hb|by apply py_run_steps_of].
Qed.

Lemma py_run_steps body s : R s (Py.left_behind (Py._run_user_code body s)).
Proof using All.
  apply py_run_steps_of, Forall_forall. intros c _. apply py_exec_steps.
Qed.

End py_steps.

Lemma py_exec_ordered c s s' :
  Py.atomic c = true →
  Py.ordered s → Py.exec c s = Py.Normal tt s' → Py.ordered s'.
Proof.
  unfold Py.ordered. intros Hatomic Hord.
  destruct c; simpl; unfold Py.bind, Py.ret, Py.print, Py.print_err, Py.raise;
    intros H; simplify_eq; try done.
  - destruct (Py.alloc label size s) eqn:Ha; simplify_eq.
    apply py_alloc_normal in Ha as (l & x & n & -> & _ & _ & _ & _ & _ & ->). simpl.
    eapply ordered_snoc; [done|done|by left| |]; simpl.
    + intros _. eauto.
    + intros k [->|Hk]%elem_of_dom%lookup_insert_is_Some'; [by right|].
      left. by apply elem_of_dom.
  - apply py_free_normal in H as (k & -> & _ & ->). simpl.
    eapply ordered_snoc; [done|done| | |]; simpl.
    + unfold Trace.tracking_action. destruct (Py._allocs s !! k); auto.
    + by destruct (Py._allocs s !! k).
    + intros k' Hk'. left. destruct (Py._allocs s !! k); [|done].
      apply elem_of_dom in Hk'. apply elem_of_dom.
      apply lookup_delete_is_Some in Hk'. tauto.
Qed.

(** Every body keeps the events ordered, [try] blocks and caught
    exceptions included. *)
Lemma py_run_ordered_left body s :
  Py.ordered s → Py.ordered (Py.left_behind (Py._run_user_code body s)).
Proof.
  apply (py_run_steps (λ s s', Py.ordered s → Py.ordered s')); [auto..|].
  clear. intros c s Hatomic Hord.
  destruct (Py.exec c s) as [[] s'|m s'] eqn:Hc; simpl.
  - by eapply py_exec_ordered.
  - apply py_exec_raise in Hc as [-> | ->]; [done| |done].
    unfold Py.ordered in *. simpl. by apply ordered_tick.
Qed.

Lemma py_run_ordered body s s' :
  Py.ordered s → Py._run_user_code body s = Py.Normal tt s' → Py.ordered s'.
Proof.
  intros Hord Hrun. pose proof (py_run_ordered_left body s Hord) as H.
  by rewrite Hrun in H.
Qed.

Lemma py_init_ordered : Py.ordered Py.init.
Proof. apply consistent_ordered, consistent_init. Qed.

(** When the counter is in step with the number of events at the end of
    the user code, the state is consistent. *)
Lemma py_run_consistent body s :
  Py._run_user_code body Py.init = Py.Normal tt s →
  Py._time s = N.of_nat (length (Py._events s)) → Py.consistent s.
Proof.
  intros Hrun Hstep. apply ordered_consistent; [|done].
  eapply py_run_ordered; [apply py_init_ordered|done].
Qed.

Lemma py_init_consistent : Py.consistent Py.init.
Proof. apply consistent_init. Qed.

Lemma py_run_app a b s :
  Py._run_user_code (a ++ b) s =
  match Py._run_user_code a s with
  | Py.Normal _ s' => Py._run_user_code b s'
  | Py.Raise e s' => Py.Raise e s'
  end.
Proof.
  revert s. induction a as [|c a IH]; intros s; simpl; [done|].
  unfold Py.bind. destruct (Py.exec c s); [apply IH|done].
Qed.

Lemma py_mark_leaked_events s :
  Py._events (Py.mark_leaked s) =
  if decide (dom (Py._allocs s) = ∅) then Py._events s
  else Py._events s ++ [Trace.end_event (Py._time s + 1)].
Proof.
  unfold Py.mark_leaked.
  destruct (0 <? base.size (Py._allocs s))%nat eqn:Hsize; case_decide as Hdom;
    try done.
  - apply dom_empty_iff_L, map_size_empty_iff in Hdom.
    apply Nat.ltb_lt in Hsize. lia.
  - apply Nat.ltb_ge in Hsize. destruct Hdom.
    apply dom_empty_iff_L, map_size_empty_iff. lia.
Qed.

Lemma end_rule_live {num} (P Q : Prop) (a b : list (Trace.event num)) :
  (P ↔ Q) → Trace.end_rule P a b → Trace.end_rule Q a b.
Proof. unfold Trace.end_rule. intros HPQ [H1 H2]. split; intros ?; tauto. Qed.

(** ** Room below the event ceiling *)

Lemma js_limit_reached_true s :
  Js.limit_reached s = true ↔ (10000 ≤ N.of_nat (length (Js.__events s)))%N.
Proof. unfold Js.limit_reached, Js.MAX_EVENTS. apply N.leb_le. Qed.

Lemma js_limit_reached_false s :
  Js.limit_reached s = false ↔ (N.of_nat (length (Js.__events s)) < 10000)%N.
Proof. unfold Js.limit_reached, Js.MAX_EVENTS. apply N.leb_gt. Qed.

Lemma py_limit_reached_true s :
  Py.limit_reached s = true ↔ (10000 ≤ N.of_nat (length (Py._events s)))%N.
Proof. unfold Py.limit_reached, Py._MAX_EVENTS. apply N.leb_le. Qed.

Lemma py_limit_reached_false s :
  Py.limit_reached s = false ↔ (N.of_nat (length (Py._events s)) < 10000)%N.
Proof. unfold Py.limit_reached, Py._MAX_EVENTS. apply N.leb_gt. Qed.

(** ** C1: the end event *)

(** C1: in the emitted JavaScript program, for every user code, [try]
    blocks included: when the user code reaches its natural end with at
    least one allocation still in the table, the sequence handed over is
    the recorded events followed by exactly one [end] event whose time
    is the last recorded time plus one (no recorded event is an [end]
    event); when the table is empty, the sequence handed over is the
    recorded one and holds no [end] event.  The emitted Python program
    appends the [end] event under the same condition, with the counter
    plus one as its time, which is past every recorded time; that is the
    last recorded time plus one whenever the counter is in step with the
    number of events.  It is not after
    [alloc('a', 1)] followed by [alloc('b', float('inf'))] inside
    [try] ... [except]: the second call advances the counter before
    [int(size)] raises, and the [end] event gets time 3 after a last
    recorded time of 1. *)
Theorem C1_end_event_iff_live_allocation :
  (∀ body s,
     Js.run body Js.init = Js.Normal tt s →
     ∃ final stdout stderr,
       Js.script body = Js.MsgResult final stdout stderr ∧
       Trace.end_rule (Js.__allocs s ≠ ∅) (Js.__events s) final) ∧
  (∀ body s,
     Py._run_user_code body Py.init = Py.Normal tt s →
     ∃ final stdout stderr,
       Py.script body = Py.Returned final stdout stderr ∧
       (Py._allocs s ≠ ∅ →
          final = Py._events s ++ [Trace.end_event (Py._time s + 1)]) ∧
       (Py._allocs s = ∅ → final = Py._events s) ∧
       (∀ e, e ∈ Py._events s →
          Trace.action e ≠ "end" ∧ (Trace.time e ≤ Py._time s)%N) ∧
       (Py._time s = N.of_nat (length (Py._events s)) →
          Trace.end_rule (Py._allocs s ≠ ∅) (Py._events s) final)) ∧
  Py.script [Py.SAlloc (Py.PyStr "a") (Py.PyInt 1);
             Py.STry [Py.SAlloc (Py.PyStr "b") (Py.PyFloat infinity)] []]
  = Py.Returned
      [Trace.Event 1 "alloc" (Some "a_1") (Some 1%Z) (Some "a");
       Trace.end_event 3] "" "".
Proof.
  split_and!; [| |by vm_compute]; intros body s Hrun.
  - unfold Js.script. rewrite Hrun. do 3 eexists. split; [done|].
    rewrite js_mark_leaked_events.
    eapply end_rule_live; [|apply consistent_end_rule].
    + by rewrite dom_empty_iff_L.
    + eapply js_run_consistent; [apply js_init_consistent|done].
  - assert (Py.ordered s) as Hord
      by (eapply py_run_ordered; [apply py_init_ordered|done]).
    unfold Py.script. rewrite Hrun. do 3 eexists. split; [done|].
    rewrite py_mark_leaked_events. split_and!.
    + intros Hlive. case_decide as Hdom; [|done].
      by apply dom_empty_iff_L in Hdom.
    + intros Hnone. case_decide as Hdom; [done|].
      destruct Hdom. by apply dom_empty_iff_L.
    + intros e Hin. split; [by eapply ordered_no_end|].
      by eapply ordered_bound.
    + intros Hstep. eapply end_rule_live; [|apply consistent_end_rule].
      * by rewrite dom_empty_iff_L.
      * by apply ordered_consistent.
Qed.

(** C1 at the run [alloc('buf', 1024)] of either surface: the run ends
    normally with [buf_1] live. *)
Lemma C1_end_event_iff_live_allocation_witness :
  (∃ s final stdout stderr,
     Js.run [Js.SAlloc (VStr "buf") (VNum 1024)] Js.init = Js.Normal tt s ∧
     Js.script [Js.SAlloc (VStr "buf") (VNum 1024)]
       = Js.MsgResult final stdout stderr ∧
     Trace.end_rule (Js.__allocs s ≠ ∅) (Js.__events s) final) ∧
  (∃ s final stdout stderr,
     Py._run_user_code [Py.SAlloc (Py.PyStr "buf") (Py.PyInt 1024)] Py.init
       = Py.Normal tt s ∧
     Py.script [Py.SAlloc (Py.PyStr "buf") (Py.PyInt 1024)]
       = Py.Returned final stdout stderr ∧
     Trace.end_rule (Py._allocs s ≠ ∅) (Py._events s) final).
Proof.
  split.
  - eexists.
    assert (Js.run [Js.SAlloc (VStr "buf") (VNum 1024)] Js.init = Js.Normal tt _)
      as Hrun by (vm_compute; reflexivity).
    destruct (proj1 C1_end_event_iff_live_allocation _ _ Hrun)
      as (final & out & err & Hscript & Hrule).
    exists final, out, err. split_and!; [exact Hrun|exact Hscript|exact Hrule].
  - eexists.
    assert (Py._run_user_code [Py.SAlloc (Py.PyStr "buf") (Py.PyInt 1024)] Py.init
            = Py.Normal tt _) as Hrun by (vm_compute; reflexivity).
    destruct (proj1 (proj2 C1_end_event_iff_live_allocation) _ _ Hrun)
      as (final & out & err & Hscript & _ & _ & _ & Hrule).
    exists final, out, err.
    split_and!; [exact Hrun|exact Hscript|apply Hrule; reflexivity].
Defined.

(** ** C2: times and ids *)







(** ** The event ceiling *)

(** Freeing an id that was never allocated, [n] times over, is a run that
    ends normally with [n] events, as long as [n] is at most 10,000. *)
Lemma js_ghost_frees k n :
  (N.of_nat n ≤ 10000)%N →
  ∃ s, Js.run (replicate n (Js.SFree (VStr k))) Js.init = Js.Normal tt s ∧
    length (Js.__events s) = n ∧ Js.__allocs s = ∅ ∧
    Js.__stdout s = [] ∧ Js.__stderr s = [].
Proof.
  induction n as [|n IH]; intros Hn.
  - by exists Js.init.
  - destruct IH as (s & Hrun & Hlen & Hallocs & Hout & Herr); [lia|].
    rewrite replicate_S_end, js_run_app, Hrun. simpl.
    unfold Js.bind, Js.free.
    assert (Js.limit_reached s = false) as ->
      by (apply js_limit_reached_false; lia).
    rewrite Hallocs, lookup_empty. eexists. split; [done|]. simpl.
    rewrite length_app, Hlen. simpl. split_and!; try done. lia.
Qed.

Lemma py_ghost_frees k n :
  (N.of_nat n ≤ 10000)%N →
  ∃ s, Py._run_user_code (replicate n (Py.SFree (Py.PyStr k))) Py.init
         = Py.Normal tt s ∧
    length (Py._events s) = n ∧ Py._allocs s = ∅.
Proof.
  induction n as [|n IH]; intros Hn.
  - by exists Py.init.
  - destruct IH as (s & Hrun & Hlen & Hallocs); [lia|].
    rewrite replicate_S_end, py_run_app, Hrun. simpl.
    unfold Py.bind, Py.free.
    assert (Py.limit_reached s = false) as ->
      by (apply py_limit_reached_false; lia).
    rewrite Hallocs, lookup_empty. eexists. split; [done|]. simpl.
    rewrite length_app, Hlen. simpl. split_and!; try done. lia.
Qed.

Lemma js_exec_at_limit s c :
  Js.is_tracking c = true → Js.limit_reached s = true →
  ∃ message, Js.exec c s = Js.Throw message s ∧
    (Js.valid_args c = true → message = Js.limit_message) ∧
    (Js.valid_args c = false →
       message ∈ ["alloc: label must be a string";
                  "alloc: size must be a positive number";
                  "free: id must be a string returned by alloc()"]).
Proof.
  intros Htrack Hlimit.
  destruct c as [label size|id| | | | | | |]; try done; simpl;
    unfold Js.bind, Js.alloc, Js.free, Js.throw; rewrite ?Hlimit.
  - destruct label; try (eexists; split_and!; [done|done|intros _; set_solver]).
    destruct size; try (eexists; split_and!; [done|done|intros _; set_solver]).
    destruct (PrimFloat.leb n 0) eqn:Hle; simpl;
      eexists; (split_and!; [done| |]); try done.
    intros _. set_solver.
  - destruct id; try (eexists; split_and!; [done|done|intros _; set_solver]).
    eexists; split_and!; done.
Qed.

Lemma py_exec_at_limit s c :
  Py.is_tracking c = true → Py.limit_reached s = true →
  ∃ e, Py.exec c s = Py.Raise e s ∧
    (Py.valid_args c = true → e = Py.Exn "RuntimeError" Py.limit_message) ∧
    (Py.valid_args c = false →
       e ∈ [Py.Exn "TypeError" "alloc: label must be a string";
            Py.Exn "ValueError" "alloc: size must be a positive number";
            Py.Exn "TypeError" "free: id must be a string returned by alloc()"]).
Proof.
  intros Htrack Hlimit.
  destruct c as [label size|id| | | |]; try done; simpl;
    unfold Py.bind, Py.alloc, Py.free, Py.raise; rewrite ?Hlimit.
  - destruct label; try (eexists; split_and!; [done|done|intros _; set_solver]).
    destruct (Py.as_number size) as [x|] eqn:Hnum; simpl;
      [destruct (Py.le_zero x) eqn:Hle; simpl|];
      eexists; (split_and!; [done| |]); try done; intros _; set_solver.
  - destruct id; try (eexists; split_and!; [done|done|intros _; set_solver]).
    eexists; split_and!; done.
Qed.

(** With the event list full, no statement changes the events, the
    table or the counter, whether its errors are caught or not. *)
Lemma js_full_left body s :
  Js.limit_reached s = true →
  let s' := Js.left_behind (Js.run body s) in
  Js.__events s' = Js.__events s ∧ Js.__allocs s' = Js.__allocs s ∧
  Js.__time s' = Js.__time s.
Proof.
  apply (js_run_steps
           (λ s s', Js.limit_reached s = true →
                    Js.__events s' = Js.__events s ∧
                    Js.__allocs s' = Js.__allocs s ∧
                    Js.__time s' = Js.__time s)).
  - done.
  - intros s1 s2 s3 H12 H23 Hfull. destruct (H12 Hfull) as (He & Ha & Ht).
    destruct H23 as (He' & Ha' & Ht'); [by unfold Js.limit_reached in *; rewrite He|].
    by rewrite He', Ha', Ht'.
  - clear. intros c s Hatomic Hfull.
    destruct (Js.exec c s) as [[] s'|m s'] eqn:Hc; simpl;
      [|by apply js_exec_throw in Hc as ->].
    destruct c; simpl in Hc;
      unfold Js.bind, Js.ret, Js.to_stdout, Js.to_stderr, Js.throw in Hc;
      simplify_eq; try done.
    + destruct (Js.alloc label size s) eqn:Ha; simplify_eq.
      apply js_alloc_normal in Ha as (? & ? & _ & _ & _ & ? & _). congruence.
    + apply js_free_normal in Hc as (? & _ & ? & _). congruence.
Qed.

Lemma py_full_left body s :
  Py.limit_reached s = true →
  let s' := Py.left_behind (Py._run_user_code body s) in
  Py._events s' = Py._events s ∧ Py._allocs s' = Py._allocs s ∧
  Py._time s' = Py._time s.
Proof.
  apply (py_run_steps
           (λ s s', Py.limit_reached s = true →
                    Py._events s' = Py._events s ∧
                    Py._allocs s' = Py._allocs s ∧
                    Py._time s' = Py._time s)).
  - done.
  - intros s1 s2 s3 H12 H23 Hfull. destruct (H12 Hfull) as (He & Ha & Ht).
    destruct H23 as (He' & Ha' & Ht'); [by unfold Py.limit_reached in *; rewrite He|].
    by rewrite He', Ha', Ht'.
  - clear. intros c s Hatomic Hfull.
    destruct (Py.exec c s) as [[] s'|m s'] eqn:Hc; simpl.
    + destruct c; simpl in Hc;
        unfold Py.bind, Py.ret, Py.print, Py.print_err, Py.raise in Hc;
        simplify_eq; try done.
      * destruct (Py.alloc label size s) eqn:Ha; simplify_eq.
        apply py_alloc_normal in Ha as (? & ? & ? & _ & _ & _ & ? & _). congruence.
      * apply py_free_normal in Hc as (? & _ & ? & _). congruence.
    + destruct c; simpl in Hc; try done;
        unfold Py.bind, Py.alloc, Py.free, Py.raise in Hc;
        rewrite ?Hfull in Hc; repeat case_match; by simplify_eq.
Qed.

Lemma js_script_throw pre c rest s message s' :
  Js.run pre Js.init = Js.Normal tt s →
  Js.exec c s = Js.Throw message s' →
  Js.script (pre ++ c :: rest) =
  Js.MsgError message (Text.join Text.nl (Js.__stdout s'))
    (Text.join Text.nl (Js.__stderr s')).
Proof.
  intros Hpre Hc. unfold Js.script.
  rewrite js_run_app, Hpre. simpl. unfold Js.bind. by rewrite Hc.
Qed.

Lemma py_script_raise pre c rest s e s' :
  Py._run_user_code pre Py.init = Py.Normal tt s →
  Py.exec c s = Py.Raise e s' →
  Py.script (pre ++ c :: rest) = Py.Raised e.
Proof.
  intros Hpre Hc. unfold Py.script.
  rewrite py_run_app, Hpre. simpl. unfold Py.bind. by rewrite Hc.
Qed.

(** C3, as stated, fails in two ways.  With 10,000 events recorded, the
    call [alloc('x', 0)] is refused by the size check, which comes before
    the limit check, and the run ends in [error] with a message that does
    not contain [Event limit reached].  And
    [try { alloc('x', 1); } catch (e) { }] at the same point takes the
    limit error itself: the run goes to its natural end and hands over
    its 10,000 events as a result. *)
Lemma C3_argument_check_precedes_limit_check :
  let filled := replicate (N.to_nat 10000) (Js.SFree (VStr "ghost")) in
  let call := Js.SAlloc (VStr "x") (VNum 0) in
  let caught := Js.STry [Js.SAlloc (VStr "x") (VNum 1)] [] in
  (∃ s, Js.run filled Js.init = Js.Normal tt s ∧
     N.of_nat (length (Js.__events s)) = 10000%N ∧
     Js.exec call s = Js.Throw "alloc: size must be a positive number" s) ∧
  Js.script (filled ++ [call])
    = Js.MsgError "alloc: size must be a positive number" "" "" ∧
  Text.includes "alloc: size must be a positive number" "Event limit reached"
    = false ∧
  (∃ events, Js.script (filled ++ [caught]) = Js.MsgResult events "" "" ∧
     N.of_nat (length events) = 10000%N).
Proof.
  intros filled call caught.
  destruct (js_ghost_frees "ghost" (N.to_nat 10000))
    as (s & Hrun & Hlen & Hallocs & Hout & Herr); [lia|].
  assert (Js.exec call s = Js.Throw "alloc: size must be a positive number" s)
    as Hcall by reflexivity.
  split_and!.
  - exists s. split_and!; [done|lia|done].
  - rewrite (js_script_throw _ _ _ _ _ _ Hrun Hcall). by rewrite Hout, Herr.
  - by vm_compute.
  - exists (Js.__events s). split; [|lia].
    assert (Js.limit_reached s = true) as Hfull
      by (apply js_limit_reached_true; lia).
    assert (Js.exec caught s = Js.Normal tt s) as Hcaught.
    { destruct (js_exec_at_limit s (Js.SAlloc (VStr "x") (VNum 1)) eq_refl Hfull)
        as (m & Hc & _).
      unfold caught. rewrite js_exec_try.
      change (Js.run [Js.SAlloc (VStr "x") (VNum 1)] s)
        with (Js.bind (Js.exec (Js.SAlloc (VStr "x") (VNum 1)))
                (λ _, Js.run []) s).
      unfold Js.bind. rewrite Hc. reflexivity. }
    unfold Js.script, filled. rewrite js_run_app, Hrun.
    change (Js.run [caught] s)
      with (Js.bind (Js.exec caught) (λ _, Js.run []) s).
    unfold Js.bind. rewrite Hcaught.
    change (Js.run [] s) with (Js.Normal tt s). cbv beta iota.
    unfold Js.mark_leaked. rewrite Hallocs, map_size_empty.
    change (0 <? 0)%nat with false. cbv iota.
    rewrite Hout, Herr. reflexivity.
Qed.

(** C3 (amended): in both emitted programs, a tracking call made while
    the event list holds 10,000 events (or more) fails and leaves the
    state as it was; when the call is a statement of the user code's own
    body (not inside a [try] of the user code), the run ends in the error
    outcome with that call's message.  The message is [Event limit
    reached (10,000). Reduce allocations.] when the call's arguments pass
    the argument checks (a string label and a positive number for [alloc],
    a string id for [free]); otherwise it is the message of the argument
    check that refused it.  Whatever the user code goes on to do, caught
    errors included, nothing is recorded any more: events, table and
    counter stay as they are. *)
Theorem C3_event_limit_ends_the_run :
  (∀ pre c rest s,
     Js.run pre Js.init = Js.Normal tt s →
     (10000 ≤ N.of_nat (length (Js.__events s)))%N →
     Js.is_tracking c = true →
     ∃ message,
       Js.exec c s = Js.Throw message s ∧
       Js.script (pre ++ c :: rest)
         = Js.MsgError message (Text.join Text.nl (Js.__stdout s))
             (Text.join Text.nl (Js.__stderr s)) ∧
       (Js.valid_args c = true →
          message = "Event limit reached (10,000). Reduce allocations." ∧
          Text.includes message "Event limit reached" = true) ∧
       (Js.valid_args c = false →
          message ∈ ["alloc: label must be a string";
                     "alloc: size must be a positive number";
                     "free: id must be a string returned by alloc()"])) ∧
  (∀ body s,
     (10000 ≤ N.of_nat (length (Js.__events s)))%N →
     let s' := Js.left_behind (Js.run body s) in
     Js.__events s' = Js.__events s ∧ Js.__allocs s' = Js.__allocs s ∧
     Js.__time s' = Js.__time s) ∧
  (∀ pre c rest s,
     Py._run_user_code pre Py.init = Py.Normal tt s →
     (10000 ≤ N.of_nat (length (Py._events s)))%N →
     Py.is_tracking c = true →
     ∃ e,
       Py.exec c s = Py.Raise e s ∧
       Py.script (pre ++ c :: rest) = Py.Raised e ∧
       (Py.valid_args c = true →
          e = Py.Exn "RuntimeError" "Event limit reached (10,000). Reduce allocations." ∧
          Text.includes (Py.exn_message e) "Event limit reached" = true) ∧
       (Py.valid_args c = false →
          e ∈ [Py.Exn "TypeError" "alloc: label must be a string";
               Py.Exn "ValueError" "alloc: size must be a positive number";
               Py.Exn "TypeError" "free: id must be a string returned by alloc()"])) ∧
  (∀ body s,
     (10000 ≤ N.of_nat (length (Py._events s)))%N →
     let s' := Py.left_behind (Py._run_user_code body s) in
     Py._events s' = Py._events s ∧ Py._allocs s' = Py._allocs s ∧
     Py._time s' = Py._time s).
Proof.
  split_and!.
  - intros pre c rest s Hrun Hfull%js_limit_reached_true Htrack.
    destruct (js_exec_at_limit s c Htrack Hfull) as (message & Hc & Hvalid & Hinvalid).
    exists message. split_and!; [done|by eapply js_script_throw| |done].
    intros ->%Hvalid. split; [done|by vm_compute].
  - intros body s Hfull%js_limit_reached_true. by apply js_full_left.
  - intros pre c rest s Hrun Hfull%py_limit_reached_true Htrack.
    destruct (py_exec_at_limit s c Htrack Hfull) as (e & Hc & Hvalid & Hinvalid).
    exists e. split_and!; [done|by eapply py_script_raise| |done].
    intros ->%Hvalid. split; [done|by vm_compute].
  - intros body s Hfull%py_limit_reached_true. by apply py_full_left.
Qed.

(** C3 at the run of 10,000 frees of an unknown id followed by
    [alloc('item', 1)], on both surfaces. *)
Lemma C3_event_limit_ends_the_run_witness :
  (∃ stdout stderr,
     Js.script (replicate (N.to_nat 10000) (Js.SFree (VStr "ghost")) ++
                [Js.SAlloc (VStr "item") (VNum 1)])
     = Js.MsgError "Event limit reached (10,000). Reduce allocations." stdout stderr) ∧
  Py.script (replicate (N.to_nat 10000) (Py.SFree (Py.PyStr "ghost")) ++
             [Py.SAlloc (Py.PyStr "item") (Py.PyInt 1)])
  = Py.Raised
      (Py.Exn "RuntimeError" "Event limit reached (10,000). Reduce allocations.").
Proof.
  split.
  - destruct (js_ghost_frees "ghost" (N.to_nat 10000))
      as (s & Hrun & Hlen & _); [lia|].
    destruct (proj1 C3_event_limit_ends_the_run _
                (Js.SAlloc (VStr "item") (VNum 1)) [] s Hrun)
      as (message & _ & Hscript & Hvalid & _); [lia|reflexivity|].
    destruct Hvalid as [-> _]; [reflexivity|].
    eauto.
  - destruct (py_ghost_frees "ghost" (N.to_nat 10000))
      as (s & Hrun & Hlen & _); [lia|].
    destruct (proj1 (proj2 (proj2 C3_event_limit_ends_the_run)) _
                (Py.SAlloc (Py.PyStr "item") (Py.PyInt 1)) [] s Hrun)
      as (e & _ & Hscript & Hvalid & _); [lia|reflexivity|].
    destruct Hvalid as [-> _]; [reflexivity|].
    exact Hscript.
Defined.

(** ** C4: free of an id that is not live *)

(** C4, as stated, fails: once 10,000 events are recorded, [free] of an
    id that is not live raises [Event limit reached] instead of appending
    a [double_free] event. *)
Lemma C4_free_at_the_ceiling_raises :
  let filled := replicate (N.to_nat 10000) (Js.SFree (VStr "ghost")) in
  ∃ s, Js.run filled Js.init = Js.Normal tt s ∧
    Js.__allocs s !! "ghost" = None ∧
    Js.free (VStr "ghost") s
      = Js.Throw "Event limit reached (10,000). Reduce allocations." s.
Proof.
  intros filled.
  destruct (js_ghost_frees "ghost" (N.to_nat 10000))
    as (s & Hrun & Hlen & Hallocs & _); [lia|].
  exists s. split_and!; [done|by rewrite Hallocs|].
  unfold Js.free.
  assert (Js.limit_reached s = true) as ->
    by (apply js_limit_reached_true; lia).
  done.
Qed.

(** C4 (amended): in both emitted programs, [free(id)] with a string id
    that is not in the allocation table, called while the event list holds
    fewer than 10,000 events, returns normally, appends one [double_free]
    event carrying that id (with the next time value), leaves the table
    and the captured output unchanged, and the statements after it run
    on.  With 10,000 events recorded the same call raises [Event limit
    reached] and changes nothing. *)
Theorem C4_free_of_absent_id_records_double_free :
  (∀ s k,
     Js.__allocs s !! k = None →
     ((N.of_nat (length (Js.__events s)) < 10000)%N →
        let s' :=
          {| Js.__events := Js.__events s ++
               [Trace.Event (Js.__time s + 1) "double_free" (Some k) None None];
             Js.__allocs := Js.__allocs s;
             Js.__stdout := Js.__stdout s;
             Js.__stderr := Js.__stderr s;
             Js.__time := (Js.__time s + 1)%N |} in
        Js.free (VStr k) s = Js.Normal tt s' ∧
        ∀ rest, Js.run (Js.SFree (VStr k) :: rest) s = Js.run rest s') ∧
     ((10000 ≤ N.of_nat (length (Js.__events s)))%N →
        Js.free (VStr k) s = Js.Throw Js.limit_message s)) ∧
  (∀ s k,
     Py._allocs s !! k = None →
     ((N.of_nat (length (Py._events s)) < 10000)%N →
        let s' :=
          {| Py._events := Py._events s ++
               [Trace.Event (Py._time s + 1) "double_free" (Some k) None None];
             Py._allocs := Py._allocs s;
             Py._time := (Py._time s + 1)%N;
             Py._stdout_capture := Py._stdout_capture s;
             Py._stderr_capture := Py._stderr_capture s |} in
        Py.free (Py.PyStr k) s = Py.Normal tt s' ∧
        ∀ rest, Py._run_user_code (Py.SFree (Py.PyStr k) :: rest) s
                = Py._run_user_code rest s') ∧
     ((10000 ≤ N.of_nat (length (Py._events s)))%N →
        Py.free (Py.PyStr k) s
          = Py.Raise (Py.Exn "RuntimeError" Py.limit_message) s)).
Proof.
  split; intros s k Hk; split.
  - intros Hroom%js_limit_reached_false s'.
    assert (Js.free (VStr k) s = Js.Normal tt s') as Hfree
      by (unfold Js.free; by rewrite Hroom, Hk).
    split; [done|]. intros rest. simpl. unfold Js.bind. by rewrite Hfree.
  - intros Hfull%js_limit_reached_true. unfold Js.free. by rewrite Hfull.
  - intros Hroom%py_limit_reached_false s'.
    assert (Py.free (Py.PyStr k) s = Py.Normal tt s') as Hfree
      by (unfold Py.free; by rewrite Hroom, Hk).
    split; [done|]. intros rest. simpl. unfold Py.bind. by rewrite Hfree.
  - intros Hfull%py_limit_reached_true. unfold Py.free. by rewrite Hfull.
Qed.

(** C4 at [free('never_allocated')] as the first call of a run, and at
    the second free of the same id. *)
Lemma C4_free_of_absent_id_records_double_free_witness :
  Js.free (VStr "never_allocated") Js.init =
    Js.Normal tt
      {| Js.__events := [Trace.Event 1 "double_free" (Some "never_allocated") None None];
         Js.__allocs := ∅; Js.__stdout := []; Js.__stderr := []; Js.__time := 1 |} ∧
  Js.script [Js.SAlloc (VStr "x") (VNum 64); Js.SFree (VStr "x_1"); Js.SFree (VStr "x_1")]
  = Js.MsgResult
      [Trace.Event 1 "alloc" (Some "x_1") (Some 64%float) (Some "x");
       Trace.Event 2 "free" (Some "x_1") None None;
       Trace.Event 3 "double_free" (Some "x_1") None None] "" "".
Proof.
  split; [|by vm_compute].
  apply (proj1 C4_free_of_absent_id_records_double_free Js.init "never_allocated").
  - reflexivity.
  - simpl. lia.
Defined.

(** ** C9: the recorded size *)

Lemma float_positive_not_le_zero (x : float) :
  PrimFloat.ltb 0 x = true → PrimFloat.leb x 0 = false.
Proof.
  rewrite ltb_spec, leb_spec.
  change (Prim2SF 0) with (S754_zero false).
  unfold SFltb, SFleb.
  destruct (Prim2SF x) as [sx|sx| |sx m e]; simpl; try done; by destruct sx.
Qed.

(** C9, as stated, fails for the Python surface: [alloc('x', 10.5)]
    records size 10.5 in JavaScript but size 10 in Python, where the
    emitted [alloc] stores [int(size)]. *)
Lemma C9_python_records_int_of_size :
  (∃ s, Js.alloc (VStr "x") (VNum 10.5) Js.init = Js.Normal (VStr "x_1") s ∧
     Trace.size <$> last (Js.__events s) = Some (Some 10.5%float)) ∧
  (∃ s, Py.alloc (Py.PyStr "x") (Py.PyFloat 10.5) Py.init
          = Py.Normal (Py.PyStr "x_1") s ∧
     Trace.size <$> last (Py._events s) = Some (Some 10%Z)) ∧
  PrimFloat.eqb (num_of_Z 10) 10.5 = false.
Proof.
  split_and!.
  - eexists. split; by vm_compute.
  - eexists. split; by vm_compute.
  - by vm_compute.
Qed.

Lemma float_at_least_one_not_le_zero (x : float) :
  PrimFloat.leb 1 x = true → PrimFloat.leb x 0 = false.
Proof.
  rewrite !leb_spec.
  change (Prim2SF 1) with (S754_finite false 4503599627370496 (-52)).
  change (Prim2SF 0) with (S754_zero false).
  unfold SFleb.
  destruct (Prim2SF x) as [sx|sx| |sx m e]; simpl; try done; by destruct sx.
Qed.

Lemma digits2_pos_lower m : (2 ^ (Z.pos (digits2_pos m) - 1) ≤ Z.pos m)%Z.
Proof.
  induction m as [p IH|p IH|]; simpl digits2_pos; [| |done].
  - rewrite Pos2Z.inj_succ.
    replace (Z.succ (Z.pos (digits2_pos p)) - 1)%Z
      with (Z.succ (Z.pos (digits2_pos p) - 1))%Z by lia.
    rewrite Z.pow_succ_r by lia. lia.
  - rewrite Pos2Z.inj_succ.
    replace (Z.succ (Z.pos (digits2_pos p)) - 1)%Z
      with (Z.succ (Z.pos (digits2_pos p) - 1))%Z by lia.
    rewrite Z.pow_succ_r by lia. lia.
Qed.

(** [int] of a finite float that is at least 1 is defined and at least 1. *)
Lemma py_trunc_at_least_one f :
  PrimFloat.leb 1 f = true → PrimFloat.ltb f infinity = true →
  ∃ n, Py.trunc f = Some n ∧ (1 ≤ n)%Z.
Proof.
  rewrite leb_spec, ltb_spec. unfold Py.trunc.
  pose proof (Prim2SF_valid f) as Hvalid.
  change (Prim2SF 1) with (S754_finite false 4503599627370496 (-52)).
  change (Prim2SF infinity) with (S754_infinity false).
  destruct (Prim2SF f) as [sg|sg| |sg m e]; try done.
  - by destruct sg.
  - destruct sg; [done|]. intros Hle _. eexists. split; [done|].
    unfold SFleb, SFcompare in Hle.
    destruct (Z.compare_spec (-52) e) as [<-|Hlt|Hgt]; [| |done].
    + assert (4503599627370496 ≤ m)%positive as Hm.
      { unfold Pos.le, Pos.compare.
        by destruct (PosDef.Pos.compare_cont Eq 4503599627370496 m). }
      rewrite Z.shiftl_div_pow2 by lia.
      apply Z.div_le_lower_bound; simpl; lia.
    + unfold SpecFloat.valid_binary, bounded, canonical_mantissa, fexp in Hvalid.
      apply andb_prop in Hvalid as [Hcan _]. apply Z.eqb_eq in Hcan.
      assert (Z.pos (digits2_pos m) = 53)%Z as Hd
        by (unfold SpecFloat.emin, emax, prec in Hcan; lia).
      pose proof (digits2_pos_lower m) as Hlow. rewrite Hd in Hlow.
      destruct (Z.le_gt_cases 0 e) as [Hpos|Hneg].
      * rewrite Z.shiftl_mul_pow2 by lia.
        assert (0 < 2 ^ e)%Z by (apply Z.pow_pos_nonneg; lia). nia.
      * rewrite Z.shiftl_div_pow2 by lia.
        apply Z.div_le_lower_bound; [apply Z.pow_pos_nonneg; lia|].
        assert (2 ^ (- e) ≤ 2 ^ (53 - 1))%Z; [|lia].
        apply Z.pow_le_mono_r; lia.
Qed.

(** C9 (amended): for every [alloc(label, size)] with a string label,
    called while fewer than 10,000 events are recorded: the JavaScript
    [alloc], for every float [size] greater than zero, succeeds and
    records [size] unchanged; the Python [alloc], for every finite float
    [size] of at least 1, succeeds and records [int(size)], the float cut
    off toward zero, which is at least 1; a fractional size loses its
    fraction: 10.5 is recorded as 10. *)
Theorem C9_recorded_size :
  (∀ label size s,
     PrimFloat.ltb 0 size = true →
     (N.of_nat (length (Js.__events s)) < 10000)%N →
     ∃ s', Js.alloc (VStr label) (VNum size) s
             = Js.Normal (VStr (Trace.make_id label (Js.__time s + 1))) s' ∧
       Js.__events s' = Js.__events s ++
         [Trace.Event (Js.__time s + 1) "alloc"
            (Some (Trace.make_id label (Js.__time s + 1))) (Some size) (Some label)]) ∧
  (∀ label size s,
     PrimFloat.leb 1 size = true →
     PrimFloat.ltb size infinity = true →
     (N.of_nat (length (Py._events s)) < 10000)%N →
     ∃ n s', Py.trunc size = Some n ∧ (1 ≤ n)%Z ∧
       Py.alloc (Py.PyStr label) (Py.PyFloat size) s
         = Py.Normal (Py.PyStr (Trace.make_id label (Py._time s + 1))) s' ∧
       Py._events s' = Py._events s ++
         [Trace.Event (Py._time s + 1) "alloc"
            (Some (Trace.make_id label (Py._time s + 1))) (Some n) (Some label)]) ∧
  Py.trunc 10.5 = Some 10%Z.
Proof.
  split_and!; [| |by vm_compute].
  - intros label size s Hpos%float_positive_not_le_zero Hroom%js_limit_reached_false.
    unfold Js.alloc. rewrite Hpos, Hroom. by eexists.
  - intros label size s Hone Hfinite Hroom%py_limit_reached_false.
    destruct (py_trunc_at_least_one size Hone Hfinite) as (n & Htrunc & Hn).
    apply float_at_least_one_not_le_zero in Hone.
    exists n. unfold Py.alloc. simpl. rewrite Hone, Hroom, Htrunc.
    eexists. by split_and!.
Qed.

(** C9 at [alloc('x', 10.5)] as the first call of a run, on both
    surfaces. *)
Lemma C9_recorded_size_witness :
  (∃ s', Js.alloc (VStr "x") (VNum 10.5) Js.init = Js.Normal (VStr "x_1") s' ∧
     Js.__events s' =
       [Trace.Event 1 "alloc" (Some "x_1") (Some 10.5%float) (Some "x")]) ∧
  (∃ n s', Py.trunc 10.5 = Some n ∧ (1 ≤ n)%Z ∧
     Py.alloc (Py.PyStr "x") (Py.PyFloat 10.5) Py.init
       = Py.Normal (Py.PyStr "x_1") s' ∧
     Py._events s' = [Trace.Event 1 "alloc" (Some "x_1") (Some n) (Some "x")]).
Proof.
  destruct C9_recorded_size as (Hjs & Hpy & _).
  split.
  - apply (Hjs "x" 10.5%float Js.init); [reflexivity|simpl; lia].
  - apply (Hpy "x" 10.5%float Py.init); [reflexivity|reflexivity|simpl; lia].
Defined.

(** ** The Result Validator *)

Section spreads.
Implicit Types (o : gmap string value) (k : string) (v : value).

Lemma spread_string_lookup_ne k k' v o :
  k ≠ k' → Validator.spread_string k v o !! k' = o !! k'.
Proof. intros Hne. destruct v; simpl; try done. by rewrite lookup_insert_ne. Qed.

Lemma spread_number_lookup_ne k k' v o :
  k ≠ k' → Validator.spread_number k v o !! k' = o !! k'.
Proof. intros Hne. destruct v; simpl; try done. by rewrite lookup_insert_ne. Qed.

Lemma spread_string_lookup k v o :
  o !! k = None → Validator.spread_string k v o !! k = Validator.if_string v.
Proof. intros Hk. destruct v; simpl; try done. by rewrite lookup_insert_eq. Qed.

Lemma spread_number_lookup k v o :
  o !! k = None → Validator.spread_number k v o !! k = Validator.if_number v.
Proof. intros Hk. destruct v; simpl; try done. by rewrite lookup_insert_eq. Qed.

Lemma spread_string_dom k v o :
  dom (Validator.spread_string k v o) ⊆ {[k]} ∪ dom o.
Proof. destruct v; simpl; set_solver. Qed.

Lemma spread_number_dom k v o :
  dom (Validator.spread_number k v o) ⊆ {[k]} ∪ dom o.
Proof. destruct v; simpl; set_solver. Qed.

End spreads.

Lemma memory_event_cleaned e t a :
  get e "time" = VNum t → get e "action" = VStr a →
  Validator.cleaned e (Validator.memory_event e t a).
Proof.
  intros Ht Ha. unfold Validator.cleaned, Validator.memory_event.
  rewrite Ht, Ha. split_and!.
  - by rewrite spread_string_lookup_ne, spread_number_lookup_ne,
      spread_string_lookup_ne by done.
  - by rewrite spread_string_lookup_ne, spread_number_lookup_ne,
      spread_string_lookup_ne by done.
  - rewrite spread_string_lookup_ne, spread_number_lookup_ne by done.
    by apply spread_string_lookup.
  - rewrite spread_string_lookup_ne by done. apply spread_number_lookup.
    by rewrite spread_string_lookup_ne by done.
  - apply spread_string_lookup.
    by rewrite spread_number_lookup_ne, spread_string_lookup_ne by done.
  - etrans; [apply spread_string_dom|].
    apply union_least; [set_solver|].
    etrans; [apply spread_number_dom|].
    apply union_least; [set_solver|].
    etrans; [apply spread_string_dom|].
    apply union_least; [set_solver|].
    rewrite !dom_insert_L, dom_empty_L. intros k.
    rewrite !elem_of_union, !elem_of_singleton, elem_of_empty. tauto.
Qed.

Lemma keeps_well_formed v :
  Validator.keeps v = true ↔ Validator.well_formed v.
Proof.
  unfold Validator.well_formed. split.
  - destruct v as [| | | | | |o]; simpl; try done.
    destruct (o !! "time") as [[]|] eqn:Ht; try done.
    destruct (o !! "action") as [[]|] eqn:Ha; try done.
    intros _. by do 3 eexists.
  - intros (o & t & a & -> & Ht & Ha). simpl. by rewrite Ht, Ha.
Qed.

Lemma loop_accumulates raw acc :
  Validator.loop raw acc = acc ++ Validator.loop raw [].
Proof.
  revert acc. induction raw as [|ev raw IH]; intros acc; simpl.
  - by rewrite app_nil_r.
  - repeat case_match; try apply IH.
    rewrite (IH (acc ++ [_])), (IH [_]). by rewrite app_assoc.
Qed.

(** One turn of the loop: an entry the specification keeps is pushed
    cleaned, any other entry is skipped. *)
Lemma loop_cons ev raw :
  (Validator.keeps ev = true ∧
     ∃ out, Validator.cleaned ev out ∧
       Validator.loop (ev :: raw) [] = out :: Validator.loop raw []) ∨
  (Validator.keeps ev = false ∧
     Validator.loop (ev :: raw) [] = Validator.loop raw []).
Proof.
  destruct (Validator.keeps ev) eqn:Hkeep.
  - left. split; [done|].
    apply keeps_well_formed in Hkeep as (o & t & a & -> & Ht & Ha).
    exists (Validator.memory_event (VObj o) t a). split.
    + apply memory_event_cleaned; simpl; by rewrite ?Ht, ?Ha.
    + simpl. rewrite Ht, Ha. simpl. by rewrite loop_accumulates.
  - right. split; [done|].
    destruct ev as [| |[]| | | |o]; simpl in *; try done.
    + by destruct (negb _).
    + by destruct (negb _).
    + destruct (o !! "time") as [[]|]; simpl; try done.
      destruct (o !! "action") as [[]|]; simpl; try done.
Qed.

Lemma loop_cleaned items :
  Forall2 Validator.cleaned (List.filter Validator.keeps items)
    (Validator.loop items []).
Proof.
  induction items as [|ev items IH]; [by constructor|].
  destruct (loop_cons ev items) as [[Hkeep (out & Hout & ->)]|[Hkeep ->]];
    simpl; rewrite Hkeep; [by constructor|done].
Qed.

(** C5: [validateEvents] returns the empty list on anything that is not
    an array, without failing; on an array it returns, in input order, one
    output entry for each input entry that is a non-null object with a
    numeric [time] and a string [action], and nothing for any other entry;
    each output entry has the [time] and [action] of its input entry, its
    [id], [size] and [label] exactly when they have the right type (a
    wrongly typed one is left out, the entry stays), and no other field. *)
Theorem C5_validateEvents_contract :
  (∀ raw, isArray raw = false → Validator.validateEvents raw = []) ∧
  (∀ v, Validator.keeps v = true ↔ Validator.well_formed v) ∧
  (∀ items,
     Forall2 Validator.cleaned (List.filter Validator.keeps items)
       (Validator.validateEvents (VArr items))).
Proof.
  split_and!.
  - by intros [].
  - apply keeps_well_formed.
  - apply loop_cleaned.
Qed.

(** C5 at a non-array input. *)
Lemma C5_validateEvents_contract_witness :
  Validator.validateEvents (VStr "string") = [].
Proof. by apply (proj1 C5_validateEvents_contract). Defined.

Lemma Forall2_elem_of_left {A B} (R : A → B → Prop) l k x :
  Forall2 R l k → x ∈ l → ∃ y, y ∈ k ∧ R x y.
Proof.
  induction 1 as [|a b l k Hab _ IH]; [by intros ?%elem_of_nil|].
  intros [->|Hx]%elem_of_cons.
  - exists b. split; [by left|done].
  - destruct (IH Hx) as (y & Hy & HR). exists y. split; [by right|done].
Qed.

Lemma loop_keeps_any_action items o t a :
  VObj o ∈ items →
  o !! "time" = Some (VNum t) → o !! "action" = Some (VStr a) →
  ∃ out, out ∈ Validator.loop items [] ∧
    out !! "time" = Some (VNum t) ∧ out !! "action" = Some (VStr a).
Proof.
  intros Hin Ht Ha.
  assert (VObj o ∈ List.filter Validator.keeps items) as Hkept.
  { apply list_elem_of_In, filter_In. split; [by apply list_elem_of_In|].
    simpl. by rewrite Ht, Ha. }
  destruct (Forall2_elem_of_left _ _ _ _ (loop_cleaned items) Hkept)
    as (out & Hout & Htime & Haction & _).
  exists out. simpl in *. by rewrite Ht in Htime; rewrite Ha in Haction.
Qed.

(** C10: the validators do not look at what the [action] string says.
    Whatever string it is, an entry with a numeric [time] and that string
    as [action] is kept, by [validateEvents] and by [validateResult] of
    the JavaScript runtime alike, and the output entry carries the same
    time and the same action string. *)
Theorem C10_any_action_string_is_kept :
  (∀ items o t a,
     VObj o ∈ items →
     o !! "time" = Some (VNum t) → o !! "action" = Some (VStr a) →
     ∃ out, out ∈ Validator.validateEvents (VArr items) ∧
       out !! "time" = Some (VNum t) ∧ out !! "action" = Some (VStr a)) ∧
  (∀ msg items o t a,
     msg !! "events" = Some (VArr items) →
     VObj o ∈ items →
     o !! "time" = Some (VNum t) → o !! "action" = Some (VStr a) →
     ∃ r out, Host.jsRuntime.validateResult (VObj msg) = inr r ∧
       out ∈ Validator.events r ∧
       out !! "time" = Some (VNum t) ∧ out !! "action" = Some (VStr a)).
Proof.
  split.
  - intros items o t a. apply loop_keeps_any_action.
  - intros msg items o t a Hevents Hin Ht Ha.
    destruct (loop_keeps_any_action items o t a Hin Ht Ha) as (out & Hout & ?).
    unfold Host.jsRuntime.validateResult, Validator.validateResult. simpl.
    rewrite Hevents. simpl. by do 2 eexists.
Qed.

(** C10 at an entry whose action is the string [bogus]. *)
Lemma C10_any_action_string_is_kept_witness :
  ∃ out,
    out ∈ Validator.validateEvents
            (VArr [VNull; VObj (<["action" := VStr "bogus"]> (<["time" := VNum 1]> ∅))]) ∧
    out !! "time" = Some (VNum 1) ∧ out !! "action" = Some (VStr "bogus").
Proof.
  apply (proj1 C10_any_action_string_is_kept _
           (<["action" := VStr "bogus"]> (<["time" := VNum 1]> ∅)) 1%float "bogus").
  - apply list_elem_of_In. simpl. tauto.
  - reflexivity.
  - reflexivity.
Defined.

(** ** C6: what an error outcome carries *)

Lemma worker_error_carries_no_output env e error out err :
  Host.WorkerErrorMessage error out err ∈ Host.onmessage env e →
  out = "" ∧ err = "".
Proof.
  unfold Host.onmessage, Host.result_message.
  destruct (negb _); [by intros ?%elem_of_nil|].
  destruct (Host.run e) as [code|code|language];
    [|destruct (Host.pythonRuntime.runPython env code)|];
    intros Hin;
    repeat (apply elem_of_cons in Hin as [Hin|Hin]; [by simplify_eq|]);
    by apply elem_of_nil in Hin.
Qed.

(** A Python script that an exception leaves: the worker posts the
    status and then the error with empty output fields. *)
Lemma worker_python_error env body e :
  Host.importScriptsFn env = true → Py.script body = Py.Raised e →
  Host.onmessage env
    {| Host.type := "run"; Host.run := Host.RunPython (Host.Script body) |}
  = [Host.WorkerStatusMessage Host.LoadingPyodide;
     Host.WorkerErrorMessage (Host.python_error_message env e) "" ""].
Proof.
  intros Himport Hscript. unfold Host.onmessage, Host.pythonRuntime.runPython.
  simpl. by rewrite Himport, Hscript.
Qed.

(** C6 at the failing input [print('hi')], [alloc('x', 0)] of the
    Python surface: when [alloc] raises, the line [hi] is in the capture
    buffer of the script; the exception leaves the script, and the
    worker's [catch] posts the error with empty stdout and stderr, as it
    does for every Python script that an exception leaves; the
    controller then shows the error with empty output. *)
Theorem C6_error_reaches_caller_without_output :
  let py_body := [Py.SPrint ["hi"]; Py.SAlloc (Py.PyStr "x") (Py.PyInt 0)] in
  let failure := Py.Exn "ValueError" "alloc: size must be a positive number" in
  (∃ s, Py._run_user_code py_body Py.init = Py.Raise failure s ∧
     Py._stdout_capture s = "hi" +:+ Text.nl) ∧
  (∀ env,
     Host.importScriptsFn env = true →
     Host.onmessage env
       {| Host.type := "run"; Host.run := Host.RunPython (Host.Script py_body) |}
     = [Host.WorkerStatusMessage Host.LoadingPyodide;
        Host.WorkerErrorMessage (Host.python_error_message env failure) "" ""]) ∧
  (∀ env body e,
     Host.importScriptsFn env = true →
     Py.script body = Py.Raised e →
     Host.onmessage env
       {| Host.type := "run"; Host.run := Host.RunPython (Host.Script body) |}
     = [Host.WorkerStatusMessage Host.LoadingPyodide;
        Host.WorkerErrorMessage (Host.python_error_message env e) "" ""]) ∧
  (∀ c w message,
     let c' := useSandbox.onmessage w (Host.WorkerErrorMessage message "" "") c in
     useSandbox.status (useSandbox.state c') = Host.Error ∧
     useSandbox.error (useSandbox.state c') = Some message ∧
     useSandbox.stdout (useSandbox.state c') = VStr "" ∧
     useSandbox.stderr (useSandbox.state c') = VStr "").
Proof.
  split_and!.
  - eexists. split; by vm_compute.
  - intros env Himport. by apply worker_python_error.
  - apply worker_python_error.
  - done.
Qed.

(** C6's evaluation in a worker where [importScripts] is present and
    the error text ends, as Pyodide's does, with the line naming the
    exception. *)
Lemma C6_error_reaches_caller_without_output_witness :
  Host.onmessage
    {| Host.importScriptsFn := true;
       Host.python_error_message := λ e,
         "Traceback (most recent call last):" +:+ Text.nl +:+
         Py.exn_type e +:+ ": " +:+ Py.exn_message e +:+ Text.nl |}
    {| Host.type := "run";
       Host.run := Host.RunPython
         (Host.Script [Py.SPrint ["hi"]; Py.SAlloc (Py.PyStr "x") (Py.PyInt 0)]) |}
  = [Host.WorkerStatusMessage Host.LoadingPyodide;
     Host.WorkerErrorMessage
       ("Traceback (most recent call last):" +:+ Text.nl +:+
        "ValueError: alloc: size must be a positive number" +:+ Text.nl) "" ""].
Proof.
  destruct C6_error_reaches_caller_without_output as (_ & Hpy & _ & _).
  apply (Hpy {| Host.importScriptsFn := true;
                Host.python_error_message := λ e,
                  "Traceback (most recent call last):" +:+ Text.nl +:+
                  Py.exn_type e +:+ ": " +:+ Py.exn_message e +:+ Text.nl |}).
  reflexivity.
Defined.

(** ** C8: the controller *)

Import useSandbox.

Lemma mount_invariant : invariant mount.
Proof. by split. Qed.

(** [cleanup] leaves no timer pending and no host alive, and does not
    touch the state. *)
Lemma cleanup_disposes c :
  invariant c → disposed (cleanup c) ∧ state (cleanup c) = state c.
Proof.
  intros [Hlive Harmed _ _]. unfold cleanup, clear_timeout, terminate, disposed.
  destruct (timeoutRef c) as [t|] eqn:Ht, (workerRef c) as [w|] eqn:Hw; simpl;
    rewrite ?Ht, ?Hw; simpl in *; rewrite ?Hlive, ?Harmed;
    split_and!; try done; set_solver.
Qed.

Lemma disposed_invariant c st :
  disposed c →
  (status st = Host.Idle ∨ status st = Host.Running ∨ status st = Host.LoadingPyodide → cleared st) →
  invariant (setState (λ _, st) c).
Proof.
  intros (Ht & Harmed & Hw & Hlive) Hst. split; simpl; try done.
  - by rewrite Hw.
  - by rewrite Ht.
  - rewrite Hw. by intros [? [=]].
Qed.

Lemma run_invariant language code c : invariant c → invariant (run language code c).
Proof.
  intros Hinv. destruct (cleanup_disposes c Hinv) as [Hdis Hstate].
  unfold run. destruct (Text.is_blank code).
  - apply disposed_invariant; [done|]. simpl. by intros [|[|]].
  - destruct Hdis as (Ht & Harmed & Hw & Hlive).
    split; simpl; rewrite ?Hlive, ?Harmed; try done; set_solver.
Qed.

Lemma stop_invariant c : invariant c → invariant (stop c).
Proof.
  intros Hinv. destruct (cleanup_disposes c Hinv) as [Hdis Hstate].
  destruct Hdis as (Ht & Harmed & Hw & Hlive).
  destruct Hinv as [_ _ _ Hwait].
  unfold stop. split; simpl; rewrite ?Hw, ?Ht, ?Hstate; try done.
  unfold cleared in *. simpl.
  destruct (status (state c)); intros [|[|]]; try done; apply Hwait; auto.
Qed.

Lemma onmessage_invariant w msg c :
  invariant c → w ∈ live c → invariant (useSandbox.onmessage w msg c).
Proof.
  intros [Hlive Harmed Hworker Hwait] Hw.
  assert (workerRef c = Some w) as Href.
  { rewrite Hlive in Hw. destruct (workerRef c); simpl in Hw; set_solver. }
  destruct msg as [raw out err|message out err|s]; simpl.
  - unfold clear_timeout. destruct (timeoutRef c) eqn:Ht;
      split; simpl; rewrite ?Hlive, ?Href, ?Harmed, ?Ht; simpl;
      try done; try set_solver; try (by intros [? [=]]); by intros [|[|]].
  - unfold clear_timeout. destruct (timeoutRef c) eqn:Ht;
      split; simpl; rewrite ?Hlive, ?Href, ?Harmed, ?Ht; simpl;
      try done; try set_solver; try (by intros [? [=]]); by intros [|[|]].
  - split; simpl; try done.
    intros _. apply Hworker. by rewrite Href.
Qed.

Lemma onerror_invariant message c : invariant c → invariant (onerror message c).
Proof.
  intros Hinv. destruct (cleanup_disposes c Hinv) as [Hdis _].
  apply disposed_invariant; [done|]. simpl. by intros [|[|]].
Qed.

Lemma on_timeout_invariant t c :
  invariant c → t ∈ armed c → invariant (on_timeout t c).
Proof.
  intros [Hlive Harmed Hworker Hwait] Ht.
  assert (timeoutRef c = Some t) as Href.
  { rewrite Harmed in Ht. destruct (timeoutRef c); simpl in Ht; set_solver. }
  unfold on_timeout, cleanup, clear_timeout. simpl. rewrite Href. simpl.
  destruct (workerRef c) as [w|] eqn:Hw; simpl;
    split; simpl; rewrite ?Hlive, ?Harmed, ?Href, ?Hw; simpl;
    try done; try set_solver; try (by intros [? [=]]); by intros [|[|]].
Qed.

Lemma step_invariant c i : invariant c → invariant (step c i).
Proof.
  intros Hinv. destruct i; simpl.
  - by apply run_invariant.
  - by apply stop_invariant.
  - case_decide; [by apply onmessage_invariant|done].
  - case_decide; [by apply onerror_invariant|done].
  - case_decide; [by apply on_timeout_invariant|done].
Qed.

Lemma reachable_invariant c : reachable c → invariant c.
Proof.
  induction 1 as [|c i _ IH]; [apply mount_invariant|by apply step_invariant].
Qed.

(** C8: in every state the controller can reach, [stop()] called while
    the status is [running] or [loading-pyodide] (the awaiting-runtime
    state) leaves no timer pending, no host alive and the status [idle];
    and whenever the status is [idle], the events list, stdout and stderr
    are empty. *)
Theorem C8_stop_goes_idle_and_idle_is_cleared :
  ∀ c, reachable c →
    (status (state c) = Host.Running ∨ status (state c) = Host.LoadingPyodide →
       status (state (stop c)) = Host.Idle ∧ disposed (stop c)) ∧
    (status (state c) = Host.Idle → cleared (state c)).
Proof.
  intros c Hinv%reachable_invariant. split.
  - intros Hstatus. destruct (cleanup_disposes c Hinv) as [Hdis Hstate].
    split; [|done]. unfold stop. simpl. rewrite Hstate.
    by destruct Hstatus as [-> | ->].
  - intros Hidle. destruct Hinv as [_ _ _ Hwait]. apply Hwait. by left.
Qed.

(** C8 at the controller that has just started a JavaScript run. *)
Lemma C8_stop_goes_idle_and_idle_is_cleared_witness :
  let c := step mount (Run JavaScript "alloc('x', 1);") in
  status (state c) = Host.Running ∧
  status (state (stop c)) = Host.Idle ∧ disposed (stop c) ∧
  cleared (state (stop c)).
Proof.
  intros c.
  assert (reachable c) as Hc by (apply reachable_step, reachable_mount).
  assert (reachable (stop c)) as Hstop by (apply (reachable_step c Stop Hc)).
  destruct (C8_stop_goes_idle_and_idle_is_cleared c Hc) as [Hrun _].
  destruct Hrun as [Hidle Hdis]; [by left|].
  destruct (C8_stop_goes_idle_and_idle_is_cleared (stop c) Hstop) as [_ Hclear].
  split_and!; [reflexivity|exact Hidle|exact Hdis|exact (Hclear Hidle)].
Defined.

(** ** The scenarios of the repository's tests, replayed on the model *)

Example scenario_single_alloc_leaks :
  Js.script [Js.SAlloc (VStr "buf") (VNum 1024)]
  = Js.MsgResult
      [Trace.Event 1 "alloc" (Some "buf_1") (Some 1024%float) (Some "buf");
       Trace.Event 2 "end" None None None] "" "".
Proof. by vm_compute. Qed.

Example scenario_alloc_then_free :
  Js.script [Js.SAlloc (VStr "x") (VNum 64); Js.SFree (VStr "x_1")]
  = Js.MsgResult
      [Trace.Event 1 "alloc" (Some "x_1") (Some 64%float) (Some "x");
       Trace.Event 2 "free" (Some "x_1") None None] "" "".
Proof. by vm_compute. Qed.

Example scenario_size_zero_is_refused :
  Js.script [Js.SAlloc (VStr "x") (VNum 0)]
  = Js.MsgError "alloc: size must be a positive number" "" "".
Proof. by vm_compute. Qed.

Example scenario_label_must_be_a_string :
  Js.script [Js.SAlloc (VNum 123) (VNum 64)]
  = Js.MsgError "alloc: label must be a string" "" "".
Proof. by vm_compute. Qed.

Example scenario_empty_code :
  Js.script [] = Js.MsgResult [] "" "" ∧ Py.script [] = Py.Returned [] "" "".
Proof. by vm_compute. Qed.

Example scenario_console_capture :
  Js.script [Js.SConsoleLog ["out"]; Js.SConsoleError ["err"]; Js.SPrint ["hello"; "world"]]
  = Js.MsgResult [] ("out" +:+ Text.nl +:+ "hello world") "err".
Proof. by vm_compute. Qed.

Example scenario_python_alloc_free :
  Py.script [Py.SAlloc (Py.PyStr "buf") (Py.PyInt 256); Py.SFree (Py.PyStr "buf_1");
             Py.SFree (Py.PyStr "buf_1")]
  = Py.Returned
      [Trace.Event 1 "alloc" (Some "buf_1") (Some 256%Z) (Some "buf");
       Trace.Event 2 "free" (Some "buf_1") None None;
       Trace.Event 3 "double_free" (Some "buf_1") None None] "" "".
Proof. by vm_compute. Qed.

Example scenario_validator_drops_bad_entries :
  length
    (Validator.validateEvents
       (VArr [VObj (<["label" := VStr "x"]> (<["size" := VNum 1]> (<["id" := VStr "x_1"]>
                     (<["action" := VStr "alloc"]> (<["time" := VNum 1]> ∅)))));
              VObj (<["bad" := VStr "event"]> ∅);
              VNull;
              VObj (<["id" := VStr "x_1"]> (<["action" := VStr "free"]>
                     (<["time" := VNum 2]> ∅)))]))
  = 2.
Proof. by vm_compute. Qed.

Example scenario_validator_strips_wrong_types :
  Validator.validateEvents
    (VArr [VObj (<["extraField" := VStr "hacker"]> (<["size" := VStr "256"]>
                  (<["id" := VNum 123]> (<["action" := VStr "alloc"]>
                  (<["time" := VNum 1]> ∅)))))])
  = [<["action" := VStr "alloc"]> (<["time" := VNum 1]> ∅)].
Proof. by vm_compute. Qed.

Example scenario_blank_code_is_refused :
  status (state (step mount (Run JavaScript "   "))) = Host.Error ∧
  error (state (step mount (Run JavaScript "   "))) = Some "No code to run.".
Proof. by vm_compute. Qed.

Example scenario_timeout :
  let c := step (step mount (Run JavaScript "while(true){}")) (TimerFires 2) in
  status (state c) = Host.Timeout ∧ disposed c ∧
  error (state c) = Some "Execution timed out after 10 seconds. Check for infinite loops.".
Proof. by vm_compute. Qed.

Example scenario_status_then_result :
  let c0 := step mount (Run Python "alloc('x', 1)") in
  let c1 := step c0 (Message 1 (Host.WorkerStatusMessage Host.LoadingPyodide)) in
  let c2 := step c1 (Message 1 (Host.WorkerResultMessage (VArr []) (VStr "hi")
                                  (VStr ""))) in
  status (state c1) = Host.LoadingPyodide ∧
  status (state c2) = Host.Success ∧ stdout (state c2) = VStr "hi" ∧
  error (state c2) = Some no_events_hint ∧ disposed c2.
Proof. by vm_compute. Qed.

(** The worker does not wait for [runJs]: whatever the JavaScript code,
    it posts a [result] message whose three fields are [undefined], and
    the controller shows a run that succeeded without events. *)
Example scenario_javascript_through_the_worker env code :
  Host.onmessage env {| Host.type := "run"; Host.run := Host.RunJavaScript code |}
  = [Host.WorkerResultMessage VUndefined VUndefined VUndefined] ∧
  let c := step (step mount (Run JavaScript "alloc('x', 0);"))
             (Message 1 (Host.WorkerResultMessage VUndefined VUndefined VUndefined)) in
  status (state c) = Host.Success ∧ events (state c) = [] ∧
  stdout (state c) = VUndefined ∧ stderr (state c) = VUndefined ∧
  error (state c) = Some no_events_hint ∧ disposed c.
Proof. split; [done|by vm_compute]. Qed.

(** White space beyond ASCII is white space to [trim]: a no-break space
    (U+00A0) and a line separator (U+2028) alone are no code to run. *)
Example scenario_unicode_blank_code :
  Text.is_blank
    (String "194" (String "160" (String "226" (String "128" (String "168" ""))))) = true ∧
  Text.is_blank "alloc('x', 1)" = false.
Proof. by vm_compute. Qed.

(** A caught error in the middle of a run: the statements after the
    [try] run on. *)
Example scenario_caught_error :
  Js.script [Js.STry [Js.SAlloc (VStr "x") (VNum 0); Js.SPrint ["skipped"]]
                     [Js.SPrint ["caught"]];
             Js.SAlloc (VStr "y") (VNum 8); Js.SFree (VStr "y_1")]
  = Js.MsgResult
      [Trace.Event 1 "alloc" (Some "y_1") (Some 8%float) (Some "y");
       Trace.Event 2 "free" (Some "y_1") None None] "caught" "".
Proof. by vm_compute. Qed.

(** ** Corner cases of the tracking calls, by evaluation *)

(** [NaN] is a number and is not [<= 0]: the JavaScript [alloc] takes it. *)
Example js_alloc_takes_nan :
  ∃ s, Js.alloc (VStr "x") (VNum nan) Js.init = Js.Normal (VStr "x_1") s.
Proof. eexists. by vm_compute. Qed.

(** In Python the counter is advanced before [int(size)] is evaluated: an
    infinite size passes the checks, and the call raises with the counter
    at 1 and no event recorded. *)
Example py_alloc_infinite_size :
  Py.alloc (Py.PyStr "a") (Py.PyFloat infinity) Py.init
  = Py.Raise (Py.Exn "OverflowError" "cannot convert float infinity to integer")
      {| Py._events := []; Py._allocs := ∅; Py._time := 1;
         Py._stdout_capture := ""; Py._stderr_capture := "" |}.
Proof. by vm_compute. Qed.

(** [bool] is an [int] in Python: [alloc('x', True)] records size 1. *)
Example py_alloc_takes_true :
  Py.script [Py.SAlloc (Py.PyStr "x") (Py.PyBool true)]
  = Py.Returned
      [Trace.Event 1 "alloc" (Some "x_1") (Some 1%Z) (Some "x");
       Trace.Event 2 "end" None None None] "" "".
Proof. by vm_compute. Qed.

(** The [end] event is not subject to the event ceiling: a run of 10,000
    events with a live allocation hands over 10,001. *)
Example end_event_after_the_ceiling s :
  (10000 ≤ N.of_nat (length (Js.__events s)))%N → Js.__allocs s ≠ ∅ →
  Js.__events (Js.mark_leaked s)
  = Js.__events s ++ [Trace.end_event (Js.__time s + 1)].
Proof.
  intros _ Hlive. rewrite js_mark_leaked_events.
  case_decide as Hdom; [|done]. by apply dom_empty_iff_L in Hdom.
Qed.

(** * Further properties of the emitted programs *)

(** ** What one call does *)

(** What a JavaScript statement other than [try] did when it returned. *)
Lemma js_exec_cases c s s' :
  Js.atomic c = true → Js.exec c s = Js.Normal tt s' →
  (∃ l n, c = Js.SAlloc (VStr l) (VNum n) ∧
     PrimFloat.leb n 0 = false ∧ Js.limit_reached s = false ∧
     s' = {| Js.__events := Js.__events s ++
               [Trace.Event (Js.__time s + 1) "alloc"
                  (Some (Trace.make_id l (Js.__time s + 1))) (Some n) (Some l)];
             Js.__allocs := <[Trace.make_id l (Js.__time s + 1) := Js.AllocInfo l n]>
                              (Js.__allocs s);
             Js.__stdout := Js.__stdout s;
             Js.__stderr := Js.__stderr s;
             Js.__time := (Js.__time s + 1)%N |}) ∨
  (∃ k, c = Js.SFree (VStr k) ∧ Js.limit_reached s = false ∧
     s' = {| Js.__events := Js.__events s ++
               [Trace.Event (Js.__time s + 1)
                  (if Js.__allocs s !! k is Some _ then "free" else "double_free")
                  (Some k) None None];
             Js.__allocs := (if Js.__allocs s !! k is Some _ then delete k (Js.__allocs s)
                             else Js.__allocs s);
             Js.__stdout := Js.__stdout s;
             Js.__stderr := Js.__stderr s;
             Js.__time := (Js.__time s + 1)%N |}) ∨
  (Js.is_tracking c = false ∧
   Js.__events s' = Js.__events s ∧ Js.__allocs s' = Js.__allocs s ∧
   Js.__time s' = Js.__time s).
Proof.
  intros Hatomic.
  destruct c; simpl; unfold Js.bind, Js.ret, Js.to_stdout, Js.to_stderr, Js.throw;
    intros H; simplify_eq; try (by right; right).
  - left. destruct (Js.alloc label size s) eqn:Ha; simplify_eq.
    apply js_alloc_normal in Ha as (l & n & -> & -> & ? & ? & _ & ->). eauto 10.
  - right; left. apply js_free_normal in H as (k & -> & ? & ->). eauto.
Qed.

(** What a Python statement other than [try] did when it returned. *)
Lemma py_exec_cases c s s' :
  Py.atomic c = true → Py.exec c s = Py.Normal tt s' →
  (∃ l x n, c = Py.SAlloc (Py.PyStr l) x ∧
     (∃ y, Py.as_number x = Some y ∧ Py.le_zero y = false ∧ Py.int y = inr n) ∧
     Py.limit_reached s = false ∧
     s' = {| Py._events := Py._events s ++
               [Trace.Event (Py._time s + 1) "alloc"
                  (Some (Trace.make_id l (Py._time s + 1))) (Some n) (Some l)];
             Py._allocs := <[Trace.make_id l (Py._time s + 1) := Py.AllocInfo l n]>
                             (Py._allocs s);
             Py._time := (Py._time s + 1)%N;
             Py._stdout_capture := Py._stdout_capture s;
             Py._stderr_capture := Py._stderr_capture s |}) ∨
  (∃ k, c = Py.SFree (Py.PyStr k) ∧ Py.limit_reached s = false ∧
     s' = {| Py._events := Py._events s ++
               [Trace.Event (Py._time s + 1)
                  (if Py._allocs s !! k is Some _ then "free" else "double_free")
                  (Some k) None None];
             Py._allocs := (if Py._allocs s !! k is Some _ then delete k (Py._allocs s)
                            else Py._allocs s);
             Py._time := (Py._time s + 1)%N;
             Py._stdout_capture := Py._stdout_capture s;
             Py._stderr_capture := Py._stderr_capture s |}) ∨
  (Py.is_tracking c = false ∧
   Py._events s' = Py._events s ∧ Py._allocs s' = Py._allocs s ∧
   Py._time s' = Py._time s).
Proof.
  intros Hatomic.
  destruct c; simpl; unfold Py.bind, Py.ret, Py.print, Py.print_err, Py.raise;
    intros H; simplify_eq; try (by right; right).
  - left. destruct (Py.alloc label size s) eqn:Ha; simplify_eq.
    apply py_alloc_normal in Ha as (l & x & n & -> & ? & ? & ? & ? & _ & ->).
    eauto 12.
  - right; left. apply py_free_normal in H as (k & -> & ? & ->). eauto.
Qed.

(** A property of the events and the table that every successful call
    keeps holds in every state a run can be in: failing calls change
    neither, in either program. *)
Lemma js_run_keeps (P : list Js.event → gmap string Js.alloc_info → Prop) :
  (∀ c s s', Js.atomic c = true → P (Js.__events s) (Js.__allocs s) →
     Js.consistent s → Js.exec c s = Js.Normal tt s' →
     P (Js.__events s') (Js.__allocs s')) →
  P [] ∅ →
  ∀ body, let s := Js.left_behind (Js.run body Js.init) in
    P (Js.__events s) (Js.__allocs s).
Proof.
  intros Hstep Hinit body.
  assert (Js.consistent (Js.left_behind (Js.run body Js.init)) ∧
          P (Js.__events (Js.left_behind (Js.run body Js.init)))
            (Js.__allocs (Js.left_behind (Js.run body Js.init)))) as [_ H]; [|done].
  apply (js_run_steps
           (λ s s', Js.consistent s ∧ P (Js.__events s) (Js.__allocs s) →
                    Js.consistent s' ∧ P (Js.__events s') (Js.__allocs s')));
    [auto|auto| |by split; [apply js_init_consistent|]].
  intros c s Hatomic [Hcons HP].
  destruct (Js.exec c s) as [[] s'|m s'] eqn:Hc; simpl.
  - split; [by eapply js_exec_consistent|by eapply Hstep].
  - by apply js_exec_throw in Hc as ->.
Qed.

Lemma py_run_keeps (P : list Py.event → gmap string Py.alloc_info → Prop) :
  (∀ c s s', Py.atomic c = true → P (Py._events s) (Py._allocs s) →
     Py.ordered s → Py.exec c s = Py.Normal tt s' →
     P (Py._events s') (Py._allocs s')) →
  P [] ∅ →
  ∀ body, let s := Py.left_behind (Py._run_user_code body Py.init) in
    P (Py._events s) (Py._allocs s).
Proof.
  intros Hstep Hinit body.
  assert (Py.ordered (Py.left_behind (Py._run_user_code body Py.init)) ∧
          P (Py._events (Py.left_behind (Py._run_user_code body Py.init)))
            (Py._allocs (Py.left_behind (Py._run_user_code body Py.init))))
    as [_ H]; [|done].
  apply (py_run_steps
           (λ s s', Py.ordered s ∧ P (Py._events s) (Py._allocs s) →
                    Py.ordered s' ∧ P (Py._events s') (Py._allocs s')));
    [auto|auto| |by split; [apply py_init_ordered|]].
  intros c s Hatomic [Hord HP].
  destruct (Py.exec c s) as [[] s'|m s'] eqn:Hc; simpl.
  - split; [by eapply py_exec_ordered|by eapply Hstep].
  - apply py_exec_raise in Hc as [-> | ->]; [done| |done].
    split; [|done]. unfold Py.ordered in *. simpl. by apply ordered_tick.
Qed.

(** The id that the next [alloc] makes is carried by no recorded
    [alloc] event and is not in the table. *)
Lemma next_id_is_new {num} (evs : list (Trace.event num)) t live l :
  Trace.ordered evs t live →
  (∀ e, e ∈ evs → Trace.action e = "alloc" →
     Trace.id e ≠ Some (Trace.make_id l (t + 1))) ∧
  Trace.make_id l (t + 1) ∉ live.
Proof.
  intros Hord. pose proof Hord as [Hinc Hwin Ha Hi Hl].
  assert (∀ e, e ∈ evs → Trace.action e = "alloc" →
            Trace.id e ≠ Some (Trace.make_id l (t + 1))) as Hnew.
  { intros e Hin Halloc Hid.
    destruct (Hi e Hin Halloc) as [l' Hid'].
    rewrite Hid' in Hid. injection Hid as Hid.
    apply make_id_inj in Hid as [_ Htime].
    pose proof (ordered_bound _ _ _ _ Hord Hin). lia. }
  split; [done|]. intros Hin.
  destruct (Hl _ Hin) as (e & He & Halloc & Hid). by eapply Hnew.
Qed.

(** ** Fresh ids, and alloc followed by free *)



(** X2. In both emitted programs, [alloc] followed at once by [free] of
    the id it returned (below the event ceiling) records an [alloc] and a
    [free] event and leaves the allocation table exactly as it was before
    the [alloc]. *)
Theorem alloc_then_free_restores_the_table :
  (∀ pre label size id s1,
     let s := Js.left_behind (Js.run pre Js.init) in
     Js.alloc label size s = Js.Normal (VStr id) s1 →
     (N.of_nat (length (Js.__events s1)) < 10000)%N →
     ∃ s2, Js.free (VStr id) s1 = Js.Normal tt s2 ∧
       Js.__allocs s2 = Js.__allocs s ∧
       Js.__events s2 = Js.__events s1 ++
         [Trace.Event (Js.__time s1 + 1) "free" (Some id) None None]) ∧
  (∀ pre label size id s1,
     let s := Py.left_behind (Py._run_user_code pre Py.init) in
     Py.alloc label size s = Py.Normal (Py.PyStr id) s1 →
     (N.of_nat (length (Py._events s1)) < 10000)%N →
     ∃ s2, Py.free (Py.PyStr id) s1 = Py.Normal tt s2 ∧
       Py._allocs s2 = Py._allocs s ∧
       Py._events s2 = Py._events s1 ++
         [Trace.Event (Py._time s1 + 1) "free" (Some id) None None]).
Proof.
  split.
  - intros pre label size id s1 s Halloc Hroom%js_limit_reached_false.
    apply js_alloc_normal in Halloc as (l & n & -> & -> & _ & _ & [= ->] & ->).
    assert (Js.consistent s) as Hcons%consistent_ordered
      by apply js_run_consistent_left, js_init_consistent.
    destruct (next_id_is_new _ _ _ l Hcons) as [_ Hfresh%not_elem_of_dom].
    unfold Js.free. rewrite Hroom. simpl. rewrite lookup_insert_eq.
    eexists. split_and!; [done| |done]. simpl.
    by apply delete_insert_id.
  - intros pre label size id s1 s Halloc Hroom%py_limit_reached_false.
    apply py_alloc_normal in Halloc
      as (l & x & n & -> & _ & _ & _ & _ & [= ->] & ->).
    assert (Py.ordered s) as Hord
      by apply py_run_ordered_left, py_init_ordered.
    destruct (next_id_is_new _ _ _ l Hord) as [_ Hfresh%not_elem_of_dom].
    unfold Py.free. rewrite Hroom. simpl. rewrite lookup_insert_eq.
    eexists. split_and!; [done| |done]. simpl.
    by apply delete_insert_id.
Qed.

(** X2 at [alloc('x', 64)] and [free('x_1')] from the start of a run. *)
Lemma alloc_then_free_restores_the_table_witness :
  ∃ s2,
    Js.free (VStr "x_1")
      {| Js.__events :=
           [Trace.Event 1 "alloc" (Some "x_1") (Some 64%float) (Some "x")];
         Js.__allocs := <["x_1" := Js.AllocInfo "x" 64]> ∅;
         Js.__stdout := []; Js.__stderr := []; Js.__time := 1 |}
      = Js.Normal tt s2 ∧
    Js.__allocs s2 = ∅.
Proof.
  destruct (proj1 alloc_then_free_restores_the_table []
              (VStr "x") (VNum 64) "x_1"
              {| Js.__events :=
                   [Trace.Event 1 "alloc" (Some "x_1") (Some 64%float) (Some "x")];
                 Js.__allocs := <["x_1" := Js.AllocInfo "x" 64]> ∅;
                 Js.__stdout := []; Js.__stderr := []; Js.__time := 1 |})
    as (s2 & Hfree & Htable & _);
    [vm_compute; reflexivity|simpl; lia|].
  exists s2. split; [exact Hfree|exact Htable].
Defined.

(** X3. In both emitted programs, a second [free] of the same id, made
    while there is room for another event, is always recorded as
    [double_free] and leaves the table alone, whatever the first [free]
    found. *)
Theorem second_free_is_a_double_free :
  (∀ s k s1,
     Js.free (VStr k) s = Js.Normal tt s1 →
     (N.of_nat (length (Js.__events s1)) < 10000)%N →
     ∃ s2, Js.free (VStr k) s1 = Js.Normal tt s2 ∧
       Js.__allocs s2 = Js.__allocs s1 ∧
       last (Js.__events s2)
         = Some (Trace.Event (Js.__time s1 + 1) "double_free" (Some k) None None)) ∧
  (∀ s k s1,
     Py.free (Py.PyStr k) s = Py.Normal tt s1 →
     (N.of_nat (length (Py._events s1)) < 10000)%N →
     ∃ s2, Py.free (Py.PyStr k) s1 = Py.Normal tt s2 ∧
       Py._allocs s2 = Py._allocs s1 ∧
       last (Py._events s2)
         = Some (Trace.Event (Py._time s1 + 1) "double_free" (Some k) None None)).
Proof.
  split.
  - intros s k s1 (k' & [= <-] & _ & ->)%js_free_normal Hroom%js_limit_reached_false.
    assert (Js.__allocs
              {| Js.__events := Js.__events s ++
                   [Trace.Event (Js.__time s + 1)
                      (if Js.__allocs s !! k is Some _ then "free" else "double_free")
                      (Some k) None None];
                 Js.__allocs := (if Js.__allocs s !! k is Some _
                                 then delete k (Js.__allocs s) else Js.__allocs s);
                 Js.__stdout := Js.__stdout s; Js.__stderr := Js.__stderr s;
                 Js.__time := (Js.__time s + 1)%N |} !! k = None) as Hgone.
    { simpl. destruct (Js.__allocs s !! k) eqn:Hk; [apply lookup_delete_eq|done]. }
    unfold Js.free. rewrite Hroom, Hgone.
    eexists. split_and!; [done|done|]. simpl. apply last_snoc.
  - intros s k s1 (k' & [= <-] & _ & ->)%py_free_normal Hroom%py_limit_reached_false.
    assert (Py._allocs
              {| Py._events := Py._events s ++
                   [Trace.Event (Py._time s + 1)
                      (if Py._allocs s !! k is Some _ then "free" else "double_free")
                      (Some k) None None];
                 Py._allocs := (if Py._allocs s !! k is Some _
                                then delete k (Py._allocs s) else Py._allocs s);
                 Py._time := (Py._time s + 1)%N;
                 Py._stdout_capture := Py._stdout_capture s;
                 Py._stderr_capture := Py._stderr_capture s |} !! k = None) as Hgone.
    { simpl. destruct (Py._allocs s !! k) eqn:Hk; [apply lookup_delete_eq|done]. }
    unfold Py.free. rewrite Hroom, Hgone.
    eexists. split_and!; [done|done|]. simpl. apply last_snoc.
Qed.

(** X3 at two frees of a live id. *)
Lemma second_free_is_a_double_free_witness :
  ∃ s2,
    Js.free (VStr "x_1")
      {| Js.__events :=
           [Trace.Event 1 "alloc" (Some "x_1") (Some 64%float) (Some "x");
            Trace.Event 2 "free" (Some "x_1") None None];
         Js.__allocs := ∅;
         Js.__stdout := []; Js.__stderr := []; Js.__time := 2 |}
      = Js.Normal tt s2 ∧
    last (Js.__events s2)
      = Some (Trace.Event 3 "double_free" (Some "x_1") None None).
Proof.
  destruct (proj1 second_free_is_a_double_free
              {| Js.__events :=
                   [Trace.Event 1 "alloc" (Some "x_1") (Some 64%float) (Some "x")];
                 Js.__allocs := <["x_1" := Js.AllocInfo "x" 64]> ∅;
                 Js.__stdout := []; Js.__stderr := []; Js.__time := 1 |} "x_1"
              {| Js.__events :=
                   [Trace.Event 1 "alloc" (Some "x_1") (Some 64%float) (Some "x");
                    Trace.Event 2 "free" (Some "x_1") None None];
                 Js.__allocs := ∅;
                 Js.__stdout := []; Js.__stderr := []; Js.__time := 2 |})
    as (s2 & Hfree2 & _ & Hlast); [vm_compute; reflexivity|simpl; lia|].
  exists s2. split; [exact Hfree2|exact Hlast].
Defined.

(** ** The table and the events *)

Lemma ids_with_snoc {num} a (evs : list (Trace.event num)) e :
  Recorded.ids_with a (evs ++ [e]) =
  Recorded.ids_with a evs ∪
    (if decide (Trace.action e = a)
     then (if Trace.id e is Some k then {[k]} else ∅) else ∅).
Proof.
  unfold Recorded.ids_with. rewrite omap_app, list_to_set_app_L. simpl.
  case_decide; [destruct (Trace.id e)|]; simpl; set_solver.
Qed.

Lemma elem_of_ids_with {num} a (evs : list (Trace.event num)) k :
  k ∈ Recorded.ids_with a evs ↔
  ∃ e, e ∈ evs ∧ Trace.action e = a ∧ Trace.id e = Some k.
Proof.
  unfold Recorded.ids_with. rewrite elem_of_list_to_set, list_elem_of_omap.
  split; intros (e & Hin & He); exists e.
  - by case_decide.
  - destruct He as [Ha Hid]. by rewrite decide_True.
Qed.

Lemma accounted_alloc {num} (evs : list (Trace.event num)) live t k n l :
  Recorded.accounted evs live →
  k ∉ Recorded.ids_with "alloc" evs →
  Recorded.accounted (evs ++ [Trace.Event t "alloc" (Some k) n l]) ({[k]} ∪ live).
Proof.
  intros [-> Hsub] Hnew. unfold Recorded.accounted.
  rewrite !ids_with_snoc. simpl.
  repeat case_decide; try done. set_solver.
Qed.

Lemma accounted_free {num} (evs : list (Trace.event num)) live t k :
  Recorded.accounted evs live → k ∈ live →
  Recorded.accounted (evs ++ [Trace.Event t "free" (Some k) None None]) (live ∖ {[k]}).
Proof.
  intros [-> Hsub] Hin. unfold Recorded.accounted.
  rewrite !ids_with_snoc. simpl.
  repeat case_decide; try done. set_solver.
Qed.

Lemma accounted_double_free {num} (evs : list (Trace.event num)) live t k :
  Recorded.accounted evs live →
  Recorded.accounted (evs ++ [Trace.Event t "double_free" (Some k) None None]) live.
Proof.
  intros [-> Hsub]. unfold Recorded.accounted.
  rewrite !ids_with_snoc. simpl.
  repeat case_decide; try done. set_solver.
Qed.

Lemma js_accounted body :
  let s := Js.left_behind (Js.run body Js.init) in
  Recorded.accounted (Js.__events s) (dom (Js.__allocs s)).
Proof.
  apply (js_run_keeps (λ evs allocs, Recorded.accounted evs (dom allocs)));
    [|by split].
  intros c s s' Hatomic Hacc Hcons%consistent_ordered Hc.
  apply js_exec_cases in Hc
    as [(l & n & -> & _ & _ & ->)|[(k & -> & _ & ->)|(_ & -> & -> & _)]];
    simpl; [| |done|done].
  - rewrite dom_insert_L. apply accounted_alloc; [done|].
    intros (e & Hin & Ha & Hid)%elem_of_ids_with.
    by destruct (next_id_is_new _ _ _ l Hcons) as [Hnew _]; eapply Hnew.
  - destruct (Js.__allocs s !! k) eqn:Hk.
    + rewrite dom_delete_L. apply accounted_free; [done|]. by apply elem_of_dom.
    + by apply accounted_double_free.
Qed.

Lemma py_accounted body :
  let s := Py.left_behind (Py._run_user_code body Py.init) in
  Recorded.accounted (Py._events s) (dom (Py._allocs s)).
Proof.
  apply (py_run_keeps (λ evs allocs, Recorded.accounted evs (dom allocs)));
    [|by split].
  intros c s s' Hatomic Hacc Hord Hc.
  apply py_exec_cases in Hc
    as [(l & x & n & -> & _ & _ & ->)|[(k & -> & _ & ->)|(_ & -> & -> & _)]];
    simpl; [| |done|done].
  - rewrite dom_insert_L. apply accounted_alloc; [done|].
    intros (e & Hin & Ha & Hid)%elem_of_ids_with.
    by destruct (next_id_is_new _ _ _ l Hord) as [Hnew _]; eapply Hnew.
  - destruct (Py._allocs s !! k) eqn:Hk.
    + rewrite dom_delete_L. apply accounted_free; [done|]. by apply elem_of_dom.
    + by apply accounted_double_free.
Qed.

(** X4. In both emitted programs, in every state a run can be in
    (wherever the user code stands, after calls that failed and errors
    that were caught), the allocation table holds exactly the ids that an
    [alloc] event carries and no [free] event names, and [free] events
    name allocated ids only. *)
Theorem table_is_allocated_minus_freed :
  (∀ body,
     let s := Js.left_behind (Js.run body Js.init) in
     dom (Js.__allocs s) =
       Recorded.ids_with "alloc" (Js.__events s) ∖
       Recorded.ids_with "free" (Js.__events s) ∧
     Recorded.ids_with "free" (Js.__events s) ⊆
       Recorded.ids_with "alloc" (Js.__events s)) ∧
  (∀ body,
     let s := Py.left_behind (Py._run_user_code body Py.init) in
     dom (Py._allocs s) =
       Recorded.ids_with "alloc" (Py._events s) ∖
       Recorded.ids_with "free" (Py._events s) ∧
     Recorded.ids_with "free" (Py._events s) ⊆
       Recorded.ids_with "alloc" (Py._events s)).
Proof.
  split; intros body; [apply js_accounted|apply py_accounted].
Qed.

(** ** The ceiling on the number of events *)




(** ** The shape of the events *)

Lemma py_int_nonneg y n :
  Py.le_zero y = false → Py.int y = inr n → (0 ≤ n)%Z.
Proof.
  destruct y as [[]|z|f]; simpl; try (intros; simplify_eq; simpl; lia).
  intros Hpos. unfold Py.trunc.
  rewrite leb_spec in Hpos.
  destruct (Prim2SF f) as [sg|sg| |[] m e] eqn:Hf; simpl;
    try (intros; simplify_eq; lia); try (by case_match).
  intros [= <-]. apply Z.shiftl_nonneg. lia.
Qed.

Lemma js_shaped body :
  let s := Js.left_behind (Js.run body Js.init) in
  Forall (Recorded.well_shaped (λ n, PrimFloat.leb n 0 = false)) (Js.__events s).
Proof.
  apply (js_run_keeps
           (λ evs _, Forall (Recorded.well_shaped (λ n, PrimFloat.leb n 0 = false)) evs));
    [|by constructor].
  intros c s s' Hatomic Hall _ Hc.
  apply js_exec_cases in Hc
    as [(l & n & -> & Hpos & _ & ->)|[(k & -> & _ & ->)|(_ & -> & _)]];
    simpl; [| |done|done]; apply Forall_app; (split; [done|]);
    apply Forall_singleton.
  - left. simpl. eauto 8.
  - right; left. simpl. split_and!; [|by eexists|done|done].
    destruct (Js.__allocs s !! k); auto.
Qed.

Lemma py_shaped body :
  let s := Py.left_behind (Py._run_user_code body Py.init) in
  Forall (Recorded.well_shaped (λ n, (0 ≤ n)%Z)) (Py._events s).
Proof.
  apply (py_run_keeps
           (λ evs _, Forall (Recorded.well_shaped (λ n, (0 ≤ n)%Z)) evs));
    [|by constructor].
  intros c s s' Hatomic Hall _ Hc.
  apply py_exec_cases in Hc
    as [(l & x & n & -> & (y & _ & Hpos & Hint) & _ & ->)
       |[(k & -> & _ & ->)|(_ & -> & _)]];
    simpl; [| |done|done]; apply Forall_app; (split; [done|]);
    apply Forall_singleton.
  - left. simpl. split_and!; [done|by eexists|by eexists|].
    exists n. split; [done|]. by eapply py_int_nonneg.
  - right; left. simpl. split_and!; [|by eexists|done|done].
    destruct (Py._allocs s !! k); auto.
Qed.

(** X6. Every event either emitted program hands over has the fields of
    its kind and no others: an [alloc] event an id, a label and a size
    (in JavaScript a number that is not [<= 0], in Python an integer that
    is not negative), a [free] or [double_free] event an id only, the
    [end] event none of the three. *)
Theorem handed_over_events_are_well_shaped :
  (∀ body,
     Forall (Recorded.well_shaped (λ n, PrimFloat.leb n 0 = false))
       (Js.__events (Js.left_behind (Js.run body Js.init)))) ∧
  (∀ body,
     match Js.script body with
     | Js.MsgResult evs _ _ =>
         Forall (Recorded.well_shaped (λ n, PrimFloat.leb n 0 = false)) evs
     | Js.MsgError _ _ _ => True
     end) ∧
  (∀ body,
     Forall (Recorded.well_shaped (λ n, (0 ≤ n)%Z))
       (Py._events (Py.left_behind (Py._run_user_code body Py.init)))) ∧
  (∀ body,
     match Py.script body with
     | Py.Returned evs _ _ => Forall (Recorded.well_shaped (λ n, (0 ≤ n)%Z)) evs
     | Py.Raised _ => True
     end).
Proof.
  split_and!; [apply js_shaped| |apply py_shaped|]; intros body.
  - pose proof (js_shaped body) as Hall. unfold Js.script.
    destruct (Js.run body Js.init) as [[] s|]; [|done]. simpl in Hall.
    rewrite js_mark_leaked_events. case_decide; [done|].
    apply Forall_app. split; [done|]. apply Forall_singleton.
    right; right. by simpl.
  - pose proof (py_shaped body) as Hall. unfold Py.script.
    destruct (Py._run_user_code body Py.init) as [[] s|]; [|done]. simpl in Hall.
    rewrite py_mark_leaked_events. case_decide; [done|].
    apply Forall_app. split; [done|]. apply Forall_singleton.
    right; right. by simpl.
Qed.

(** * Further properties of the transformers *)

Lemma length_app_s (a b : string) :
  String.length (a +:+ b) = String.length a + String.length b.
Proof.
  induction a as [|x a IH]; [reflexivity|].
  rewrite app_cons. simpl. by rewrite IH.
Qed.

Lemma app_inv_tail_s (a a' b : string) : a +:+ b = a' +:+ b → a = a'.
Proof.
  revert a'. induction a as [|x a IH]; intros [|y a']; rewrite ?app_cons.
  - done.
  - intros H. apply (f_equal String.length) in H.
    rewrite ?length_app_s in H. simpl in H. rewrite ?length_app_s in H. lia.
  - intros H. apply (f_equal String.length) in H.
    rewrite ?length_app_s in H. simpl in H. rewrite ?length_app_s in H. lia.
  - intros [= -> H]. by rewrite (IH _ H).
Qed.

Lemma split_nonempty c s : Text.split c s ≠ [].
Proof. destruct s as [|a r]; simpl; [done|]. by repeat case_match. Qed.

Lemma join_split c s : Text.join (String c "") (Text.split c s) = s.
Proof.
  induction s as [|a r IH]; [reflexivity|]. simpl.
  pose proof (split_nonempty c r) as Hne.
  destruct (Text.split c r) as [|x xs] eqn:Hr; [done|].
  destruct (Ascii.eqb a c) eqn:Hac.
  - apply Ascii.eqb_eq in Hac as ->. by rewrite <- IH.
  - rewrite <- IH. by destruct xs.
Qed.

Lemma split_elements c s :
  Forall (λ x, Text.mem_char c x = false) (Text.split c s).
Proof.
  induction s as [|a r IH]; simpl; [by repeat constructor|].
  destruct (Ascii.eqb a c) eqn:Hac; [by constructor|].
  destruct (Text.split c r) as [|x xs]; [repeat constructor; simpl; by rewrite Hac|].
  inversion IH; subst. constructor; [|done]. simpl. by rewrite Hac.
Qed.

Lemma split_app_separator c x rest :
  Text.mem_char c x = false →
  Text.split c (x +:+ String c rest) = x :: Text.split c rest.
Proof.
  induction x as [|a x IH]; simpl.
  - intros _. by rewrite Ascii.eqb_refl.
  - intros [Hac Hx]%orb_false_elim. rewrite ?app_cons. simpl.
    by rewrite Hac, (IH Hx).
Qed.

Lemma split_join c l :
  l ≠ [] → Forall (λ x, Text.mem_char c x = false) l →
  Text.split c (Text.join (String c "") l) = l.
Proof.
  induction l as [|x [|y r] IH]; [done| |]; intros _ Hall.
  - simpl. apply split_no_separator. by inversion Hall.
  - inversion Hall as [|?? Hx Hr]; subst.
    change (Text.join (String c "") (x :: y :: r))
      with (x +:+ String c "" +:+ Text.join (String c "") (y :: r)).
    change (String c "" +:+ Text.join (String c "") (y :: r))
      with (String c (Text.join (String c "") (y :: r))).
    rewrite split_app_separator by done. by rewrite IH.
Qed.

Lemma split_indent userCode :
  Text.split Text.nl_char (PyTemplate.indent userCode) =
  (λ line, "    " +:+ line) <$> Text.split Text.nl_char userCode.
Proof.
  unfold PyTemplate.indent. apply split_join.
  - pose proof (split_nonempty Text.nl_char userCode).
    by destruct (Text.split Text.nl_char userCode).
  - apply Forall_fmap. eapply Forall_impl; [apply split_elements|].
    intros x Hx. simpl. by rewrite mem_char_app, Hx.
Qed.

(** X7. The indentation step of [instrumentPython] keeps the line
    structure of the user code: the emitted body has exactly the lines of
    the source, each behind four spaces, and splitting a text at
    newlines and joining it again gives the text back. *)
Theorem indent_keeps_the_lines :
  (∀ userCode,
     Text.split Text.nl_char (PyTemplate.indent userCode) =
     (λ line, "    " +:+ line) <$> Text.split Text.nl_char userCode) ∧
  (∀ userCode,
     Text.join Text.nl (Text.split Text.nl_char userCode) = userCode).
Proof.
  split; intros userCode; [apply split_indent|apply join_split].
Qed.

Lemma indent_inj u1 u2 : PyTemplate.indent u1 = PyTemplate.indent u2 → u1 = u2.
Proof.
  intros H. apply (f_equal (Text.split Text.nl_char)) in H.
  rewrite !split_indent in H.
  rewrite <- (join_split Text.nl_char u1), <- (join_split Text.nl_char u2).
  f_equal. revert H. apply (inj (fmap _)).
Qed.

(** X8. Neither transformer maps two different user programs to the
    same emitted program. *)
Theorem transformers_are_injective :
  (∀ u1 u2, JsTemplate.instrumentJs u1 = JsTemplate.instrumentJs u2 → u1 = u2) ∧
  (∀ u1 u2,
     PyTemplate.instrumentPython u1 = PyTemplate.instrumentPython u2 → u1 = u2).
Proof.
  split; intros u1 u2 H.
  - unfold JsTemplate.instrumentJs in H.
    apply String.app_inj in H. by apply app_inv_tail_s in H.
  - unfold PyTemplate.instrumentPython in H.
    apply String.app_inj in H. apply app_inv_tail_s in H. by apply indent_inj.
Qed.

(** X8 at a one-line program. *)
Lemma transformers_are_injective_witness :
  "alloc('a', 1)" = "alloc('a', 1)".
Proof.
  apply (proj1 transformers_are_injective). reflexivity.
Defined.

(** * Further properties of the validator and the hosts *)

(** Two cleanings of the same entry are the same object. *)
Lemma cleaned_unique e out1 out2 :
  Validator.cleaned e out1 → Validator.cleaned e out2 → out1 = out2.
Proof.
  intros (Ht1 & Ha1 & Hi1 & Hs1 & Hl1 & Hd1) (Ht2 & Ha2 & Hi2 & Hs2 & Hl2 & Hd2).
  apply map_eq. intros k.
  destruct (decide (k ∈ ({[ "time"; "action"; "id"; "size"; "label" ]} : gset string)))
    as [Hk|Hk].
  - repeat (apply elem_of_union in Hk as [Hk|Hk]);
      apply elem_of_singleton in Hk as ->; congruence.
  - assert (k ∉ dom out1) as H1%not_elem_of_dom by set_solver.
    assert (k ∉ dom out2) as H2%not_elem_of_dom by set_solver.
    by rewrite H1, H2.
Qed.

(** An object that the validator hands back unchanged. *)
Lemma loop_fixed outs :
  Forall (λ o, Validator.keeps (VObj o) = true ∧ Validator.cleaned (VObj o) o) outs →
  Validator.loop (VObj <$> outs) [] = outs.
Proof.
  induction 1 as [|o outs [Hkeep Hclean] _ IH]; [done|].
  rewrite fmap_cons.
  destruct (loop_cons (VObj o) (VObj <$> outs))
    as [[_ (out & Hout & ->)]|[Hno _]]; [|congruence].
  by rewrite IH, (cleaned_unique _ _ _ Hout Hclean).
Qed.

Lemma cleaned_is_fixed e out :
  Validator.keeps e = true → Validator.cleaned e out →
  Validator.keeps (VObj out) = true ∧ Validator.cleaned (VObj out) out.
Proof.
  intros (o & t & a & -> & Ht & Ha)%keeps_well_formed
         (Ht' & Ha' & Hi & Hs & Hl & Hd).
  simpl in *. rewrite Ht in Ht'. rewrite Ha in Ha'. simpl in *.
  split; [by rewrite Ht', Ha'|].
  unfold Validator.cleaned. simpl.
  rewrite Ht', Ha', Hi, Hs, Hl. split_and!; try done.
  - by destruct (default VUndefined (o !! "id")).
  - by destruct (default VUndefined (o !! "size")).
  - by destruct (default VUndefined (o !! "label")).
Qed.

Lemma loop_output_fixed items :
  Forall (λ o, Validator.keeps (VObj o) = true ∧ Validator.cleaned (VObj o) o)
    (Validator.loop items []).
Proof.
  pose proof (loop_cleaned items) as H.
  assert (Forall (λ e, Validator.keeps e = true) (List.filter Validator.keeps items))
    as Hkeep.
  { apply Forall_forall. by intros e [_ ?]%list_elem_of_In%filter_In. }
  revert Hkeep. induction H as [|e out es outs Hc _ IH]; [done|].
  intros [He Hes]%Forall_cons. constructor; [|by apply IH].
  by eapply cleaned_is_fixed.
Qed.

(** X9. [validateEvents] is idempotent: validating its own output again
    (as the controller does with what the worker has already validated)
    changes nothing. *)
Theorem validateEvents_is_idempotent :
  ∀ raw,
    Validator.validateEvents (VArr (VObj <$> Validator.validateEvents raw)) =
    Validator.validateEvents raw.
Proof.
  intros raw. unfold Validator.validateEvents at 1.
  apply loop_fixed. destruct raw; simpl; try done. apply loop_output_fixed.
Qed.

Lemma opt_prop_lookup k v o :
  Js.opt_prop k v o !! k = match v with Some x => Some x | None => o !! k end.
Proof. destruct v; simpl; [apply lookup_insert_eq|done]. Qed.

Lemma opt_prop_lookup_ne k k' v o :
  k ≠ k' → Js.opt_prop k v o !! k' = o !! k'.
Proof. intros Hne. destruct v; simpl; [by apply lookup_insert_ne|done]. Qed.

Lemma opt_prop_dom k v o : dom (Js.opt_prop k v o) ⊆ {[k]} ∪ dom o.
Proof. destruct v; simpl; set_solver. Qed.

(** An event object as either emitted program builds it is one the
    validator hands back unchanged. *)
Lemma event_object_fixed (t : float) (a : string) (i l : option string)
    (n : option float) :
  let o := Js.opt_prop "label" (VStr <$> l)
             (Js.opt_prop "size" (VNum <$> n)
                (Js.opt_prop "id" (VStr <$> i)
                   (<["action" := VStr a]> (<["time" := VNum t]> ∅)))) in
  Validator.keeps (VObj o) = true ∧ Validator.cleaned (VObj o) o.
Proof.
  intros o.
  assert (o !! "time" = Some (VNum t)) as Ht.
  { unfold o. rewrite !opt_prop_lookup_ne by done.
    by rewrite lookup_insert_ne, lookup_insert_eq. }
  assert (o !! "action" = Some (VStr a)) as Ha.
  { unfold o. rewrite !opt_prop_lookup_ne by done. by rewrite lookup_insert_eq. }
  assert (o !! "id" = VStr <$> i) as Hi.
  { unfold o. rewrite !opt_prop_lookup_ne, opt_prop_lookup by done.
    destruct i; [done|]. by rewrite !lookup_insert_ne. }
  assert (o !! "size" = VNum <$> n) as Hn.
  { unfold o. rewrite opt_prop_lookup_ne, opt_prop_lookup by done.
    destruct n; [done|]. simpl. rewrite opt_prop_lookup_ne by done.
    by rewrite !lookup_insert_ne. }
  assert (o !! "label" = VStr <$> l) as Hl.
  { unfold o. rewrite opt_prop_lookup.
    destruct l; [done|]. simpl. rewrite !opt_prop_lookup_ne by done.
    by rewrite !lookup_insert_ne. }
  assert (dom o ⊆ ({[ "time"; "action"; "id"; "size"; "label" ]} : gset string)) as Hd.
  { unfold o. destruct l, n, i; simpl;
      rewrite !dom_insert_L, dom_empty_L; set_solver. }
  clearbody o. split.
  - simpl. by rewrite Ht, Ha.
  - unfold Validator.cleaned. simpl. rewrite Ht, Ha, Hi, Hn, Hl.
    split_and!; try done; [by destruct i|by destruct n|by destruct l].
Qed.

Lemma js_event_value_fixed (e : Js.event) :
  ∃ o, Js.event_value e = VObj o ∧
    Validator.keeps (VObj o) = true ∧ Validator.cleaned (VObj o) o.
Proof. eexists. split; [done|]. apply event_object_fixed. Qed.

Lemma py_event_value_fixed (e : Py.event) :
  ∃ o, Host.pythonRuntime.event_value e = VObj o ∧
    Validator.keeps (VObj o) = true ∧ Validator.cleaned (VObj o) o.
Proof.
  eexists. split; [done|].
  destruct e as [t a i [n|] l]; simpl.
  - apply (event_object_fixed _ a i l (Some (num_of_Z n))).
  - apply (event_object_fixed _ a i l None).
Qed.

Lemma loop_on_event_values {A} (f : A → value) (evs : list A) :
  (∀ e, ∃ o, f e = VObj o ∧
     Validator.keeps (VObj o) = true ∧ Validator.cleaned (VObj o) o) →
  VObj <$> Validator.loop (f <$> evs) [] = f <$> evs.
Proof.
  intros Hf.
  assert (∃ outs, f <$> evs = VObj <$> outs ∧
            Forall (λ o, Validator.keeps (VObj o) = true ∧
                         Validator.cleaned (VObj o) o) outs) as (outs & -> & Hall).
  { induction evs as [|e evs (outs & IH & Hall)]; [by exists []|].
    destruct (Hf e) as (o & Ho & Hfix).
    exists (o :: outs). rewrite !fmap_cons, Ho, IH. split; [done|by constructor]. }
  by rewrite loop_fixed.
Qed.

(** X10. The validator drops and alters nothing of what the emitted
    programs produce: validating the event array of either program gives
    back exactly its event objects, all of them and in order. *)
Theorem validator_keeps_emitted_events :
  (∀ evs : list Js.event,
     VObj <$> Validator.validateEvents (VArr (Js.event_value <$> evs)) =
     Js.event_value <$> evs) ∧
  (∀ evs : list Py.event,
     VObj <$> Validator.validateEvents (VArr (Host.pythonRuntime.event_value <$> evs)) =
     Host.pythonRuntime.event_value <$> evs).
Proof.
  split; intros evs; simpl; apply loop_on_event_values.
  - apply js_event_value_fixed.
  - apply py_event_value_fixed.
Qed.


Lemma runPython_result env body evs out err :
  Host.importScriptsFn env = true →
  Py.script body = Py.Returned evs out err →
  ∃ r, Host.pythonRuntime.runPython env (Host.Script body) = Host.Resolved r ∧
    VObj <$> Validator.events r = Host.pythonRuntime.event_value <$> evs ∧
    Validator.stdout r = out ∧ Validator.stderr r = err.
Proof.
  intros Henv Hs. unfold Host.pythonRuntime.runPython. rewrite Henv, Hs. simpl.
  unfold Host.pythonRuntime.validateResult, Validator.validateResult,
    Host.pythonRuntime.parsed. simpl.
  rewrite lookup_insert_ne, lookup_insert_ne, lookup_insert_eq by done. simpl.
  eexists. split; [done|]. simpl.
  rewrite lookup_insert_ne, lookup_insert_eq, lookup_insert_eq by done. simpl.
  split; [|done]. apply loop_on_event_values, py_event_value_fixed.
Qed.

(** What [validateResult] hands over is sent through the validator
    again by the controller, unchanged. *)
Lemma validateResult_revalidated message raw r :
  Validator.validateResult message raw = inr r →
  Validator.validateEvents (VArr (VObj <$> Validator.events r)) = Validator.events r.
Proof.
  unfold Validator.validateResult. intros H. repeat case_match; simplify_eq.
  simpl. apply loop_fixed, loop_output_fixed.
Qed.

Lemma runPython_revalidated env code r :
  Host.pythonRuntime.runPython env code = Host.Resolved r →
  Validator.validateEvents (VArr (VObj <$> Validator.events r)) = Validator.events r.
Proof.
  unfold Host.pythonRuntime.runPython. intros H. repeat case_match; simplify_eq.
  by eapply validateResult_revalidated.
Qed.

Lemma runPython_not_pending env code :
  Host.pythonRuntime.runPython env code ≠ Host.Pending.
Proof.
  unfold Host.pythonRuntime.runPython. by repeat case_match.
Qed.



(** * Further properties of the worker and the controller *)

Lemma cleanup_refs c :
  workerRef (cleanup c) = None ∧ timeoutRef (cleanup c) = None ∧
  next (cleanup c) = next c ∧ posted (cleanup c) = posted c ∧
  state (cleanup c) = state c.
Proof.
  unfold cleanup, clear_timeout, terminate.
  destruct (timeoutRef c) as [t|] eqn:Ht, (workerRef c) as [w|] eqn:Hw; simpl;
    rewrite ?Ht, ?Hw; simpl; by rewrite ?Hw.
Qed.

Lemma mount_tidy : Protocol.tidy mount.
Proof.
  split; simpl.
  - split; intros [? [=]].
  - by intros w ?%elem_of_empty.
  - by intros t ?%elem_of_empty.
  - by intros [[=]|[=]].
Qed.

(** A controller without worker and timer is tidy whatever state it
    shows, unless the state says a run is in progress. *)
Lemma disposed_tidy c :
  disposed c →
  ¬ (status (state c) = Host.Running ∨ status (state c) = Host.LoadingPyodide) →
  Protocol.tidy c.
Proof.
  intros (Ht & Harmed & Hw & Hlive) Hstatus. split.
  - rewrite Ht, Hw. split; intros [? [=]].
  - rewrite Hlive. by intros w ?%elem_of_empty.
  - rewrite Harmed. by intros t ?%elem_of_empty.
  - intros H. by destruct Hstatus.
Qed.

Lemma invariant_disposed c :
  invariant c → workerRef c = None → timeoutRef c = None → disposed c.
Proof.
  intros [Hlive Harmed _ _] Hw Ht. unfold disposed.
  by rewrite Hlive, Harmed, Hw, Ht.
Qed.

Lemma live_worker c w : invariant c → w ∈ live c → workerRef c = Some w.
Proof.
  intros [Hlive _ _ _] Hin. rewrite Hlive in Hin.
  destruct (workerRef c); simpl in Hin; [|by apply elem_of_empty in Hin].
  by apply elem_of_singleton in Hin as ->.
Qed.

Lemma armed_timer c t : invariant c → t ∈ armed c → timeoutRef c = Some t.
Proof.
  intros [_ Harmed _ _] Hin. rewrite Harmed in Hin.
  destruct (timeoutRef c); simpl in Hin; [|by apply elem_of_empty in Hin].
  by apply elem_of_singleton in Hin as ->.
Qed.

Lemma clear_timeout_ref c : timeoutRef (clear_timeout c) = None.
Proof. unfold clear_timeout. by destruct (timeoutRef c) eqn:Ht. Qed.

Lemma run_tidy language code c :
  invariant c → Protocol.tidy (run language code c).
Proof.
  intros Hinv. destruct (cleanup_disposes c Hinv) as [Hdis Hstate].
  unfold run. destruct (Text.is_blank code).
  - apply disposed_tidy; [done|]. simpl. by intros [[=]|[=]].
  - destruct Hdis as (Ht & Harmed & Hw & Hlive). split; simpl.
    + split; intros _; by eexists.
    + rewrite Hlive. intros w [->%elem_of_singleton|[]%elem_of_empty]%elem_of_union. lia.
    + rewrite Harmed. intros t [->%elem_of_singleton|[]%elem_of_empty]%elem_of_union. lia.
    + intros _. by eexists.
Qed.

Lemma stop_tidy c : invariant c → Protocol.tidy (stop c).
Proof.
  intros Hinv. destruct (cleanup_disposes c Hinv) as [Hdis Hstate].
  unfold stop. apply disposed_tidy; [done|]. simpl.
  by destruct (status (state (cleanup c))); intros [[=]|[=]].
Qed.

Lemma onmessage_tidy w msg c :
  invariant c → Protocol.tidy c → w ∈ live c →
  Protocol.tidy (useSandbox.onmessage w msg c).
Proof.
  intros Hinv [Hrefs Hws Hts Hrun] Hin.
  pose proof (live_worker c w Hinv Hin) as Href.
  destruct msg as [raw out err|m out err|s].
  - apply disposed_tidy; [|cbn; intros [?|?]; discriminate].
    apply invariant_disposed.
    + by apply onmessage_invariant.
    + reflexivity.
    + apply clear_timeout_ref.
  - apply disposed_tidy; [|cbn; intros [?|?]; discriminate].
    apply invariant_disposed.
    + by apply onmessage_invariant.
    + reflexivity.
    + apply clear_timeout_ref.
  - split; simpl; [done|done|done|]. intros _. by rewrite Href.
Qed.

Lemma onerror_tidy message c : invariant c → Protocol.tidy (onerror message c).
Proof.
  intros Hinv. destruct (cleanup_disposes c Hinv) as [Hdis _].
  apply disposed_tidy; [done|]. simpl. by intros [[=]|[=]].
Qed.

Lemma on_timeout_tidy t c :
  invariant c → t ∈ armed c → Protocol.tidy (on_timeout t c).
Proof.
  intros Hinv Hin. pose proof (armed_timer c t Hinv Hin) as Href.
  apply disposed_tidy; [|cbn; intros [?|?]; discriminate].
  apply invariant_disposed; [by apply on_timeout_invariant| |].
  - unfold on_timeout, cleanup, clear_timeout. simpl. rewrite Href. simpl.
    by destruct (workerRef c).
  - unfold on_timeout, cleanup, clear_timeout. simpl. rewrite Href. simpl.
    by destruct (workerRef c).
Qed.

Lemma step_tidy c i : invariant c → Protocol.tidy c → Protocol.tidy (step c i).
Proof.
  intros Hinv Htidy. destruct i; simpl.
  - by apply run_tidy.
  - by apply stop_tidy.
  - case_decide; [by apply onmessage_tidy|done].
  - case_decide; [by apply onerror_tidy|done].
  - case_decide; [by apply on_timeout_tidy|done].
Qed.

Lemma reachable_tidy c : reachable c → Protocol.tidy c.
Proof.
  induction 1 as [|c i Hc IH]; [apply mount_tidy|].
  apply step_tidy; [by apply reachable_invariant|done].
Qed.

Lemma reachable_hosts c :
  reachable c →
  disposed c ∨
  ∃ w t, workerRef c = Some w ∧ timeoutRef c = Some t ∧
    live c = {[w]} ∧ armed c = {[t]} ∧ w < next c ∧ t < next c.
Proof.
  intros Hc. pose proof (reachable_invariant c Hc) as Hinv.
  destruct (reachable_tidy c Hc) as [Hrefs Hws Hts _].
  pose proof Hinv as [Hlive Harmed _ _].
  destruct (workerRef c) as [w|] eqn:Hw.
  - right. destruct Hrefs as [[t Ht] _]; [by eexists|].
    rewrite Ht in Harmed. simpl in *. exists w, t.
    split_and!; [done|done|done|done| |].
    + apply Hws. rewrite Hlive. by apply elem_of_singleton.
    + apply Hts. rewrite Harmed. by apply elem_of_singleton.
  - left. apply invariant_disposed; [done|done|].
    destruct (timeoutRef c) eqn:Ht; [|done].
    destruct Hrefs as [_ [? [=]]]. by eexists.
Qed.

(** X12. Whatever was run, stopped, received or timed out, the
    controller holds at most one worker and one timer, and holds them
    together: either nothing is live and nothing is armed and both refs
    are empty, or exactly the worker and the timer that the refs name
    are. *)
Theorem one_host_at_a_time :
  ∀ c, reachable c →
    (workerRef c = None ∧ timeoutRef c = None ∧ live c = ∅ ∧ armed c = ∅) ∨
    (∃ w t, workerRef c = Some w ∧ timeoutRef c = Some t ∧
       live c = {[w]} ∧ armed c = {[t]}).
Proof.
  intros c [(Ht & Ha & Hw & Hl)|(w & t & Hw & Ht & Hl & Ha & _)]%reachable_hosts.
  - by left.
  - right. by exists w, t.
Qed.

(** X12 after a run has replaced a run. *)
Lemma one_host_at_a_time_witness :
  let c := step (step mount (Run JavaScript "alloc('a', 1);"))
             (Run Python "alloc('b', 2)") in
  (workerRef c = None ∧ timeoutRef c = None ∧ live c = ∅ ∧ armed c = ∅) ∨
  (∃ w t, workerRef c = Some w ∧ timeoutRef c = Some t ∧
     live c = {[w]} ∧ armed c = {[t]}).
Proof.
  apply one_host_at_a_time. do 2 apply reachable_step. apply reachable_mount.
Defined.

(** X13. A run that the controller shows as in progress ([running] or
    [loading-pyodide]) always has its worker alive and its watchdog
    armed, so it can still end: when that timer fires the status becomes
    [timeout] with the time-out message, the worker is terminated, and
    nothing is left. *)
Theorem run_in_progress_has_its_watchdog :
  ∀ c, reachable c →
    status (state c) = Host.Running ∨ status (state c) = Host.LoadingPyodide →
    ∃ w t, workerRef c = Some w ∧ timeoutRef c = Some t ∧
      live c = {[w]} ∧ armed c = {[t]} ∧
      let c' := step c (TimerFires t) in
      status (state c') = Host.Timeout ∧
      error (state c') = Some timeout_message ∧ disposed c'.
Proof.
  intros c Hc Hstatus. pose proof (reachable_invariant c Hc) as Hinv.
  destruct (reachable_tidy c Hc) as [_ _ _ Hrun].
  destruct (reachable_hosts c Hc)
    as [(_ & _ & Hw & _)|(w & t & Hw & Ht & Hl & Ha & _)].
  - destruct (Hrun Hstatus) as [? Hsome]. by rewrite Hw in Hsome.
  - exists w, t. split_and!; [done..|].
    assert (t ∈ armed c) as Hin by (rewrite Ha; by apply elem_of_singleton).
    simpl. rewrite decide_True by done. split_and!; [done|done|].
    apply invariant_disposed; [by apply on_timeout_invariant| |];
      unfold on_timeout, cleanup, clear_timeout; simpl; rewrite Ht; simpl;
      by rewrite Hw.
Qed.

(** X13 at a run that has just been started. *)
Lemma run_in_progress_has_its_watchdog_witness :
  let c := step mount (Run JavaScript "while (true) {}") in
  ∃ w t, workerRef c = Some w ∧ timeoutRef c = Some t ∧
    live c = {[w]} ∧ armed c = {[t]} ∧
    let c' := step c (TimerFires t) in
    status (state c') = Host.Timeout ∧
    error (state c') = Some timeout_message ∧ disposed c'.
Proof.
  apply run_in_progress_has_its_watchdog.
  - apply reachable_step, reachable_mount.
  - left. reflexivity.
Defined.

(** X14. Starting a run while another is in progress leaves only the
    new worker and the new timer: the status is [running] with cleared
    events and output, the code is posted to the new worker, and whatever
    the replaced worker or its timer still deliver changes nothing. *)
Theorem run_supersedes_the_previous_host :
  ∀ c language code, reachable c → Text.is_blank code = false →
    let c' := run language code c in
    workerRef c' = Some (next c) ∧ timeoutRef c' = Some (S (next c)) ∧
    live c' = {[next c]} ∧ armed c' = {[S (next c)]} ∧
    status (state c') = Host.Running ∧ cleared (state c') ∧
    posted c' = posted c ++ [(next c, language, code)] ∧
    (∀ w msg, w ∈ live c → step c' (Message w msg) = c') ∧
    (∀ w message, w ∈ live c → step c' (WorkerError w message) = c') ∧
    (∀ t, t ∈ armed c → step c' (TimerFires t) = c').
Proof.
  intros c language code Hc Hblank c'.
  pose proof (reachable_invariant c Hc) as Hinv.
  destruct (reachable_tidy c Hc) as [_ Hws Hts _].
  destruct (cleanup_disposes c Hinv) as [(Ht & Harmed & Hw & Hlive) Hstate].
  destruct (cleanup_refs c) as (_ & _ & Hnext & Hposted & _).
  assert (live c' = {[next c]}) as Hl.
  { unfold c', run. rewrite Hblank. simpl. rewrite Hlive, Hnext. set_solver. }
  assert (armed c' = {[S (next c)]}) as Ha.
  { unfold c', run. rewrite Hblank. simpl. rewrite Harmed, Hnext. set_solver. }
  split_and!; try done.
  - unfold c', run. rewrite Hblank. simpl. by rewrite Hnext.
  - unfold c', run. rewrite Hblank. simpl. by rewrite Hnext.
  - unfold c', run. by rewrite Hblank.
  - unfold c', run. by rewrite Hblank.
  - unfold c', run. rewrite Hblank. simpl. by rewrite Hposted, Hnext.
  - intros w msg Hin%Hws. simpl. rewrite decide_False; [done|].
    rewrite Hl. intros ->%elem_of_singleton. lia.
  - intros w message Hin%Hws. simpl. rewrite decide_False; [done|].
    rewrite Hl. intros ->%elem_of_singleton. lia.
  - intros t Hin%Hts. simpl. rewrite decide_False; [done|].
    rewrite Ha. intros ->%elem_of_singleton. lia.
Qed.

(** X14 at a Python run started over a JavaScript run. *)
Lemma run_supersedes_the_previous_host_witness :
  let c := step mount (Run JavaScript "alloc('a', 1);") in
  let c' := run Python "alloc('b', 2)" c in
  live c' = {[3]} ∧ armed c' = {[4]} ∧
  step c' (Message 1 (Host.WorkerErrorMessage "late" "" "")) = c'.
Proof.
  intros c c'.
  assert (reachable c) as Hc by apply reachable_step, reachable_mount.
  destruct (run_supersedes_the_previous_host c Python "alloc('b', 2)" Hc)
    as (_ & _ & Hl & Ha & _ & _ & _ & Hold & _); [reflexivity|].
  split_and!; [exact Hl|exact Ha|].
  apply Hold. vm_compute. reflexivity.
Defined.

(** X15. Running blank code starts nothing: the previous run, if any,
    is disposed of, no worker is created, nothing is posted, and the
    state is the error [No code to run.] with cleared events and
    output. *)
Theorem blank_code_starts_nothing :
  ∀ c language code, reachable c → Text.is_blank code = true →
    let c' := run language code c in
    disposed c' ∧ posted c' = posted c ∧ next c' = next c ∧
    status (state c') = Host.Error ∧
    error (state c') = Some "No code to run." ∧ cleared (state c').
Proof.
  intros c language code Hinv%reachable_invariant Hblank c'.
  destruct (cleanup_disposes c Hinv) as [Hdis _].
  destruct (cleanup_refs c) as (_ & _ & Hnext & Hposted & _).
  unfold c', run. rewrite Hblank. by split_and!.
Qed.

(** X15 at a run of spaces while a run is in progress. *)
Lemma blank_code_starts_nothing_witness :
  let c := step mount (Run JavaScript "alloc('a', 1);") in
  let c' := run JavaScript "   " c in
  disposed c' ∧ posted c' = posted c ∧ next c' = next c ∧
  status (state c') = Host.Error ∧
  error (state c') = Some "No code to run." ∧ cleared (state c').
Proof.
  intros c.
  apply (blank_code_starts_nothing c JavaScript "   ");
    [apply reachable_step, reachable_mount|reflexivity].
Defined.

(** X16. A [result] or [error] message of the live worker ends the run:
    the timer is cleared, the worker terminated, the status is [success]
    or [error], and nothing that a worker or a timer delivers afterwards
    changes the controller. *)
Theorem terminal_message_ends_the_run :
  ∀ c w msg, reachable c → w ∈ live c → Protocol.terminal msg = true →
    let c' := step c (Message w msg) in
    disposed c' ∧
    (status (state c') = Host.Success ∨ status (state c') = Host.Error) ∧
    (∀ w' msg', step c' (Message w' msg') = c') ∧
    (∀ w' message, step c' (WorkerError w' message) = c') ∧
    (∀ t, step c' (TimerFires t) = c').
Proof.
  intros c w msg Hinv%reachable_invariant Hin Hterminal c'.
  assert (disposed c') as Hdis.
  { unfold c'. simpl. rewrite decide_True by done.
    apply invariant_disposed; [by apply onmessage_invariant| |];
      destruct msg; try done; apply clear_timeout_ref. }
  split_and!; [done| | | |].
  - unfold c'. simpl. rewrite decide_True by done.
    destruct msg; try done; [by left|by right].
  - intros w' msg'. simpl. rewrite decide_False; [done|].
    destruct Hdis as (_ & _ & _ & ->). by intros ?%elem_of_empty.
  - intros w' message. simpl. rewrite decide_False; [done|].
    destruct Hdis as (_ & _ & _ & ->). by intros ?%elem_of_empty.
  - intros t. simpl. rewrite decide_False; [done|].
    destruct Hdis as (_ & -> & _ & _). by intros ?%elem_of_empty.
Qed.

(** X16 at a result that arrives for a run in progress. *)
Lemma terminal_message_ends_the_run_witness :
  let c := step mount (Run Python "alloc('a', 1)") in
  let c' := step c (Message 1 (Host.WorkerResultMessage (VArr []) (VStr "") (VStr ""))) in
  disposed c' ∧ status (state c') = Host.Success ∧
  step c' (TimerFires 2) = c'.
Proof.
  intros c c'.
  assert (reachable c) as Hc by apply reachable_step, reachable_mount.
  destruct (terminal_message_ends_the_run c 1
              (Host.WorkerResultMessage (VArr []) (VStr "") (VStr "")) Hc)
    as (Hdis & _ & _ & _ & Htimer);
    [vm_compute; reflexivity|reflexivity|].
  split_and!; [exact Hdis|reflexivity|apply Htimer].
Defined.

Lemma cleanup_of_disposed c :
  workerRef c = None → timeoutRef c = None → cleanup c = c.
Proof.
  intros Hw Ht. unfold cleanup, clear_timeout. rewrite Ht. by rewrite Hw.
Qed.

(** X17. [stop()] is idempotent, and on a run that is not in progress
    it leaves the state that is shown as it is: the result of a finished
    run survives a stop. *)
Theorem stop_is_idempotent :
  (∀ c, stop (stop c) = stop c) ∧
  (∀ c,
     status (state c) ≠ Host.Running → status (state c) ≠ Host.LoadingPyodide →
     state (stop c) = state c).
Proof.
  split.
  - intros c. destruct (cleanup_refs c) as (Hw & Ht & _).
    unfold stop at 1. rewrite cleanup_of_disposed by done.
    unfold stop, setState. simpl. f_equal.
    destruct (state (cleanup c)) as [st evs out err e]. simpl.
    by destruct st.
  - intros c Hrun Hload. destruct (cleanup_refs c) as (_ & _ & _ & _ & Hs).
    unfold stop. simpl. rewrite Hs.
    destruct (state c) as [st evs out err e]. simpl in *. by destruct st.
Qed.

(** X17 at a stop after a run has succeeded. *)
Lemma stop_is_idempotent_witness :
  let c := step (step mount (Run Python "alloc('a', 1)"))
             (Message 1 (Host.WorkerResultMessage (VArr []) (VStr "out") (VStr ""))) in
  state (stop c) = state c ∧ stdout (state (stop c)) = VStr "out".
Proof.
  intros c. split; [|reflexivity].
  apply (proj2 stop_is_idempotent c); vm_compute; discriminate.
Defined.



Lemma step_message c w msg :
  w ∈ live c → step c (Message w msg) = useSandbox.onmessage w msg c.
Proof. intros Hin. unfold step. by rewrite decide_True. Qed.

Lemma run_started language code c :
  invariant c → Text.is_blank code = false →
  let c1 := run language code c in
  invariant c1 ∧ next c ∈ live c1 ∧ workerRef c1 = Some (next c).
Proof.
  intros Hinv Hblank c1. split; [by apply run_invariant|].
  destruct (cleanup_refs c) as (_ & _ & Hnext & _).
  unfold c1, run. rewrite Hblank. simpl. rewrite Hnext. split; [set_solver|done].
Qed.

(** X19. A Python run from the controller's [run] to its last message,
    through the worker: when the emitted script returns, the controller
    ends in [success] showing exactly the script's events, all of them
    and in order, and the captured output, with the hint as [error]
    exactly when there are no events; when an exception leaves the
    script, it ends in [error] with the message of the exception, no
    events and empty output.  Either way worker and timer are gone. *)
Theorem python_run_end_to_end :
  ∀ env c code body,
    reachable c → Text.is_blank code = false →
    Host.importScriptsFn env = true →
    let request := {| Host.type := "run";
                      Host.run := Host.RunPython (Host.Script body) |} in
    let c' := Protocol.deliver (next c) (Host.onmessage env request)
                (run Python code c) in
    disposed c' ∧
    match Py.script body with
    | Py.Returned evs out err =>
        status (state c') = Host.Success ∧
        VObj <$> events (state c') = Host.pythonRuntime.event_value <$> evs ∧
        stdout (state c') = VStr out ∧ stderr (state c') = VStr err ∧
        error (state c') = (if evs is [] then Some no_events_hint else None)
    | Py.Raised e =>
        status (state c') = Host.Error ∧ events (state c') = [] ∧
        stdout (state c') = VStr "" ∧ stderr (state c') = VStr "" ∧
        error (state c') = Some (Host.python_error_message env e)
    end.
Proof.
  intros env c code body Hinv%reachable_invariant Hblank Himport request c'.
  destruct (run_started Python code c Hinv Hblank) as (Hinv1 & Hlive1 & Href1).
  set (c1 := run Python code c) in *.
  set (c2 := step c1 (Message (next c)
                        (Host.WorkerStatusMessage Host.LoadingPyodide))).
  assert (c2 = setState (with_status Host.LoadingPyodide) c1) as Hc2
    by (unfold c2; by rewrite step_message).
  assert (invariant c2 ∧ next c ∈ live c2) as [Hinv2 Hlive2].
  { split; [|by rewrite Hc2].
    unfold c2. rewrite step_message by done. by apply onmessage_invariant. }
  assert (∀ last, Protocol.terminal last = true →
            disposed (step c2 (Message (next c) last))) as Hdis.
  { intros last Hlast. rewrite step_message by done.
    apply invariant_disposed; [by apply onmessage_invariant| |];
      destruct last; try done; apply clear_timeout_ref. }
  assert (c' = step c2 (Message (next c)
                  match Host.pythonRuntime.runPython env (Host.Script body) with
                  | Host.Resolved r => Host.result_message r
                  | Host.Rejected message => Host.WorkerErrorMessage message "" ""
                  | Host.Pending => Host.WorkerStatusMessage Host.LoadingPyodide
                  end)) as ->.
  { pose proof (runPython_not_pending env (Host.Script body)) as Hsettled.
    unfold c', request, Protocol.deliver, Host.onmessage. simpl.
    by destruct (Host.pythonRuntime.runPython env (Host.Script body)). }
  destruct (Py.script body) as [evs out err|e] eqn:Hscript.
  - destruct (runPython_result env body evs out err Himport Hscript)
      as (r & Hr & Hevs & <- & <-).
    rewrite Hr. split; [by apply Hdis|].
    rewrite step_message by done.
    unfold Host.result_message, useSandbox.onmessage.
    rewrite (runPython_revalidated _ _ _ Hr). simpl.
    split_and!; [done|done|done|done|].
    destruct (Validator.events r), evs; done.
  - assert (Host.pythonRuntime.runPython env (Host.Script body)
            = Host.Rejected (Host.python_error_message env e)) as ->.
    { unfold Host.pythonRuntime.runPython. by rewrite Himport, Hscript. }
    split; [by apply Hdis|].
    by rewrite step_message by done.
Qed.

(** X19 at a Python run that leaks one block, started from a fresh
    controller. *)
Lemma python_run_end_to_end_witness :
  let env := {| Host.importScriptsFn := true;
                Host.python_error_message := Py.exn_message |} in
  let body := [Py.SAlloc (Py.PyStr "a") (Py.PyInt 8); Py.SPrint ["done"]] in
  let c' := Protocol.deliver 1
              (Host.onmessage env
                 {| Host.type := "run";
                    Host.run := Host.RunPython (Host.Script body) |})
              (run Python "alloc('a', 8)" mount) in
  disposed c' ∧ status (state c') = Host.Success ∧
  VObj <$> events (state c') =
    Host.pythonRuntime.event_value <$>
      [Trace.Event 1 "alloc" (Some "a_1") (Some 8%Z) (Some "a"); Trace.end_event 2] ∧
  stdout (state c') = VStr ("done" +:+ Text.nl) ∧ error (state c') = None.
Proof.
  intros env body.
  destruct (python_run_end_to_end env mount "alloc('a', 8)" body)
    as (Hdis & Hstatus & Hevents & Hout & _ & Herror);
    [apply reachable_mount|reflexivity|reflexivity|].
  split_and!; [exact Hdis|exact Hstatus|exact Hevents|exact Hout|exact Herror].
Defined.

(** X20. A JavaScript run from the controller's [run] to its last
    message, through the worker: because the worker does not wait for
    [runJs], the controller ends in [success] with no events, the hint
    that the code produced no memory events, and [undefined] output,
    whatever the code does; worker and timer are gone. *)
Theorem javascript_run_end_to_end :
  ∀ env c code program,
    reachable c → Text.is_blank code = false →
    let request := {| Host.type := "run";
                      Host.run := Host.RunJavaScript program |} in
    let c' := Protocol.deliver (next c) (Host.onmessage env request)
                (run JavaScript code c) in
    disposed c' ∧ status (state c') = Host.Success ∧
    events (state c') = [] ∧ error (state c') = Some no_events_hint ∧
    stdout (state c') = VUndefined ∧ stderr (state c') = VUndefined.
Proof.
  intros env c code program Hinv%reachable_invariant Hblank request c'.
  destruct (run_started JavaScript code c Hinv Hblank) as (Hinv1 & Hlive1 & Href1).
  assert (Host.onmessage env request
          = [Host.WorkerResultMessage VUndefined VUndefined VUndefined]) as Hposted
    by reflexivity.
  unfold c'. rewrite Hposted. unfold Protocol.deliver. cbn [foldl].
  rewrite step_message by done.
  split; [|done].
  apply invariant_disposed; [by apply onmessage_invariant|done|].
  apply clear_timeout_ref.
Qed.

(** X20 at a run of [alloc('a', 8);] from a fresh controller. *)
Lemma javascript_run_end_to_end_witness :
  let c' := Protocol.deliver 1
              (Host.onmessage
                 {| Host.importScriptsFn := true;
                    Host.python_error_message := Py.exn_message |}
                 {| Host.type := "run";
                    Host.run := Host.RunJavaScript
                      (Host.Script [Js.SAlloc (VStr "a") (VNum 8)]) |})
              (run JavaScript "alloc('a', 8);" mount) in
  disposed c' ∧ status (state c') = Host.Success ∧
  events (state c') = [] ∧ error (state c') = Some no_events_hint ∧
  stdout (state c') = VUndefined ∧ stderr (state c') = VUndefined.
Proof.
  apply (javascript_run_end_to_end _ mount "alloc('a', 8);");
    [apply reachable_mount|reflexivity].
Defined.

(** * The heap analysis *)

Lemma has_keys k (bm : list (string * Analysis.MemoryBlock)) :
  Analysis.has k bm = true ↔ k ∈ bm.*1.
Proof.
  unfold Analysis.has. induction bm as [|[k' b] bm IH]; csimpl.
  - split; [done|by intros ?%elem_of_nil].
  - rewrite orb_true_iff, IH, elem_of_cons, String.eqb_eq. naive_solver.
Qed.

Lemma set_keys k b bm :
  (Analysis.set k b bm).*1 = if Analysis.has k bm then bm.*1 else bm.*1 ++ [k].
Proof.
  unfold Analysis.has. induction bm as [|[k' b'] bm IH]; csimpl; [done|].
  destruct (String.eqb k' k) eqn:Hk; csimpl; [done|].
  rewrite IH. by destruct (existsb _ bm).
Qed.

Lemma set_status_keys k s bm : (Analysis.set_status k s bm).*1 = bm.*1.
Proof.
  unfold Analysis.set_status. induction bm as [|[k' b'] bm IH]; csimpl; [done|].
  rewrite <- IH. by destruct (String.eqb k' k).
Qed.

Lemma mark_leaked_keys bm : (Analysis.mark_leaked bm).*1 = bm.*1.
Proof.
  unfold Analysis.mark_leaked. induction bm as [|[k' b'] bm IH]; csimpl; [done|].
  rewrite <- IH. by destruct (Analysis.BlockStatus_eqb _ _).
Qed.

(** An event adds at most one key, at the end, and only an [alloc]
    event with a new id does. *)
Lemma apply_event_keys e bm :
  (Analysis.apply_event e bm).*1 = bm.*1 ∨
  ∃ i, (Analysis.apply_event e bm).*1 = bm.*1 ++ [i] ∧ (i ∉ bm.*1) ∧
    Analysis.action e = "alloc" ∧ Analysis.id e = Some i.
Proof.
  unfold Analysis.apply_event.
  destruct (String.eqb (Analysis.action e) "alloc") eqn:Halloc,
    (Analysis.truthy_string (Analysis.id e)) as [i|] eqn:Hid,
    (Analysis.truthy_string (Analysis.label e)) as [l|],
    (Analysis.size e) as [n|];
    try (rewrite set_keys; destruct (Analysis.has i bm) eqn:Hhas; [by left|];
         right; exists i; split_and!; [done| |by apply String.eqb_eq|];
         [rewrite <- has_keys; by rewrite Hhas
         |unfold Analysis.truthy_string in Hid; by repeat case_match; simplify_eq]);
    left; repeat case_match;
      rewrite ?set_status_keys, ?mark_leaked_keys; done.
Qed.

(** ** The loop *)

Lemma iterations_snaps l st :
  ∃ more, Analysis.snaps (fold_left Analysis.iteration l st)
          = Analysis.snaps st ++ more ∧ length more = length l.
Proof.
  revert st. induction l as [|e l IH]; intros st; simpl.
  - exists []. by rewrite app_nil_r.
  - destruct (IH (Analysis.iteration st e)) as (more & -> & Hlen).
    simpl. eexists. rewrite <- app_assoc. split; [done|]. simpl. by rewrite Hlen.
Qed.

Lemma iterations_keys l st :
  ∃ more, (Analysis.bm (fold_left Analysis.iteration l st)).*1
          = (Analysis.bm st).*1 ++ more.
Proof.
  revert st. induction l as [|e l IH]; intros st; simpl.
  - exists []. by rewrite app_nil_r.
  - destruct (IH (Analysis.iteration st e)) as (more & ->). simpl.
    destruct (apply_event_keys e (Analysis.bm st)) as [->|(i & -> & _)].
    + by eexists.
    + rewrite <- app_assoc. by eexists.
Qed.

Lemma visited_length events currentStep :
  length (Analysis.visited events currentStep)
  = Z.to_nat (Z.min (currentStep + 1) (Z.of_nat (length events))).
Proof. unfold Analysis.visited. rewrite length_take. lia. Qed.

Lemma visited_all events :
  Analysis.visited events (Z.of_nat (length events) - 1) = events.
Proof. unfold Analysis.visited. apply take_ge. lia. Qed.

Lemma visited_split events currentStep :
  ∃ rest, events = Analysis.visited events currentStep ++ rest.
Proof. unfold Analysis.visited. eexists. symmetry. apply take_drop. Qed.

Lemma visited_mono events a b :
  (a ≤ b)%Z →
  ∃ more, Analysis.visited events b = Analysis.visited events a ++ more.
Proof.
  intros Hab. unfold Analysis.visited.
  set (n := Z.to_nat (Z.min a (Z.of_nat (length events) - 1) + 1)).
  set (m := Z.to_nat (Z.min b (Z.of_nat (length events) - 1) + 1)).
  assert (n ≤ m) as Hnm by lia.
  exists (drop n (take m events)).
  rewrite <- (take_drop n (take m events)) at 1.
  f_equal. rewrite take_take. f_equal. lia.
Qed.

(** ** Entries of the block map *)

Lemma set_forall (Q : string * Analysis.MemoryBlock → Prop) k b bm :
  Forall Q bm → Q (k, b) → Forall Q (Analysis.set k b bm).
Proof.
  intros Hbm Hb. induction Hbm as [|[k' b'] rest Hx Hrest IH]; simpl.
  - by constructor.
  - destruct (String.eqb k' k) eqn:Hk.
    + apply String.eqb_eq in Hk as ->. by constructor.
    + by constructor.
Qed.

Lemma set_status_forall (Q : string * Analysis.MemoryBlock → Prop) k s bm :
  (∀ s k b, Q (k, b) → Q (k, Analysis.with_status s b)) →
  Forall Q bm → Forall Q (Analysis.set_status k s bm).
Proof.
  intros Hs Hbm. unfold Analysis.set_status. apply Forall_fmap.
  eapply Forall_impl; [done|]. intros [k' b'] H. simpl.
  destruct (String.eqb k' k); [by apply Hs|done].
Qed.

Lemma mark_leaked_forall (Q : string * Analysis.MemoryBlock → Prop) bm :
  (∀ s k b, Q (k, b) → Q (k, Analysis.with_status s b)) →
  Forall Q bm → Forall Q (Analysis.mark_leaked bm).
Proof.
  intros Hs Hbm. unfold Analysis.mark_leaked. apply Forall_fmap.
  eapply Forall_impl; [done|]. intros [k' b'] H. simpl.
  destruct (Analysis.BlockStatus_eqb _ _); [by apply Hs|done].
Qed.

Lemma truthy_string_some s i : Analysis.truthy_string s = Some i → s = Some i.
Proof.
  destruct s as [s|]; simpl; [|done]. by destruct (String.eqb s ""); intros [= ->].
Qed.

(** A property of entries that a change of status keeps, and that the
    entry made from an [alloc] event has, is kept by every event. *)
Lemma apply_event_forall (Q : string * Analysis.MemoryBlock → Prop) e bm :
  (∀ s k b, Q (k, b) → Q (k, Analysis.with_status s b)) →
  (∀ i l n, Analysis.action e = "alloc" → Analysis.id e = Some i →
     Analysis.label e = Some l → Analysis.size e = Some n →
     Q (i, {| Analysis.Block.id := i; Analysis.Block.label := l;
              Analysis.Block.size := n; Analysis.Block.status := Analysis.active |})) →
  Forall Q bm → Forall Q (Analysis.apply_event e bm).
Proof.
  intros Hs Hnew Hbm. unfold Analysis.apply_event.
  repeat case_match; try done;
    try (by apply set_status_forall); try (by apply mark_leaked_forall).
  all: apply set_forall; [done|];
    apply Hnew; [by apply String.eqb_eq|by apply truthy_string_some..|done].
Qed.

Lemma iterations_keyed l st :
  Forall Analysis.keyed (Analysis.bm st) →
  Forall Analysis.keyed (Analysis.bm (fold_left Analysis.iteration l st)).
Proof.
  revert st. induction l as [|e l IH]; intros st Hst; simpl; [done|].
  apply IH. simpl. by apply apply_event_forall.
Qed.

Lemma iterations_nodup l st :
  NoDup (Analysis.bm st).*1 →
  NoDup (Analysis.bm (fold_left Analysis.iteration l st)).*1.
Proof.
  revert st. induction l as [|e l IH]; intros st Hst; simpl; [done|].
  apply IH. simpl.
  destruct (apply_event_keys e (Analysis.bm st)) as [->|(i & -> & Hi & _)]; [done|].
  apply NoDup_app. split_and!; [done| |apply NoDup_singleton].
  intros x Hx ->%list_elem_of_singleton. done.
Qed.

Lemma iterations_allocated l :
  Forall (Analysis.allocated_by l) (Analysis.bm (fold_left Analysis.iteration l Analysis.start)).
Proof.
  induction l as [|e l IH] using rev_ind; [by constructor|].
  rewrite fold_left_app. simpl. apply apply_event_forall.
  - intros s k b (e' & ? & ? & ? & ? & ?). by exists e'.
  - intros i lb n ? ? ? ?. exists e. split_and!; try done. set_solver.
  - eapply Forall_impl; [done|].
    intros entry (e' & ? & ? & ? & ? & ?). exists e'. split_and!; try done. set_solver.
Qed.

Lemma keyed_ids bm :
  Forall Analysis.keyed bm → Analysis.Block.id <$> Analysis.values bm = bm.*1.
Proof.
  unfold Analysis.values. induction 1 as [|[k b] rest Hk _ IH]; [done|].
  csimpl. unfold Analysis.keyed in Hk. simpl in Hk. by rewrite Hk, <- IH.
Qed.

(** ** Counting by status *)

Lemma status_partition bs :
  length (Analysis.with_status_in [Analysis.active] bs)
  + length (Analysis.with_status_in [Analysis.leaked] bs)
  + length (Analysis.with_status_in [Analysis.freed] bs)
  + length (Analysis.with_status_in [Analysis.double_free] bs) = length bs.
Proof.
  induction bs as [|b bs IH]; [done|].
  unfold Analysis.with_status_in in *. simpl in *.
  destruct (Analysis.Block.status b); simpl in *; lia.
Qed.

Lemma mark_leaked_none_active bm :
  Forall (λ b, Analysis.Block.status b ≠ Analysis.active)
    (Analysis.values (Analysis.mark_leaked bm)).
Proof.
  unfold Analysis.values, Analysis.mark_leaked.
  induction bm as [|[k b] bm IH]; [by constructor|].
  simpl. constructor; [|done].
  by destruct (Analysis.Block.status b) eqn:Hs; simpl; rewrite ?Hs.
Qed.

Lemma none_active_filters bs :
  Forall (λ b, Analysis.Block.status b ≠ Analysis.active) bs →
  Analysis.with_status_in [Analysis.active] bs = [] ∧
  Analysis.with_status_in [Analysis.active; Analysis.leaked] bs
  = Analysis.with_status_in [Analysis.leaked] bs.
Proof.
  unfold Analysis.with_status_in.
  induction 1 as [|b bs Hb _ [IH1 IH2]]; [done|].
  cbn [List.filter]. rewrite IH1, IH2.
  by destruct (Analysis.Block.status b).
Qed.

Lemma apply_end_event e bm :
  Analysis.action e = "end" →
  Analysis.apply_event e bm = Analysis.mark_leaked bm.
Proof. intros He. unfold Analysis.apply_event. rewrite He. simpl. by repeat case_match. Qed.

(** ** The analysis at a step *)

(** X21. The analysis takes one snapshot per event it visits: the
    snapshots returned at step [currentStep] are the first
    [currentStep + 1] of those that [useAllSnapshots] returns for the
    whole trace, and their number is [stats.totalOps] (or 0 where that
    is negative). *)
Theorem snapshots_follow_the_cursor :
  ∀ events currentStep,
    Analysis.snapshots (Analysis.useMemoryAnalysis events currentStep)
    = take (Z.to_nat (currentStep + 1)) (Analysis.useAllSnapshots events) ∧
    length (Analysis.useAllSnapshots events) = length events ∧
    Z.of_nat (length (Analysis.snapshots
                        (Analysis.useMemoryAnalysis events currentStep)))
    = Z.max 0 (Analysis.totalOps
                 (Analysis.stats (Analysis.useMemoryAnalysis events currentStep))).
Proof.
  intros events currentStep.
  assert (∀ l, length (Analysis.snaps (fold_left Analysis.iteration l Analysis.start))
               = length l) as Hlen.
  { intros l. by destruct (iterations_snaps l Analysis.start) as (more & -> & <-). }
  unfold Analysis.useAllSnapshots, Analysis.useMemoryAnalysis. simpl.
  fold Analysis.start. rewrite visited_all, !Hlen, visited_length.
  split_and!; [|done|lia].
  destruct (visited_split events currentStep) as [rest Hsplit].
  rewrite Hsplit at 2. rewrite fold_left_app.
  destruct (iterations_snaps rest
              (fold_left Analysis.iteration (Analysis.visited events currentStep)
                 Analysis.start)) as (more & -> & Hmore).
  set (done_ := Analysis.snaps _).
  assert (length done_ = Z.to_nat (Z.min (currentStep + 1) (Z.of_nat (length events))))
    as Hdone by (unfold done_; by rewrite Hlen, visited_length).
  assert (length rest = length events - length done_) as Hrest.
  { apply (f_equal length) in Hsplit. rewrite length_app, visited_length in Hsplit. lia. }
  destruct (decide (Z.to_nat (currentStep + 1) ≤ length events)) as [Hle|Hgt].
  - replace (Z.to_nat (currentStep + 1)) with (length done_) by lia.
    by rewrite take_app_length.
  - assert (more = []) as ->.
    { apply length_zero_iff_nil. lia. }
    rewrite app_nil_r. symmetry. apply take_ge. lia.
Qed.

(** X22. The four counts of the statistics partition the blocks: every
    block is counted once, as active, leaked, freed or double freed. *)
Theorem status_counts_partition_the_blocks :
  ∀ events currentStep,
    let r := Analysis.useMemoryAnalysis events currentStep in
    Analysis.activeCount (Analysis.stats r) + Analysis.leakedCount (Analysis.stats r)
    + Analysis.freedCount (Analysis.stats r)
    + Analysis.doubleFreeCount (Analysis.stats r)
    = length (Analysis.blocks r).
Proof. intros events currentStep. simpl. apply status_partition. Qed.

(** X23. The blocks of an analysis have distinct ids, and each block
    carries the id, the label and the size of an [alloc] event among
    those visited. *)
Theorem blocks_are_distinct_allocations :
  ∀ events currentStep,
    let r := Analysis.useMemoryAnalysis events currentStep in
    NoDup (Analysis.Block.id <$> Analysis.blocks r) ∧
    ∀ b, b ∈ Analysis.blocks r →
      ∃ e, e ∈ Analysis.visited events currentStep ∧
        Analysis.action e = "alloc" ∧
        Analysis.id e = Some (Analysis.Block.id b) ∧
        Analysis.label e = Some (Analysis.Block.label b) ∧
        Analysis.size e = Some (Analysis.Block.size b).
Proof.
  intros events currentStep. simpl. fold Analysis.start. split.
  - rewrite keyed_ids by (apply iterations_keyed; constructor).
    apply iterations_nodup. constructor.
  - intros b Hb. unfold Analysis.values in Hb.
    apply list_elem_of_fmap in Hb as ([k b'] & -> & Hin).
    pose proof (iterations_allocated (Analysis.visited events currentStep)) as Hall.
    rewrite Forall_forall in Hall. exact (Hall _ Hin).
Qed.

(** X24. At a step whose event is the [end] event no block is active,
    and the snapshot of that step shows a heap made of leaked blocks
    only: its total is the leaked bytes of the statistics. *)
Theorem end_event_leaves_no_active_block :
  ∀ events currentStep e,
    last (Analysis.visited events currentStep) = Some e →
    Analysis.action e = "end" →
    let r := Analysis.useMemoryAnalysis events currentStep in
    Analysis.activeCount (Analysis.stats r) = 0 ∧
    (∀ b, b ∈ Analysis.blocks r → Analysis.Block.status b ≠ Analysis.active) ∧
    last (Analysis.snapshots r)
    = Some {| Analysis.total := Analysis.leakedBytes (Analysis.stats r);
              Analysis.leaked_bytes := Analysis.leakedBytes (Analysis.stats r) |}.
Proof.
  intros events currentStep e Hlast Hend. simpl. fold Analysis.start.
  apply last_Some in Hlast as [l ->].
  rewrite fold_left_app. simpl. rewrite (apply_end_event e) by done.
  pose proof (mark_leaked_none_active
                (Analysis.bm (fold_left Analysis.iteration l Analysis.start))) as Hnone.
  destruct (none_active_filters _ Hnone) as [-> ->].
  split_and!; [done| |by rewrite last_snoc].
  intros b Hb. rewrite Forall_forall in Hnone. by apply Hnone.
Qed.

(** X24 at the trace alloc, end, seen at its last step. *)
Lemma end_event_leaves_no_active_block_witness :
  let events :=
    [ {| Analysis.time := 1; Analysis.action := "alloc"; Analysis.id := Some "a_1";
         Analysis.size := Some 64%float; Analysis.label := Some "a" |};
      {| Analysis.time := 2; Analysis.action := "end"; Analysis.id := None;
         Analysis.size := None; Analysis.label := None |} ] in
  Analysis.activeCount (Analysis.stats (Analysis.useMemoryAnalysis events 1)) = 0 ∧
  Analysis.leakedCount (Analysis.stats (Analysis.useMemoryAnalysis events 1)) = 1.
Proof.
  intros events. split; [|reflexivity].
  exact (proj1 (end_event_leaves_no_active_block events 1
                  {| Analysis.time := 2; Analysis.action := "end"; Analysis.id := None;
                     Analysis.size := None; Analysis.label := None |}
                  eq_refl eq_refl)).
Defined.

(** X25. Stepping forward never reorders or removes blocks: the ids of
    the blocks at a step are a prefix of the ids of the blocks at any
    later step. *)
Theorem blocks_keep_their_place :
  ∀ events a b,
    (a ≤ b)%Z →
    (Analysis.Block.id <$> Analysis.blocks (Analysis.useMemoryAnalysis events a))
    `prefix_of`
    (Analysis.Block.id <$> Analysis.blocks (Analysis.useMemoryAnalysis events b)).
Proof.
  intros events a b Hab. simpl. fold Analysis.start.
  rewrite !keyed_ids by (apply iterations_keyed; constructor).
  destruct (visited_mono events a b Hab) as [more ->].
  rewrite fold_left_app.
  destruct (iterations_keys more
              (fold_left Analysis.iteration (Analysis.visited events a) Analysis.start))
    as [extra ->].
  by exists extra.
Qed.

(** X25 at the trace alloc a, alloc b, between its two steps. *)
Lemma blocks_keep_their_place_witness :
  let events :=
    [ {| Analysis.time := 1; Analysis.action := "alloc"; Analysis.id := Some "a_1";
         Analysis.size := Some 64%float; Analysis.label := Some "a" |};
      {| Analysis.time := 2; Analysis.action := "alloc"; Analysis.id := Some "b_2";
         Analysis.size := Some 8%float; Analysis.label := Some "b" |} ] in
  (Analysis.Block.id <$> Analysis.blocks (Analysis.useMemoryAnalysis events 0))
  `prefix_of`
  (Analysis.Block.id <$> Analysis.blocks (Analysis.useMemoryAnalysis events 1)).
Proof.
  intros events. apply (blocks_keep_their_place events 0 1). lia.
Defined.

(** ** The analysis of a recorded trace *)

Lemma replay_snoc {num} (f : num → float) evs e :
  Analysis.replay f (evs ++ [e])
  = Analysis.apply_event (Analysis.of_trace f e) (Analysis.replay f evs).
Proof. unfold Analysis.replay. by rewrite fmap_app, fold_left_app. Qed.

Lemma replay_keyed {num} (f : num → float) evs :
  Forall Analysis.keyed (Analysis.replay f evs).
Proof. apply iterations_keyed. constructor. Qed.

Lemma replay_nodup {num} (f : num → float) evs :
  NoDup (Analysis.replay f evs).*1.
Proof. apply iterations_nodup. constructor. Qed.

(** Every key of the block map is the id of a recorded [alloc] event. *)
Lemma replay_keys {num} (f : num → float) evs k :
  k ∈ (Analysis.replay f evs).*1 →
  ∃ e, e ∈ evs ∧ Trace.action e = "alloc" ∧ Trace.id e = Some k.
Proof.
  intros ([k' b] & -> & Hin)%list_elem_of_fmap.
  pose proof (replay_keyed f evs) as Hkeyed.
  pose proof (iterations_allocated (Analysis.of_trace f <$> evs)) as Hall.
  rewrite Forall_forall in Hkeyed, Hall.
  specialize (Hkeyed _ Hin). destruct (Hall _ Hin) as (e' & He' & Ha & Hi & _).
  apply list_elem_of_fmap in He' as (e & -> & He).
  exists e. unfold Analysis.keyed in Hkeyed. simpl in *. by rewrite <- Hkeyed.
Qed.

Lemma set_fresh k b bm :
  k ∉ bm.*1 → Analysis.set k b bm = bm ++ [(k, b)].
Proof.
  induction bm as [|[k' b'] bm IH]; csimpl; [done|].
  intros [Hk Hbm]%not_elem_of_cons.
  destruct (String.eqb_spec k' k) as [->|_]; [done|]. by rewrite IH.
Qed.

Lemma keys_with_app st a b :
  Analysis.keys_with st (a ++ b)
  = Analysis.keys_with st a ++ Analysis.keys_with st b.
Proof. unfold Analysis.keys_with. by rewrite List.filter_app, fmap_app. Qed.

Lemma keys_with_subseteq st bm k :
  k ∈ Analysis.keys_with st bm → k ∈ bm.*1.
Proof.
  unfold Analysis.keys_with. induction bm as [|[k' b] bm IH]; csimpl; [done|].
  destruct (Analysis.BlockStatus_eqb _ _); csimpl; rewrite ?elem_of_cons; naive_solver.
Qed.

Lemma keys_with_nodup st bm :
  NoDup bm.*1 → NoDup (Analysis.keys_with st bm).
Proof.
  unfold Analysis.keys_with. induction bm as [|[k b] bm IH]; csimpl; [done|].
  intros [Hk Hbm]%NoDup_cons.
  destruct (Analysis.BlockStatus_eqb _ _); csimpl; [|by apply IH].
  apply NoDup_cons. split; [|by apply IH].
  intros Hin. apply Hk. by eapply keys_with_subseteq.
Qed.

Lemma keys_with_cons st k b bm :
  Analysis.keys_with st ((k, b) :: bm)
  = if Analysis.BlockStatus_eqb (Analysis.Block.status b) st
    then k :: Analysis.keys_with st bm else Analysis.keys_with st bm.
Proof.
  unfold Analysis.keys_with. simpl.
  by destruct (Analysis.BlockStatus_eqb _ _).
Qed.

Lemma keys_with_set_status st k s bm :
  s ≠ st →
  Analysis.keys_with st (Analysis.set_status k s bm)
  = List.filter (λ x, negb (String.eqb x k)) (Analysis.keys_with st bm).
Proof.
  intros Hs.
  assert (Analysis.BlockStatus_eqb s st = false) as Hne by (by destruct s, st).
  induction bm as [|[k' b] bm IH]; [done|].
  change (Analysis.set_status k s ((k', b) :: bm))
    with ((if String.eqb k' k then (k', Analysis.with_status s b) else (k', b))
          :: Analysis.set_status k s bm).
  destruct (String.eqb k' k) eqn:Hk; rewrite !keys_with_cons, IH.
  - simpl. rewrite Hne.
    destruct (Analysis.BlockStatus_eqb (Analysis.Block.status b) st);
      cbn [List.filter]; by rewrite ?Hk.
  - destruct (Analysis.BlockStatus_eqb (Analysis.Block.status b) st);
      cbn [List.filter]; by rewrite ?Hk.
Qed.

Lemma list_to_set_without (k : string) (l : list string) :
  list_to_set (C := gset string) (List.filter (λ x, negb (String.eqb x k)) l)
  = list_to_set l ∖ {[k]}.
Proof.
  apply set_eq. intros x.
  rewrite elem_of_difference, !elem_of_list_to_set, !list_elem_of_In,
    List.filter_In, negb_true_iff, String.eqb_neq, elem_of_singleton.
  done.
Qed.

Lemma keys_with_count st bm :
  length (Analysis.with_status_in [st] (Analysis.values bm))
  = length (Analysis.keys_with st bm).
Proof.
  unfold Analysis.with_status_in, Analysis.values, Analysis.keys_with.
  induction bm as [|[k b] bm IH]; [done|]. simpl in *.
  rewrite orb_false_r.
  destruct (Analysis.BlockStatus_eqb (Analysis.Block.status b) st);
    simpl in *; by rewrite IH.
Qed.

Lemma keys_with_ids st bm :
  Forall Analysis.keyed bm →
  Analysis.Block.id <$> Analysis.with_status_in [st] (Analysis.values bm)
  = Analysis.keys_with st bm.
Proof.
  unfold Analysis.with_status_in, Analysis.values, Analysis.keys_with.
  induction 1 as [|[k b] bm Hk _ IH]; [done|]. simpl in *.
  rewrite orb_false_r.
  destruct (Analysis.BlockStatus_eqb (Analysis.Block.status b) st);
    simpl in *; [|done].
  unfold Analysis.keyed in Hk. simpl in Hk. rewrite Hk. f_equal. exact IH.
Qed.

Lemma follows_nil : Analysis.follows ∅ [].
Proof. split; [done|done|by intros ?%elem_of_nil]. Qed.

Lemma truthy_string_named i : i ≠ "" → Analysis.truthy_string (Some i) = Some i.
Proof. intros Hi. simpl. by destruct (String.eqb_spec i ""). Qed.

(** An [alloc] event with a new id and a label adds an active block. *)
Lemma follows_alloc live bm e i l n :
  Analysis.follows live bm →
  Analysis.action e = "alloc" → Analysis.id e = Some i →
  Analysis.label e = Some l → Analysis.size e = Some n →
  i ≠ "" → l ≠ "" → i ∉ bm.*1 →
  Analysis.follows ({[i]} ∪ live) (Analysis.apply_event e bm).
Proof.
  intros [Hact Hleak Hnamed] Ha Hi Hl Hn Hi' Hl' Hfresh.
  unfold Analysis.apply_event.
  rewrite Ha, Hi, Hl, Hn, !truthy_string_named by done.
  change (String.eqb "alloc" "alloc") with true. cbv iota.
  rewrite set_fresh by done. split.
  - rewrite keys_with_app, list_to_set_app_L, Hact. set_solver.
  - rewrite keys_with_app, Hleak. done.
  - rewrite fmap_app. csimpl. rewrite elem_of_app, list_elem_of_singleton.
    naive_solver.
Qed.

(** A [free] event for an id of the table ends its block. *)
Lemma follows_free live bm e k :
  Analysis.follows live bm →
  Analysis.action e = "free" → Analysis.id e = Some k → k ∈ live →
  Analysis.follows (live ∖ {[k]}) (Analysis.apply_event e bm).
Proof.
  intros [Hact Hleak Hnamed] Ha Hi Hk.
  assert (k ∈ bm.*1) as Hin.
  { apply (keys_with_subseteq Analysis.active).
    rewrite <- Hact in Hk. by apply elem_of_list_to_set in Hk. }
  assert (k ≠ "") as Hk' by (by intros ->).
  unfold Analysis.apply_event.
  rewrite Ha, Hi, !truthy_string_named by done.
  change (String.eqb "free" "alloc") with false.
  change (String.eqb "free" "free") with true. cbv iota.
  rewrite (proj2 (has_keys k bm)) by done. split.
  - by rewrite keys_with_set_status, list_to_set_without, Hact.
  - by rewrite keys_with_set_status, Hleak.
  - by rewrite set_status_keys.
Qed.

(** A [double_free] event for an id outside the table leaves the
    active blocks as they are. *)
Lemma follows_double_free live bm e k :
  Analysis.follows live bm →
  Analysis.action e = "double_free" → Analysis.id e = Some k → k ∉ live →
  Analysis.follows live (Analysis.apply_event e bm).
Proof.
  intros [Hact Hleak Hnamed] Ha Hi Hk.
  unfold Analysis.apply_event. rewrite Ha, Hi.
  change (String.eqb "double_free" "alloc") with false.
  change (String.eqb "double_free" "free") with false.
  change (String.eqb "double_free" "double_free") with true.
  change (String.eqb "double_free" "end") with false. cbv iota.
  destruct (Analysis.truthy_string (Some k)) as [k'|] eqn:Hk'; [|by split].
  apply truthy_string_some in Hk' as [= <-].
  destruct (Analysis.has k bm); [|by split]. split.
  - rewrite keys_with_set_status, list_to_set_without, Hact by done. set_solver.
  - by rewrite keys_with_set_status, Hleak.
  - by rewrite set_status_keys.
Qed.

(** The [end] event turns the active blocks into the leaked ones. *)
Lemma end_event_keys bm :
  Analysis.keys_with Analysis.leaked bm = [] →
  Analysis.keys_with Analysis.active (Analysis.mark_leaked bm) = [] ∧
  Analysis.keys_with Analysis.leaked (Analysis.mark_leaked bm)
  = Analysis.keys_with Analysis.active bm.
Proof.
  unfold Analysis.keys_with, Analysis.mark_leaked.
  induction bm as [|[k b] bm IH]; [done|]. csimpl.
  destruct (Analysis.Block.status b) eqn:Hs; csimpl; rewrite ?Hs; csimpl;
    try done; intros H; destruct (IH H) as [-> ->]; done.
Qed.

Lemma make_id_named l t : Trace.make_id l t ≠ "".
Proof. unfold Trace.make_id. by destruct l. Qed.

Lemma labelled_app {num} (evs more : list (Trace.event num)) :
  Analysis.labelled (evs ++ more) → Analysis.labelled evs.
Proof. intros H e He. apply H. apply elem_of_app. by left. Qed.

Section tracks.
Context {num : Type} (f : num → float).

Lemma tracks_alloc evs t live l n :
  Trace.ordered evs t live → Analysis.tracks f evs live →
  Analysis.tracks f (evs ++ [Trace.Event (t + 1) "alloc"
                    (Some (Trace.make_id l (t + 1))) (Some n) (Some l)])
    ({[Trace.make_id l (t + 1)]} ∪ live).
Proof.
  intros Hord Htr Hlab. rewrite replay_snoc.
  eapply follows_alloc; simpl; try done.
  - apply Htr. by eapply labelled_app.
  - apply make_id_named.
  - intros ->.
    apply (Hlab (Trace.Event (t + 1) "alloc"
                   (Some (Trace.make_id "" (t + 1))) (Some n) (Some "")));
      [|done..].
    apply elem_of_app. right. by left.
  - intros (e & He & Ha & Hi)%replay_keys.
    destruct (next_id_is_new evs t live l Hord) as [Hnew _]. by eapply Hnew.
Qed.

Lemma tracks_free evs t live k :
  Analysis.tracks f evs live → k ∈ live →
  Analysis.tracks f (evs ++ [Trace.Event t "free" (Some k) None None]) (live ∖ {[k]}).
Proof.
  intros Htr Hk Hlab. rewrite replay_snoc.
  eapply follows_free; simpl; try done. apply Htr. by eapply labelled_app.
Qed.

Lemma tracks_double_free evs t live k :
  Analysis.tracks f evs live → k ∉ live →
  Analysis.tracks f (evs ++ [Trace.Event t "double_free" (Some k) None None]) live.
Proof.
  intros Htr Hk Hlab. rewrite replay_snoc.
  eapply follows_double_free; simpl; try done. apply Htr. by eapply labelled_app.
Qed.

(** The analysis of the events handed over, at its last step. *)
Lemma analysis_of_handed_over evs t live final :
  Analysis.follows live (Analysis.replay f evs) →
  final = (if (0 <? size live)%nat then evs ++ [Trace.end_event t] else evs) →
  let r := Analysis.useMemoryAnalysis (Analysis.of_trace f <$> final)
             (Z.of_nat (length final) - 1) in
  Analysis.activeCount (Analysis.stats r) = 0 ∧
  Analysis.leakedCount (Analysis.stats r) = size live ∧
  list_to_set (Analysis.Block.id <$>
                 Analysis.with_status_in [Analysis.leaked] (Analysis.blocks r))
  = live.
Proof.
  intros [Hact Hleak Hnamed] Hfinal. simpl.
  rewrite <- (length_fmap (Analysis.of_trace f) final), visited_all.
  change (Analysis.bm (fold_left Analysis.iteration
                         (Analysis.of_trace f <$> final) Analysis.start))
    with (Analysis.replay f final).
  rewrite !keys_with_count, keys_with_ids by apply replay_keyed.
  assert (NoDup (Analysis.keys_with Analysis.active (Analysis.replay f evs)))
    as Hnodup by apply keys_with_nodup, replay_nodup.
  destruct (0 <? size live)%nat eqn:Hsize; subst final.
  - rewrite replay_snoc, apply_end_event by done.
    destruct (end_event_keys _ Hleak) as [-> ->].
    split_and!; [done| |done].
    by rewrite <- Hact, size_list_to_set.
  - apply Nat.ltb_ge in Hsize.
    assert (live = ∅) as Hempty by (apply leibniz_equiv, size_empty_iff; lia).
    assert (Analysis.keys_with Analysis.active (Analysis.replay f evs) = [])
      as Hnone.
    { rewrite Hempty in Hact.
      destruct (Analysis.keys_with _ _) as [|x l]; [done|]. set_solver. }
    rewrite Hnone, Hleak, Hempty. split_and!; [done| |done].
    by rewrite size_empty.
Qed.

End tracks.

Lemma js_run_tracks body :
  let s := Js.left_behind (Js.run body Js.init) in
  Analysis.tracks id (Js.__events s) (dom (Js.__allocs s)).
Proof.
  apply (js_run_keeps (λ evs allocs, Analysis.tracks id evs (dom allocs))).
  - intros c s s' Hatomic Htr Hcons%consistent_ordered Hc.
    apply js_exec_cases in Hc
      as [(l & n & -> & _ & _ & ->)|[(k & -> & _ & ->)|(_ & -> & -> & _)]];
      [|simpl|done..].
    + simpl. rewrite dom_insert_L. by apply tracks_alloc.
    + destruct (Js.__allocs s !! k) eqn:Hk.
      * rewrite dom_delete_L. apply tracks_free; [done|]. by eapply elem_of_dom_2.
      * apply tracks_double_free; [done|]. by apply not_elem_of_dom.
  - rewrite dom_empty_L. intros _. apply follows_nil.
Qed.

Lemma py_run_tracks body :
  let s := Py.left_behind (Py._run_user_code body Py.init) in
  Analysis.tracks JsValue.num_of_Z (Py._events s) (dom (Py._allocs s)).
Proof.
  apply (py_run_keeps (λ evs allocs, Analysis.tracks JsValue.num_of_Z evs (dom allocs))).
  - intros c s s' Hatomic Htr Hord Hc.
    apply py_exec_cases in Hc
      as [(l & x & n & -> & _ & _ & ->)|[(k & -> & _ & ->)|(_ & -> & -> & _)]];
      [|simpl|done..].
    + simpl. rewrite dom_insert_L. by apply tracks_alloc.
    + destruct (Py._allocs s !! k) eqn:Hk.
      * rewrite dom_delete_L. apply tracks_free; [done|]. by eapply elem_of_dom_2.
      * apply tracks_double_free; [done|]. by apply not_elem_of_dom.
  - rewrite dom_empty_L. intros _. apply follows_nil.
Qed.

(** X30. The analysis of a complete recorded trace, at its last step,
    reports as leaked exactly the allocations that were in the
    allocation table when the run ended, and no block as active,
    provided every [alloc] was given a label that is not empty: the
    leaked blocks have the ids of the table, and [leakedCount] is its
    size.  This holds for the events handed over by the JavaScript
    program and for those handed over by the Python program.  An
    [alloc] with the empty label is recorded by either program and
    skipped by the analysis. *)
Theorem analysis_reports_the_table_as_leaked :
  (∀ body evs out err,
     Js.script body = Js.MsgResult evs out err → Analysis.labelled evs →
     let table := Js.__allocs (Js.left_behind (Js.run body Js.init)) in
     let r := Analysis.useMemoryAnalysis (Analysis.of_trace id <$> evs)
                (Z.of_nat (length evs) - 1) in
     Analysis.activeCount (Analysis.stats r) = 0 ∧
     Analysis.leakedCount (Analysis.stats r) = size table ∧
     list_to_set (Analysis.Block.id <$>
                    Analysis.with_status_in [Analysis.leaked] (Analysis.blocks r))
     = dom table) ∧
  (∀ body evs out err,
     Py.script body = Py.Returned evs out err → Analysis.labelled evs →
     let table := Py._allocs (Py.left_behind (Py._run_user_code body Py.init)) in
     let r := Analysis.useMemoryAnalysis
                (Analysis.of_trace JsValue.num_of_Z <$> evs)
                (Z.of_nat (length evs) - 1) in
     Analysis.activeCount (Analysis.stats r) = 0 ∧
     Analysis.leakedCount (Analysis.stats r) = size table ∧
     list_to_set (Analysis.Block.id <$>
                    Analysis.with_status_in [Analysis.leaked] (Analysis.blocks r))
     = dom table) ∧
  (∃ evs s,
     Js.script [Js.SAlloc (VStr "") (VNum 8)] = Js.MsgResult evs "" "" ∧
     Js.run [Js.SAlloc (VStr "") (VNum 8)] Js.init = Js.Normal tt s ∧
     size (Js.__allocs s) = 1 ∧
     Analysis.leakedCount
       (Analysis.stats (Analysis.useMemoryAnalysis
                          (Analysis.of_trace id <$> evs) 1)) = 0).
Proof.
  split_and!.
  - intros body evs out err Hscript Hlab.
    pose proof (js_run_tracks body) as Htr. simpl in Htr.
    unfold Js.script in Hscript.
    destruct (Js.run body Js.init) as [[] s|m s] eqn:Hrun; [|done].
    injection Hscript as <- _ _. simpl in *.
    rewrite <- size_dom.
    eapply (analysis_of_handed_over id (Js.__events s) (Js.__time s + 1)).
    + apply Htr. unfold Js.mark_leaked in Hlab.
      destruct (0 <? size (Js.__allocs s))%nat; [by eapply labelled_app|done].
    + unfold Js.mark_leaked. rewrite size_dom.
      by destruct (0 <? size (Js.__allocs s))%nat.
  - intros body evs out err Hscript Hlab.
    pose proof (py_run_tracks body) as Htr. simpl in Htr.
    unfold Py.script in Hscript.
    destruct (Py._run_user_code body Py.init) as [[] s|m s] eqn:Hrun; [|done].
    injection Hscript as <- _ _. simpl in *.
    rewrite <- size_dom.
    eapply (analysis_of_handed_over JsValue.num_of_Z (Py._events s) (Py._time s + 1)).
    + apply Htr. unfold Py.mark_leaked in Hlab.
      destruct (0 <? size (Py._allocs s))%nat; [by eapply labelled_app|done].
    + unfold Py.mark_leaked. rewrite size_dom.
      by destruct (0 <? size (Py._allocs s))%nat.
  - eexists _, _. split_and!; vm_compute; reflexivity.
Qed.

(** X30 at the JavaScript program alloc('buf', 64). *)
Lemma analysis_reports_the_table_as_leaked_witness :
  let evs := [Trace.Event 1 "alloc" (Some "buf_1") (Some 64%float) (Some "buf");
              Trace.end_event 2] in
  Js.script [Js.SAlloc (VStr "buf") (VNum 64)] = Js.MsgResult evs "" "" ∧
  Analysis.leakedCount
    (Analysis.stats (Analysis.useMemoryAnalysis (Analysis.of_trace id <$> evs) 1))
  = 1.
Proof.
  intros evs. split; [vm_compute; reflexivity|].
  destruct (proj1 analysis_reports_the_table_as_leaked
              [Js.SAlloc (VStr "buf") (VNum 64)] evs "" "")
    as (_ & Hleaked & _).
  - vm_compute; reflexivity.
  - intros e [->|[->|[]%elem_of_nil]%elem_of_cons]%elem_of_cons; simpl; congruence.
  - exact Hleaked.
Defined.

(** ** escapeHtml *)

Lemma replace_all_app c r a b :
  ExportHtml.replace_all c r (a +:+ b)
  = ExportHtml.replace_all c r a +:+ ExportHtml.replace_all c r b.
Proof.
  induction a as [|x a IH]; [done|]. simpl.
  destruct (Ascii.eqb x c); simpl; rewrite IH; [|done].
  by rewrite app_assoc_s.
Qed.

Lemma escapeHtml_app a b :
  ExportHtml.escapeHtml (a +:+ b)
  = ExportHtml.escapeHtml a +:+ ExportHtml.escapeHtml b.
Proof. unfold ExportHtml.escapeHtml. by rewrite !replace_all_app. Qed.

Lemma escapeHtml_char a :
  ExportHtml.escapeHtml (String a "") = ExportHtml.escape_char a.
Proof. destruct a as [[] [] [] [] [] [] [] []]; reflexivity. Qed.

Lemma escapeHtml_one_pass s : ExportHtml.escapeHtml s = ExportHtml.one_pass s.
Proof.
  induction s as [|a s IH]; [done|].
  change (String a s) with (String a "" +:+ s).
  by rewrite escapeHtml_app, escapeHtml_char, IH.
Qed.

Lemma escape_char_cases a :
  (a = ExportHtml.amp ∧ ExportHtml.escape_char a = "&amp;") ∨
  (a = ExportHtml.lt ∧ ExportHtml.escape_char a = "&lt;") ∨
  (a = ExportHtml.gt ∧ ExportHtml.escape_char a = "&gt;") ∨
  (a = ExportHtml.apos ∧ ExportHtml.escape_char a = "&#39;") ∨
  (a = ExportHtml.quot ∧ ExportHtml.escape_char a = "&quot;") ∨
  (ExportHtml.plain a = true ∧ ExportHtml.escape_char a = String a "").
Proof.
  unfold ExportHtml.escape_char, ExportHtml.plain.
  destruct (Ascii.eqb_spec a ExportHtml.amp); [by left|right].
  destruct (Ascii.eqb_spec a ExportHtml.lt); [by left|right].
  destruct (Ascii.eqb_spec a ExportHtml.gt); [by left|right].
  destruct (Ascii.eqb_spec a ExportHtml.apos); [by left|right].
  destruct (Ascii.eqb_spec a ExportHtml.quot); [by left|by right].
Qed.

Lemma all_chars_app P a b :
  ExportHtml.all_chars P (a +:+ b)
  = ExportHtml.all_chars P a && ExportHtml.all_chars P b.
Proof.
  induction a as [|x a IH]; [done|]. simpl. rewrite IH. by rewrite andb_assoc.
Qed.

Lemma one_pass_length s :
  String.length s ≤ String.length (ExportHtml.one_pass s).
Proof.
  induction s as [|a s IH]; [done|]. simpl. rewrite length_app_s.
  destruct (escape_char_cases a) as
    [[_ ->]|[[_ ->]|[[_ ->]|[[_ ->]|[[_ ->]|[_ ->]]]]]]; simpl; lia.
Qed.

Lemma one_pass_inj s t :
  ExportHtml.one_pass s = ExportHtml.one_pass t → s = t.
Proof.
  revert t. induction s as [|a s IH]; intros [|b t]; simpl.
  - done.
  - destruct (escape_char_cases b) as
      [[_ ->]|[[_ ->]|[[_ ->]|[[_ ->]|[[_ ->]|[_ ->]]]]]]; done.
  - destruct (escape_char_cases a) as
      [[_ ->]|[[_ ->]|[[_ ->]|[[_ ->]|[[_ ->]|[_ ->]]]]]]; done.
  - destruct (escape_char_cases a) as
      [[-> ->]|[[-> ->]|[[-> ->]|[[-> ->]|[[-> ->]|[Ha ->]]]]]];
    destruct (escape_char_cases b) as
      [[-> ->]|[[-> ->]|[[-> ->]|[[-> ->]|[[-> ->]|[Hb ->]]]]]];
    simpl; intros H; try discriminate H;
      injection H; clear H; intros; subst;
      try discriminate Ha; try discriminate Hb;
      f_equal; by apply IH.
Qed.

Lemma entities_only_cons a rest :
  ExportHtml.entities_only (String a rest)
  = (negb (Ascii.eqb a ExportHtml.amp)
     || ExportHtml.starts_with "amp;" rest || ExportHtml.starts_with "lt;" rest
     || ExportHtml.starts_with "gt;" rest || ExportHtml.starts_with "#39;" rest
     || ExportHtml.starts_with "quot;" rest)
    && ExportHtml.entities_only rest.
Proof. reflexivity. Qed.

(** X26. [escapeHtml] treats each character of its input on its own:
    the result for a text is the results for its parts one after the
    other, a character other than the five is left as it is, and each
    of the five becomes its entity.  In particular the [&] that the
    later replacements bring in is never escaped again. *)
Theorem escapeHtml_escapes_each_character_once :
  (∀ a b, ExportHtml.escapeHtml (a +:+ b)
          = ExportHtml.escapeHtml a +:+ ExportHtml.escapeHtml b) ∧
  (∀ c, ExportHtml.escapeHtml (String c "")
        = if ExportHtml.plain c then String c "" else ExportHtml.escape_char c) ∧
  ExportHtml.escapeHtml "&" = "&amp;" ∧
  ExportHtml.escapeHtml "<" = "&lt;" ∧
  ExportHtml.escapeHtml ">" = "&gt;" ∧
  ExportHtml.escapeHtml "'" = "&#39;" ∧
  ExportHtml.escapeHtml (String ExportHtml.quot "") = "&quot;" ∧
  (∀ s, ExportHtml.escapeHtml s = ExportHtml.one_pass s).
Proof.
  split_and!; try reflexivity.
  - apply escapeHtml_app.
  - intros c. rewrite escapeHtml_char.
    by destruct (escape_char_cases c) as
      [[-> ->]|[[-> ->]|[[-> ->]|[[-> ->]|[[-> ->]|[-> ->]]]]]].
  - apply escapeHtml_one_pass.
Qed.

(** X27. The result of [escapeHtml] holds no [<], no [>] and no quote
    of either kind, and every [&] in it starts one of the five
    entities: no part of the input can open or close a tag or an
    attribute value in the exported page. *)
Theorem escapeHtml_neutralises_markup :
  ∀ s,
    ExportHtml.all_chars ExportHtml.inert (ExportHtml.escapeHtml s) = true ∧
    ExportHtml.entities_only (ExportHtml.escapeHtml s) = true.
Proof.
  intros s. rewrite escapeHtml_one_pass. split.
  - induction s as [|a s IH]; [done|]. simpl. rewrite all_chars_app, IH, andb_true_r.
    destruct a as [[] [] [] [] [] [] [] []]; reflexivity.
  - induction s as [|a s IH]; [done|]. cbn [ExportHtml.one_pass].
    destruct (escape_char_cases a) as
      [[-> ->]|[[-> ->]|[[-> ->]|[[-> ->]|[[-> ->]|[Ha ->]]]]]];
      cbv [String.append]; rewrite !entities_only_cons, IH, ?andb_true_r;
      unfold ExportHtml.amp; [reflexivity..|].
    unfold ExportHtml.plain, ExportHtml.amp in Ha.
    destruct (Ascii.eqb a "&"); [done|done].
Qed.

(** X28. [escapeHtml] loses nothing: two texts with the same escaped
    form are the same text. *)
Theorem escapeHtml_is_injective :
  ∀ s t, ExportHtml.escapeHtml s = ExportHtml.escapeHtml t → s = t.
Proof. intros s t. rewrite !escapeHtml_one_pass. apply one_pass_inj. Qed.

(** X28 at a text with a tag in it. *)
Lemma escapeHtml_is_injective_witness :
  ExportHtml.escapeHtml "<b>" = "&lt;b&gt;" ∧ "<b>" = "<b>".
Proof.
  split; [reflexivity|].
  apply (escapeHtml_is_injective "<b>" "<b>"). reflexivity.
Defined.

(** X29. [escapeHtml] returns its input unchanged exactly when none of
    the five characters occurs in it. *)
Theorem escapeHtml_fixes_exactly_plain_text :
  ∀ s, ExportHtml.escapeHtml s = s ↔ ExportHtml.all_chars ExportHtml.plain s = true.
Proof.
  intros s. rewrite escapeHtml_one_pass. split.
  - induction s as [|a s IH]; [done|]. simpl. intros H.
    pose proof (one_pass_length s) as Hlen.
    destruct (escape_char_cases a) as
      [[-> Ha]|[[-> Ha]|[[-> Ha]|[[-> Ha]|[[-> Ha]|[Ha Hb]]]]]];
      rewrite ?Ha, ?Hb in H; cbv [String.append] in H;
      injection H; clear H; intros H.
    1-5: apply (f_equal String.length) in H; simpl in H; lia.
    rewrite Ha. simpl. by apply IH.
  - induction s as [|a s IH]; [done|]. simpl.
    intros [Ha Hs]%andb_true_iff.
    destruct (escape_char_cases a) as
      [[-> _]|[[-> _]|[[-> _]|[[-> _]|[[-> _]|[_ ->]]]]]]; try discriminate Ha.
    simpl. by rewrite IH.
Qed.

(** X29 at a text without any of the five characters. *)
Lemma escapeHtml_fixes_exactly_plain_text_witness :
  ExportHtml.escapeHtml "heap_1" = "heap_1".
Proof.
  apply (proj2 (escapeHtml_fixes_exactly_plain_text "heap_1")). reflexivity.
Defined.
